(** * GrooveScope backend: conversion monitoring and waveform peaks

    A shallow embedding of the two services of the backend,
    [services/youtubeService.js] (video-id extraction, SSE monitoring,
    HEAD polling) and the audio processor (byte-stream sampling, the
    procedural generator, the peak-array utilities), followed by the
    properties established about them.

    Conventions of the embedding.
    - A JavaScript number that is an integer by construction (an index, a
      byte, a count, a hash, a millisecond value) is a [Z]; every other
      number is a real [R], with [Math.sqrt], [Math.sin], [Math.floor],
      [Math.min], [Math.max] read as [sqrt], [sin], [Zfloor], [Rmin],
      [Rmax].  Rounding of IEEE doubles, NaN and signed zeros are outside
      this reading.
    - A JavaScript string is the list of its UTF-16 code units.
    - A [Buffer] is a list of bytes.
    - [throw] / [try] / [catch] are an error result; the fields of [this],
      the scratch directory, the console and the position in the stream of
      [Math.random()] draws are an explicit [world]. *)

From Stdlib Require Import ZArith Reals Lra Lia List String Ascii Bool.
From Stdlib.Strings Require Import Byte.
Import ListNotations.

Set Implicit Arguments.

(* ------------------------------------------------------------------ *)
(** ** JavaScript values shared by both services *)

Module JS.

(** UTF-16 code units. *)
Definition js_string := list Z.

Definition str (s : string) : js_string :=
  map (fun c => Z.of_nat (nat_of_ascii c)) (list_ascii_of_string s).

Definition js_string_eqb (a b : js_string) : bool :=
  if list_eq_dec Z.eq_dec a b then true else false.

(** A string is truthy unless it is empty. *)
Definition truthy (s : option js_string) : bool :=
  match s with
  | Some (_ :: _) => true
  | _ => false
  end.

Record js_error := mkError { name : string; message : js_string }.

Definition Error (msg : js_string) : js_error := mkError "Error" msg.
Definition ReferenceError (msg : js_string) : js_error :=
  mkError "ReferenceError" msg.

Inductive result (A : Type) : Type :=
| Ok (a : A)
| Throw (e : js_error).
Arguments Ok {A} a.
Arguments Throw {A} e.

Definition Buffer := list byte.

Definition byteAt (b : Buffer) (j : Z) : Z :=
  Z.of_N (Byte.to_N (nth (Z.to_nat j) b x00)).

Definition buflen (b : Buffer) : Z := Z.of_nat (List.length b).

(** [ToInt32]: the value of [x & 0xffffffff] and of [x << 0]. *)
Definition toInt32 (x : Z) : Z :=
  (x + 2147483648) mod 4294967296 - 2147483648.

Definition shl (x n : Z) : Z := toInt32 (Z.shiftl (toInt32 x) n).

Definition Math_floor (x : R) : Z := Zfloor x.

(** Inclusive integer range [lo, lo+1, ..., hi] of a counting loop. *)
Definition range (lo hi : Z) : list Z :=
  map (fun k => lo + Z.of_nat k)%Z (seq 0 (Z.to_nat (hi - lo + 1))).

(** [0, 1, ..., n-1]: the indices of [for (let i = 0; i < n; i++)]. *)
Definition upto (n : Z) : list Z := range 0 (n - 1).

End JS.
Import JS.

(* ------------------------------------------------------------------ *)
(** ** The byte-stream sampler ([extractRealAmplitudes], [smoothPeaks]) *)

Module Sampler.

Local Open Scope Z_scope.

(** The inner loop
    [for (let j = startByte; j < endByte; j += 20)
       if (j < audioBuffer.length - 1) { sum += sample * sample; count++ }]
    returning [(sum, count)]. *)
Fixpoint sampleChunk (fuel : nat) (audioBuffer : Buffer)
         (j endByte sum count : Z) : Z * Z :=
  match fuel with
  | O => (sum, count)
  | S fuel' =>
      if j <? endByte then
        if j <? buflen audioBuffer - 1 then
          let sample := byteAt audioBuffer j - 128 in
          sampleChunk fuel' audioBuffer (j + 20) endByte
                      (sum + sample * sample) (count + 1)
        else sampleChunk fuel' audioBuffer (j + 20) endByte sum count
      else (sum, count)
  end.

(** One iteration of the outer loop: the normalized RMS of chunk [i]. *)
Definition chunkPeak (audioBuffer : Buffer) (chunkSize i : Z) : R :=
  let startByte := i * chunkSize in
  let endByte := Z.min (startByte + chunkSize) (buflen audioBuffer) in
  let '(sum, count) :=
    sampleChunk (Z.to_nat (endByte - startByte)) audioBuffer
                startByte endByte 0 0 in
  let rms := if 0 <? count then sqrt (IZR sum / IZR count) else 0%R in
  Rmin 1 (rms / 128).

(** In JavaScript a division by zero does not throw: it gives [NaN] or
    an infinity, which the arithmetic that follows carries along.
    [quotient] makes that case visible: [None] stands for such a value. *)
Definition quotient (x y : R) : option R :=
  if Req_dec_T y 0 then None else Some (x / y)%R.

(** [count > 0 ? Math.sqrt(sum / count) : 0] *)
Definition rmsOf (sum count : Z) : option R :=
  if 0 <? count
  then option_map sqrt (quotient (IZR sum) (IZR count))
  else Some 0%R.

(** The same iteration with its division checked: [None] when the RMS
    is not a number. *)
Definition chunkPeakChecked (audioBuffer : Buffer) (chunkSize i : Z)
  : option R :=
  let startByte := i * chunkSize in
  let endByte := Z.min (startByte + chunkSize) (buflen audioBuffer) in
  let '(sum, count) :=
    sampleChunk (Z.to_nat (endByte - startByte)) audioBuffer
                startByte endByte 0 0 in
  option_map (fun rms => Rmin 1 (rms / 128)) (rmsOf sum count).

Definition windowSize : Z := 1.

Definition smoothAt (peaks : list R) (i : Z) : R :=
  let lo := Z.max 0 (i - windowSize) in
  let hi := Z.min (Z.of_nat (List.length peaks) - 1) (i + windowSize) in
  let window := map (fun j => nth (Z.to_nat j) peaks 0%R) (range lo hi) in
  (fold_left Rplus window 0 / INR (List.length window))%R.

Definition smoothPeaks (peaks : list R) : list R :=
  map (smoothAt peaks) (upto (Z.of_nat (List.length peaks))).

Definition rawAmplitudes (audioBuffer : Buffer) (targetPeaks : Z) : list R :=
  let chunkSize :=
    Math_floor (IZR (buflen audioBuffer) / IZR targetPeaks) in
  map (chunkPeak audioBuffer chunkSize) (upto targetPeaks).

Definition extractRealAmplitudes (audioBuffer : Buffer) (targetPeaks : Z)
  : list R :=
  smoothPeaks (rawAmplitudes audioBuffer targetPeaks).

(** The array [peaks] before smoothing, with the divisions checked. *)
Definition rawAmplitudesChecked (audioBuffer : Buffer) (targetPeaks : Z)
  : list (option R) :=
  let chunkSize :=
    Math_floor (IZR (buflen audioBuffer) / IZR targetPeaks) in
  map (chunkPeakChecked audioBuffer chunkSize) (upto targetPeaks).

End Sampler.

(* ------------------------------------------------------------------ *)
(** ** The audio processor *)

Module AudioProcessor.

Record PeaksResult := mkPeaks {
  peaks : list R;
  duration : R;
  sampleRate : Z;
  channels : Z;
  length : Z;
  bits : Z
}.

(** What the process cannot decide by itself: the reply of the download,
    the clock, the failures of the file system (of writing, reading,
    unlinking and listing) and the successive values of [Math.random()]. *)
Record host := mkHost {
  axios_get : js_string -> result (option Buffer);
  Date_now : Z;
  fs_writeFile_error : option js_error;
  fs_readFile_error : option js_error;
  fs_unlink_error : option js_error;
  fs_readdir_error : option js_error;
  Math_random : nat -> R
}.

(** The mutable state: the two fields of [this] set during extraction,
    the files of the scratch directory (named by the timestamp in
    [audio_<timestamp>.mp3]), the [console.error] lines and the number of
    [Math.random()] draws made so far. *)
Record world := mkWorld {
  currentVideoId : option js_string;
  currentAudioSize : option Z;
  tempDir : list (Z * Buffer);
  console : list string;
  draws : nat
}.

Definition M (A : Type) : Type := world -> result A * world.

Definition ret {A} (a : A) : M A := fun w => (Ok a, w).
Definition throw {A} (e : js_error) : M A := fun w => (Throw e, w).
Definition bind {A B} (m : M A) (f : A -> M B) : M B :=
  fun w => match m w with
           | (Ok a, w') => f a w'
           | (Throw e, w') => (Throw e, w')
           end.
Definition try_catch {A} (body : M A) (handler : js_error -> M A) : M A :=
  fun w => match body w with
           | (Throw e, w') => handler e w'
           | ok => ok
           end.

Notation "x <- m ;; k" := (bind m (fun x => k))
  (at level 61, m at next level, right associativity).
Notation "m ;;; k" := (bind m (fun _ => k))
  (at level 61, right associativity).

Definition console_error (line : string) : M unit :=
  fun w => (Ok tt, mkWorld (currentVideoId w) (currentAudioSize w)
                           (tempDir w) (console w ++ [line]) (draws w)).

Definition set_currentVideoId (v : option js_string) : M unit :=
  fun w => (Ok tt, mkWorld v (currentAudioSize w) (tempDir w)
                           (console w) (draws w)).

Definition set_currentAudioSize (n : Z) : M unit :=
  fun w => (Ok tt, mkWorld (currentVideoId w) (Some n) (tempDir w)
                           (console w) (draws w)).

Definition set_tempDir (d : list (Z * Buffer)) (w : world) : world :=
  mkWorld (currentVideoId w) (currentAudioSize w) d (console w) (draws w).

Definition lookupFile (p : Z) (d : list (Z * Buffer)) : option Buffer :=
  option_map snd (find (fun f => Z.eqb (fst f) p) d).

Definition removeFile (p : Z) (d : list (Z * Buffer)) : list (Z * Buffer) :=
  filter (fun f => negb (Z.eqb (fst f) p)) d.

Definition ENOENT : js_error := Error (str "ENOENT: no such file or directory").

Section WithHost.

Variable h : host.

Definition fs_writeFile (p : Z) (data : Buffer) : M unit :=
  fun w => match fs_writeFile_error h with
           | Some e => (Throw e, w)
           | None => (Ok tt, set_tempDir ((p, data) :: removeFile p (tempDir w)) w)
           end.

Definition fs_readFile (p : Z) : M Buffer :=
  fun w => match fs_readFile_error h, lookupFile p (tempDir w) with
           | Some e, _ => (Throw e, w)
           | None, Some b => (Ok b, w)
           | None, None => (Throw ENOENT, w)
           end.

Definition fs_unlink (p : Z) : M unit :=
  fun w => match fs_unlink_error h, lookupFile p (tempDir w) with
           | Some e, _ => (Throw e, w)
           | None, None => (Throw ENOENT, w)
           | None, Some _ => (Ok tt, set_tempDir (removeFile p (tempDir w)) w)
           end.

(** [fs.readdir(this.tempDir)]: the names of the scratch files. *)
Definition fs_readdir : M (list Z) :=
  fun w => match fs_readdir_error h with
           | Some e => (Throw e, w)
           | None => (Ok (map fst (tempDir w)), w)
           end.

(** *** [generateRealisticPeaks] *)

(** Computations that only draw from [Math.random()] and cannot throw. *)
Definition rand (A : Type) : Type := world -> A * world.

Definition random : rand R :=
  fun w => (Math_random h (draws w),
            mkWorld (currentVideoId w) (currentAudioSize w) (tempDir w)
                    (console w) (S (draws w))).

Definition hashStep (videoIdHash c : Z) : Z :=
  toInt32 (shl videoIdHash 5 - videoIdHash + c).

Definition seedOf (w : world) : Z :=
  let audioSize := match currentAudioSize w with
                   | Some 0%Z | None => 1000000%Z
                   | Some n => n
                   end in
  let videoId := match currentVideoId w with
                 | Some (c :: s) => c :: s
                 | _ => str "default"
                 end in
  let videoIdHash := fold_left hashStep videoId 0%Z in
  Z.rem (Z.abs (videoIdHash + audioSize)) 10000.

Local Open Scope R_scope.

Definition pattern (patternType seed i : Z) (progress : R) : rand R :=
  fun w =>
  match patternType with
  | 0%Z =>
      (0.3 + 0.5 * sin (progress * PI * 6 + IZR seed * 0.001)
       + 0.2 * sin (progress * PI * 20 + IZR seed * 0.002), w)
  | 1%Z =>
      ((0.2 + 0.6 * Rabs (sin (progress * PI * 12 + IZR seed * 0.001)))
       * (1 + 0.3 * sin (progress * PI * 40 + IZR seed * 0.003)), w)
  | 2%Z =>
      let (r, w1) := random w in
      (0.1 + 0.7 * progress * sin (progress * PI * 8 + IZR seed * 0.001)
       + 0.3 * r * IZR (Z.rem seed 100) / 100, w1)
  | 3%Z =>
      let a := 0.2 + 0.5 * sin (progress * PI * 3 + IZR seed * 0.001) in
      (if (Z.rem (i + seed) 20 <? 3)%Z then a * 1.8 else a, w)
  | _ => (0.3 + 0.4 * sin (progress * PI * 4), w)
  end.

(** The body of the loop for index [i]. *)
Definition peakAt (seed numPeaks i : Z) : rand R :=
  fun w =>
  let progress := IZR i / IZR numPeaks in
  let (a0, w1) := pattern (Z.rem seed 4) seed i progress w in
  let randomFactor := IZR (Z.rem (seed + i) 1000) / 1000 in
  let a1 := a0 + (randomFactor - 0.5) * 0.3 in
  let (r, w2) := random w1 in
  let (a2, w3) :=
    if Rlt_dec r 0.05
    then let (r', w3) := random w2 in (a1 + r' * 0.4, w3)
    else (a1, w2) in
  let a3 := if Rlt_dec progress 0.05 then a2 * (progress / 0.05)
            else if Rgt_dec progress 0.95 then a2 * ((1 - progress) / 0.05)
            else a2 in
  (Rmax (-1) (Rmin 1 a3), w3).

Fixpoint forEach {A} (body : Z -> rand A) (indices : list Z) : rand (list A) :=
  fun w =>
  match indices with
  | [] => ([], w)
  | i :: rest =>
      let (a, w1) := body i w in
      let (l, w2) := forEach body rest w1 in
      (a :: l, w2)
  end.

Definition generateRealisticPeaks (numPeaks : Z) (duration : R)
  : rand (list R) :=
  fun w => forEach (peakAt (seedOf w) numPeaks) (upto numPeaks) w.

Definition generateFallbackPeaks (targetPeaks : Z) (duration : R)
  : M PeaksResult :=
  fun w =>
  let (peaks, w') := generateRealisticPeaks targetPeaks duration w in
  (Ok (mkPeaks peaks duration 44100 2 (Z.of_nat (List.length peaks)) 16), w').

(** *** [simulatePeaksExtraction] *)

Definition estimatedDuration (fileSize : Z) : R :=
  Rmax 30 (Rmin 600 (IZR fileSize / 20000)).

Definition targetPeaks (fileSize : Z) : Z :=
  Z.min 200 (Z.max 100 (Math_floor (estimatedDuration fileSize * 1))).

(** [targetPeaks] and [estimatedDuration] are [const] bindings of the
    [try] block, so the handler, which names them, leaves with a
    [ReferenceError] before [generateFallbackPeaks] is called. *)
Definition simulatePeaksExtraction (audioBuffer : Buffer) : M PeaksResult :=
  try_catch
    (let fileSize := buflen audioBuffer in
     set_currentAudioSize fileSize ;;;
     let peaks :=
       Sampler.extractRealAmplitudes audioBuffer (targetPeaks fileSize) in
     ret (mkPeaks peaks (estimatedDuration fileSize) 44100 2
                  (Z.of_nat (List.length peaks)) 16))
    (fun error =>
       console_error "Audio peaks extraction error:" ;;;
       throw (ReferenceError (str "targetPeaks is not defined"))).

Definition extractPeaksFromFile (filePath : Z) (videoId : option js_string)
  : M PeaksResult :=
  try_catch
    (audioBuffer <- fs_readFile filePath ;;
     set_currentVideoId videoId ;;;
     simulatePeaksExtraction audioBuffer)
    (fun error =>
       console_error "Peaks extraction error:" ;;;
       throw error).

(** *** [generatePeaks]

    The local [tempFilePath] is assigned inside [try] and read by
    [finally], so the [try] block returns it next to its outcome. *)
Definition generatePeaks (audioUrl : js_string) (videoId : option js_string)
  : M PeaksResult :=
  fun w =>
  let '(tempFilePath, outcome, w1) :=
    match axios_get h audioUrl with
    | Throw e => (None, Throw e, w)
    | Ok None => (None, Throw (Error (str "No audio data received")), w)
    | Ok (Some data) =>
        let tempFilePath := Date_now h in
        match fs_writeFile tempFilePath data w with
        | (Throw e, w') => (Some tempFilePath, Throw e, w')
        | (Ok _, w') =>
            let (r, w'') := extractPeaksFromFile tempFilePath videoId w' in
            (Some tempFilePath, r, w'')
        end
    end in
  (* catch (error) { console.error(...); throw error; } *)
  let w2 := match outcome with
            | Throw _ => snd (console_error "Audio processing error:" w1)
            | Ok _ => w1
            end in
  (* finally *)
  let w3 := match tempFilePath with
            | Some p =>
                snd (try_catch (fs_unlink p)
                       (fun _ => console_error "Failed to cleanup temp file:")
                       w2)
            | None => w2
            end in
  (outcome, w3).

End WithHost.

(** *** [resamplePeaks] *)

(** [peaks[index] || 0]: an index outside the array reads [undefined],
    and [undefined] and [0] both give [0]. *)
Definition elementOr0 (peaks : list R) (index : Z) : R :=
  if ((0 <=? index) && (index <? Z.of_nat (List.length peaks)))%Z
  then nth (Z.to_nat index) peaks 0%R
  else 0%R.

Definition resamplePeaks (peaks : list R) (targetLength : Z) : list R :=
  match peaks with
  | [] => []
  | _ =>
      if (Z.of_nat (List.length peaks) =? targetLength)%Z then peaks
      else
        let ratio := (IZR (Z.of_nat (List.length peaks)) / IZR targetLength)%R in
        map (fun i => elementOr0 peaks (Math_floor (IZR i * ratio)))
            (upto targetLength)
  end.

End AudioProcessor.

(* ------------------------------------------------------------------ *)
(** ** Backtracking regular expressions with one capture group *)

Module Regex.

Inductive regex : Type :=
| Empty
| Chr (c : Z)
| Class (p : Z -> bool)
| Cat (r1 r2 : regex)
| Alt (r1 r2 : regex)
| Star (r : regex)
| Group (r : regex).

Definition Plus (r : regex) : regex := Cat r (Star r).
Definition Opt (r : regex) : regex := Alt r Empty.

Fixpoint Repeat (n : nat) (r : regex) : regex :=
  match n with
  | O => Empty
  | S n' => Cat r (Repeat n' r)
  end.

Fixpoint Lit (s : js_string) : regex :=
  match s with
  | [] => Empty
  | c :: s' => Cat (Chr c) (Lit s')
  end.

(** A continuation receives the rest of the input and the capture. *)
Definition cont (A : Type) : Type := js_string -> option js_string -> option A.

(** The iterations of a star.  One more iteration is tried before the
    star stops, and an iteration that consumes nothing is refused; so
    every iteration shortens the input, and a fuel equal to the length of
    the input is never spent before the input is (lemma
    [iterate_fuel_enough]). *)
Fixpoint iterate {A} (body : cont A -> cont A) (k : cont A) (fuel : nat)
         (s : js_string) (cap : option js_string) : option A :=
  match fuel with
  | O => k s cap
  | S fuel' =>
      match body (fun s' cap' =>
                    if (List.length s' <? List.length s)%nat
                    then iterate body k fuel' s' cap' else None) s cap with
      | Some x => Some x
      | None => k s cap
      end
  end.

(** Leftmost, greedy, backtracking matching, as in ECMAScript: an
    alternative tries its branches in order and a star is greedy. *)
Fixpoint rmatch {A} (r : regex) (k : cont A) (s : js_string)
         (cap : option js_string) {struct r} : option A :=
  match r with
  | Empty => k s cap
  | Chr c =>
      match s with
      | c' :: s' => if Z.eqb c c' then k s' cap else None
      | [] => None
      end
  | Class p =>
      match s with
      | c' :: s' => if p c' then k s' cap else None
      | [] => None
      end
  | Cat r1 r2 => rmatch r1 (fun s' cap' => rmatch r2 k s' cap') s cap
  | Alt r1 r2 =>
      match rmatch r1 k s cap with
      | Some x => Some x
      | None => rmatch r2 k s cap
      end
  | Star r' => iterate (fun k' => rmatch r' k') k (List.length s) s cap
  | Group r' =>
      rmatch r'
        (fun s' cap' =>
           k s' (Some (firstn (List.length s - List.length s') s))) s cap
  end.

(** [String.prototype.match] with a non-global pattern: the first start
    position with a match wins; the result is that match's group 1. *)
Fixpoint search (r : regex) (s : js_string) : option (option js_string) :=
  match rmatch r (fun _ cap => Some cap) s None with
  | Some cap => Some cap
  | None =>
      match s with
      | [] => None
      | _ :: s' => search r s'
      end
  end.

End Regex.

(* ------------------------------------------------------------------ *)
(** ** The YouTube service *)

Module YouTubeService.

Import Regex.
Local Open Scope Z_scope.

(** *** [extractVideoId] *)

Definition code (s : string) : Z := hd 0 (str s).

Definition isLineTerminator (c : Z) : bool :=
  (c =? 10) || (c =? 13) || (c =? 8232) || (c =? 8233).

(** [\s] *)
Definition isWhiteSpace (c : Z) : bool :=
  ((9 <=? c) && (c <=? 13)) || (c =? 32) || (c =? 160) || (c =? 5760)
  || ((8192 <=? c) && (c <=? 8202)) || (c =? 8232) || (c =? 8233)
  || (c =? 8239) || (c =? 8287) || (c =? 12288) || (c =? 65279).

(** [.] *)
Definition dot : regex := Class (fun c => negb (isLineTerminator c)).
(** [[^\/]] *)
Definition notSlash : regex := Class (fun c => negb (c =? code "/")).
(** [[?&]] *)
Definition queryMark : regex :=
  Class (fun c => (c =? code "?") || (c =? code "&")).
(** The class of the captured group: any character but a double quote,
    [&], [?], [/] and white space. *)
Definition idChar : regex :=
  Class (fun c => negb ((c =? 34) || (c =? code "&") || (c =? code "?")
                        || (c =? code "/") || isWhiteSpace c)).

(** The pattern of [extractVideoId]:
    [(?:youtube\.com\/(?:[^\/]+\/.+\/|(?:v|e(?:mbed)?)\/|.*[?&]v=)|youtu\.be\/)]
    followed by the group, eleven characters of the class above. *)
Definition videoIdPrefix : regex :=
  Alt
    (Cat (Lit (str "youtube.com/"))
         (Alt (Cat (Plus notSlash)
                   (Cat (Chr (code "/")) (Cat (Plus dot) (Chr (code "/")))))
              (Alt (Cat (Alt (Chr (code "v"))
                             (Cat (Chr (code "e")) (Opt (Lit (str "mbed")))))
                        (Chr (code "/")))
                   (Cat (Star dot) (Cat queryMark (Lit (str "v=")))))))
    (Lit (str "youtu.be/")).

Definition videoIdRegex : regex :=
  Cat videoIdPrefix (Group (Repeat 11 idChar)).

Inductive maybe_string : Type :=
| Null
| Undefined
| Str (s : js_string).

(** [return match ? match[1] : null].  The argument is a string, so
    [url.match] does not throw and the handler is not entered. *)
Definition extractVideoId (url : js_string) : maybe_string :=
  match search videoIdRegex url with
  | Some (Some id) => Str id
  | Some None => Undefined
  | None => Null
  end.

(** *** [waitForConversion] *)

Inductive head_reply : Type :=
| HeadThrows (e : js_error)
| HeadStatus (status : Z).

(** What the remote end does with one [HEAD] request: the reply and the
    time it takes to arrive. *)
Record probe := mkProbe { latency : Z; reply : head_reply }.

Definition ECONNABORTED : js_error := Error (str "timeout of 10000ms exceeded").

(** [axios.head(url, { timeout })]: the promise settles when the reply
    arrives or, at the latest, when the timeout aborts the request.  It
    fulfils for the statuses 200..299 only. *)
Definition axios_head (timeout : Z) (p : probe) : Z * head_reply :=
  if timeout <=? latency p then (timeout, HeadThrows ECONNABORTED)
  else
    match reply p with
    | HeadStatus s =>
        if (200 <=? s) && (s <? 300) then (latency p, HeadStatus s)
        else (latency p,
              HeadThrows (Error (str "Request failed with status code")))
    | r => (latency p, r)
    end.

Record poll_run := mkRun {
  outcome : result js_string;
  waits : list Z;     (* the setTimeout delays, in order *)
  elapsed : Z;        (* virtual time at which the promise settles *)
  probes : Z          (* HEAD requests issued *)
}.

Definition exhausted : js_error :=
  Error (str "Conversion timeout: Video took too long to process").

(** The progressive schedule, [min(5000 ms, 1000 ms * attempt)]. *)
Definition scheduledWait (attempt : Z) : Z := Z.min 5000 (1000 * attempt).

Section Polling.

(** The remote end, by attempt number. *)
Variable net : Z -> probe.
Variable downloadUrl : js_string.
Variable maxAttempts : Z.

(** The loop [for (attempt = 1; attempt <= maxAttempts; attempt++)],
    with [remaining] iterations to go. *)
Fixpoint poll (remaining : nat) (attempt clock : Z) (ws : list Z) : poll_run :=
  match remaining with
  | O => mkRun (Throw exhausted) ws clock (attempt - 1)
  | S remaining' =>
      let (dt, r) := axios_head 10000 (net attempt) in
      match r with
      | HeadStatus status =>
          if status =? 200 then mkRun (Ok downloadUrl) ws (clock + dt) attempt
          else poll remaining' (attempt + 1) (clock + dt) ws
      | HeadThrows _ =>
          if attempt <? maxAttempts then
            let waitTime := Z.min 5000 (1000 * attempt) in
            poll remaining' (attempt + 1) (clock + dt + waitTime)
                 (ws ++ [waitTime])
          else poll remaining' (attempt + 1) (clock + dt) ws
      end
  end.

Definition waitForConversion : poll_run :=
  poll (Z.to_nat maxAttempts) 1 0 [].

End Polling.

(** The waits the progressive schedule prescribes after the attempts
    [a, a+1, ..., b], and the sum of a list of waits. *)
Definition waitSchedule (a b : Z) : list Z := map scheduledWait (range a b).

Definition Zsum (l : list Z) : Z := fold_right Z.add 0 l.

(** *** [monitorConversionProgress] *)

(** The fields of an event that the handler reads. *)
Record sse_data := mkData {
  status : option js_string;
  downloadUrl : option js_string;
  message : option js_string
}.

(** The value of [JSON.parse(event.data)]. *)
Inductive json : Type :=
| JSONnull
| JSONprimitive
| JSONobject (d : sse_data).

Inductive frame : Type :=
| Malformed
| WellFormed (data : json).

Inductive sse_event : Type :=
| OnMessage (f : frame)
| OnError.

Inductive settlement : Type :=
| Resolved (url : js_string)
| Rejected (e : js_error).

Record monitor := mkMonitor {
  settled : option (Z * settlement);   (* when, and how *)
  closed : bool;                       (* eventSource.close() was called *)
  timer : bool;                        (* the timeout is still pending *)
  console : list string;               (* console.error lines *)
  observed : list json                 (* arguments of progressCallback *)
}.

Definition sseTimeoutMs : Z := 300000.

Definition start : monitor := mkMonitor None false true [] [].

(** [resolve] and [reject] act on a pending promise only. *)
Definition settle (now : Z) (s : settlement) (m : monitor) : monitor :=
  mkMonitor (match settled m with
             | None => Some (now, s)
             | Some x => Some x
             end) (closed m) (timer m) (console m) (observed m).

Definition clearTimeout (m : monitor) : monitor :=
  mkMonitor (settled m) (closed m) false (console m) (observed m).

Definition close (m : monitor) : monitor :=
  mkMonitor (settled m) true (timer m) (console m) (observed m).

Definition console_error (line : string) (m : monitor) : monitor :=
  mkMonitor (settled m) (closed m) (timer m) (console m ++ [line]) (observed m).

Definition observe (data : json) (m : monitor) : monitor :=
  mkMonitor (settled m) (closed m) (timer m) (console m) (observed m ++ [data]).

(** [data.status === tag] *)
Definition statusIs (d : sse_data) (tag : string) : bool :=
  match status d with
  | Some s => js_string_eqb s (str tag)
  | None => false
  end.

(** The string held by a field that is present. *)
Definition valueOf (field : option js_string) : js_string :=
  match field with
  | Some v => v
  | None => []
  end.

Section Monitor.

(** [progressCallback]: absent, or a function that returns ([true]) or
    throws ([false]) on the data it is given. *)
Variable progressCallback : option (json -> bool).

Definition onmessage (now : Z) (f : frame) (m : monitor) : monitor :=
  match f with
  | Malformed => console_error "Error parsing SSE data:" m
  | WellFormed data =>
      let called :=
        match progressCallback with
        | Some cb => Some (cb data)
        | None => None
        end in
      let m1 := match called with Some _ => observe data m | None => m end in
      match called with
      | Some false => console_error "Error parsing SSE data:" m1
      | _ =>
          match data with
          | JSONnull => console_error "Error parsing SSE data:" m1
          | JSONprimitive => m1
          | JSONobject d =>
              if statusIs d "completed" && truthy (downloadUrl d)
              then
                settle now (Resolved (valueOf (downloadUrl d)))
                       (close (clearTimeout m1))
              else if statusIs d "error" || statusIs d "failed"
              then
                settle now
                       (Rejected
                          (Error (if truthy (message d)
                                  then valueOf (message d)
                                  else str "Conversion failed")))
                       (close (clearTimeout m1))
              else m1
          end
      end
  end.

Definition onerror (now : Z) (m : monitor) : monitor :=
  settle now (Rejected (Error (str "SSE connection failed")))
         (close (clearTimeout (console_error "SSE Error:" m))).

Definition ontimeout (m : monitor) : monitor :=
  settle sseTimeoutMs
         (Rejected (Error (str "Conversion timeout: Process took too long")))
         (close (mkMonitor (settled m) (closed m) false (console m) (observed m))).

(** The timer fires once the clock reaches its delay, if it has not
    been cleared. *)
Definition tick (now : Z) (m : monitor) : monitor :=
  if timer m && (sseTimeoutMs <=? now) then ontimeout m else m.

(** The event loop: events arrive with their time; a closed event
    source delivers nothing. *)
Fixpoint deliver (events : list (Z * sse_event)) (m : monitor) : monitor :=
  match events with
  | [] => m
  | (now, ev) :: rest =>
      let m1 := tick now m in
      let m2 := if closed m1 then m1
                else match ev with
                     | OnMessage f => onmessage now f m1
                     | OnError => onerror now m1
                     end in
      deliver rest m2
  end.

(** The promise returned for a given stream of events; when the stream
    goes quiet the timer is what remains. *)
Definition monitorConversionProgress (events : list (Z * sse_event))
  : monitor :=
  let m := deliver events start in
  if timer m then ontimeout m else m.

End Monitor.

End YouTubeService.

(* ------------------------------------------------------------------ *)
(** ** Vocabulary of the statements *)

(** [clamp(x, lo, hi)] as the design document writes it. *)
Definition clampR (x lo hi : R) : R :=
  if Rlt_dec x lo then lo else if Rlt_dec hi x then hi else x.

Definition clampZ (x lo hi : Z) : Z :=
  if (x <? lo)%Z then lo else if (hi <? x)%Z then hi else x.

Definition unit_interval (v : R) : Prop := (0 <= v <= 1)%R.

(** What a run of the audio processor added to the [console.error]
    lines. *)
Definition logged (w w' : AudioProcessor.world) (lines : list string) : Prop :=
  AudioProcessor.console w' = AudioProcessor.console w ++ lines.

(** The two states a monitor can be in: still waiting, with its timer
    armed and its event source open, or settled for good. *)
Definition pending (m : YouTubeService.monitor) : Prop :=
  YouTubeService.settled m = None /\
  YouTubeService.closed m = false /\
  YouTubeService.timer m = true.

Definition finished (m : YouTubeService.monitor) : Prop :=
  YouTubeService.closed m = true /\
  YouTubeService.timer m = false /\
  exists t s, YouTubeService.settled m = Some (t, s) /\
              (t <= YouTubeService.sseTimeoutMs)%Z.

(** The part of a monitor that decides what it does next. *)
Definition control (m : YouTubeService.monitor)
  : option (Z * YouTubeService.settlement) * bool * bool :=
  (YouTubeService.settled m, YouTubeService.closed m, YouTubeService.timer m).



(** The pieces of one step of the procedural generator when the seed
    selects the sharp-peaks family: the closed-form shape, the seeded
    jitter, the fades and the final clamp. *)
Definition sharpPeaks (seed : Z) (progress : R) : R :=
  ((0.2 + 0.6 * Rabs (sin (progress * PI * 12 + IZR seed * 0.001)))
   * (1 + 0.3 * sin (progress * PI * 40 + IZR seed * 0.003)))%R.

Definition jitter (seed i : Z) : R :=
  ((IZR (Z.rem (seed + i) 1000) / 1000 - 0.5) * 0.3)%R.

Definition fade (progress a : R) : R :=
  if Rlt_dec progress 0.05 then (a * (progress / 0.05))%R
  else if Rgt_dec progress 0.95 then (a * ((1 - progress) / 0.05))%R
  else a.

Definition clampPeak (a : R) : R := Rmax (-1) (Rmin 1 a).

(** The world after [k] more draws of [Math.random()]. *)
Definition advance (k : nat) (w : AudioProcessor.world) : AudioProcessor.world :=
  AudioProcessor.mkWorld (AudioProcessor.currentVideoId w)
    (AudioProcessor.currentAudioSize w) (AudioProcessor.tempDir w)
    (AudioProcessor.console w) (k + AudioProcessor.draws w).

(** Two worlds that give [generateRealisticPeaks] the same inputs: the
    same video identifier and the same buffer length. *)
Definition sameInputs (w1 w2 : AudioProcessor.world) : Prop :=
  AudioProcessor.currentVideoId w1 = AudioProcessor.currentVideoId w2 /\
  AudioProcessor.currentAudioSize w1 = AudioProcessor.currentAudioSize w2.

(** ** Scenarios *)

Module Scenario.

Import YouTubeService.

Definition assetUrl : js_string := str "https://cdn.example/audio/dQw4w9WgXcQ.mp3".

(** A location that answers 204 to the first probe and 200 to the second. *)
Definition noContentThenReady (attempt : Z) : probe :=
  if (attempt =? 1)%Z then mkProbe 40 (HeadStatus 204)
  else mkProbe 40 (HeadStatus 200).

(** A location that answers 404 twice, then 200, without delay. *)
Definition readyAtThird (attempt : Z) : probe :=
  if (attempt <? 3)%Z then mkProbe 0 (HeadStatus 404)
  else mkProbe 0 (HeadStatus 200).

(** A location that never answers within the 10 s of a probe. *)
Definition silent (attempt : Z) : probe := mkProbe 60000 (HeadStatus 200).

(** A stream: one malformed frame, one progress report, then silence. *)
Definition progressData : sse_data :=
  mkData (Some (str "processing")) None None.

Definition completedData : sse_data :=
  mkData (Some (str "completed")) (Some assetUrl) None.



Definition earlyEvents : list (Z * sse_event) :=
  [(1200%Z, OnMessage Malformed);
   (2500%Z, OnMessage (WellFormed (JSONobject progressData)))].

Definition lateEvents : list (Z * sse_event) :=
  [(9000%Z, OnMessage (WellFormed (JSONobject progressData)));
   (9500%Z, OnError)].



(** The audio processor before any request, and two hosts: one whose
    download fails, one that serves three bytes. *)
Definition idle : AudioProcessor.world :=
  AudioProcessor.mkWorld None None [] [] 0.

Definition missingUrl : js_string := str "https://bad.invalid/missing.mp3".

Definition ENOTFOUND : js_error := Error (str "getaddrinfo ENOTFOUND bad.invalid").

Definition unreachable : AudioProcessor.host :=
  AudioProcessor.mkHost (fun _ => Throw ENOTFOUND) 1700000000000
                        None None None None (fun _ => (1 / 2)%R).

Definition serving : AudioProcessor.host :=
  AudioProcessor.mkHost (fun _ => Ok (Some [x80; xff; x00])) 1700000000000
                        None None None None (fun _ => (1 / 2)%R).

Definition EIO : js_error := Error (str "EIO: i/o error, read").

(** A host that serves the same bytes and cannot read its scratch file
    back. *)
Definition unreadable : AudioProcessor.host :=
  AudioProcessor.mkHost (fun _ => Ok (Some [x80; xff; x00])) 1700000000000
                        None (Some EIO) None None (fun _ => (1 / 2)%R).

(** A host whose [Math.random()] returns 0.5 twice and 0.01 ever after. *)
Definition twoThenLow : AudioProcessor.host :=
  AudioProcessor.mkHost (fun _ => Throw ENOTFOUND) 1700000000000
    None None None None
    (fun k => if (k <? 2)%nat then (1 / 2)%R else (1 / 100)%R).

End Scenario.

(* ------------------------------------------------------------------ *)
(** ** The rest of the audio processor *)

Module PeakArrays.

(** [Math.max(...peaks.map(Math.abs))] on a non-empty array. *)
Definition maxAbs (peaks : list R) : R :=
  match peaks with
  | [] => 0%R
  | p :: rest => fold_left Rmax (map Rabs rest) (Rabs p)
  end.

Definition RangeError : js_error :=
  mkError "RangeError" (str "Maximum call stack size exceeded").

Section WithEngine.

(** The number of arguments that the engine lets a call spread: a longer
    array makes [Math.max(...array)] throw a [RangeError]. *)
Variable maxArguments : nat.

(** [normalizePeaks]: the empty array for an empty array, the array
    itself when its largest magnitude is [0], else every peak divided by
    that magnitude. *)
Definition normalizePeaks (peaks : list R) : result (list R) :=
  match peaks with
  | [] => Ok []
  | _ =>
      if (maxArguments <? List.length peaks)%nat then Throw RangeError
      else
        let max := maxAbs peaks in
        if Req_dec_T max 0 then Ok peaks
        else Ok (map (fun peak => (peak / max)%R) peaks)
  end.

End WithEngine.

Section WithHost.

Import AudioProcessor.

Variable h : host.

(** [fs.unlink(...).catch(() => {})]: a failed unlink is swallowed by its
    own [catch]. *)
Definition unlinkQuietly (p : Z) (w : world) : world :=
  snd (try_catch (fs_unlink h p) (fun _ => ret tt) w).

(** [cleanup]: the scratch directory is listed and every file of it is
    unlinked; a failure of the listing is logged by the handler. *)
Definition cleanup : M unit :=
  try_catch
    (files <- fs_readdir h ;;
     fun w => (Ok tt, fold_left (fun w' p => unlinkQuietly p w') files w))
    (fun error => console_error "Cleanup error:").

End WithHost.

End PeakArrays.

(* ------------------------------------------------------------------ *)
(** ** The language of a pattern *)

Module Language.

Import Regex.

(** The strings a pattern denotes, with the rule of ECMAScript that an
    iteration of a star consumes at least one character. *)
Inductive lang : regex -> js_string -> Prop :=
| L_Empty : lang Empty []
| L_Chr (c : Z) : lang (Chr c) [c]
| L_Class (p : Z -> bool) (c : Z) : p c = true -> lang (Class p) [c]
| L_Cat (r1 r2 : regex) (s1 s2 : js_string) :
    lang r1 s1 -> lang r2 s2 -> lang (Cat r1 r2) (s1 ++ s2)
| L_AltL (r1 r2 : regex) (s : js_string) : lang r1 s -> lang (Alt r1 r2) s
| L_AltR (r1 r2 : regex) (s : js_string) : lang r2 s -> lang (Alt r1 r2) s
| L_StarNil (r : regex) : lang (Star r) []
| L_StarCons (r : regex) (s1 s2 : js_string) :
    lang r s1 -> s1 <> [] -> lang (Star r) s2 -> lang (Star r) (s1 ++ s2)
| L_Group (r : regex) (s : js_string) : lang r s -> lang (Group r) s.

End Language.

(* ------------------------------------------------------------------ *)
(** ** [isValidYouTubeUrl] *)

Module Validation.

Import Regex.
Local Open Scope Z_scope.

(** [\w] *)
Definition isWordChar (c : Z) : bool :=
  ((65 <=? c) && (c <=? 90)) || ((97 <=? c) && (c <=? 122))
  || ((48 <=? c) && (c <=? 57)) || (c =? 95).

(** [[\w-]] *)
Definition wordOrDash : regex := Class (fun c => isWordChar c || (c =? 45)).

(** [(https?:\/\/)?] *)
Definition scheme : regex :=
  Opt (Cat (Lit (str "http")) (Cat (Opt (Chr (YouTubeService.code "s")))
                                  (Lit (str "://")))).

(** [(www\.)?] *)
Definition www : regex := Opt (Lit (str "www.")).

(** [(youtube\.com\/(watch\?v=|embed\/|v\/)|youtu\.be\/)] *)
Definition hostAndPath : regex :=
  Alt (Cat (Lit (str "youtube.com/"))
           (Alt (Lit (str "watch?v="))
                (Alt (Lit (str "embed/")) (Lit (str "v/")))))
      (Lit (str "youtu.be/")).

(** The optional tail: an ampersand and then any characters of a line. *)
Definition trailer : regex :=
  Opt (Cat (Chr (YouTubeService.code "&")) (Star YouTubeService.dot)).

(** The pattern between [^] and [$].  Its groups are written without
    [Group]: [test] does not read captures. *)
Definition validUrlRegex : regex :=
  Cat scheme (Cat www (Cat hostAndPath (Cat (Repeat 11 wordOrDash) trailer))).

(** [regex.test(s)] for a pattern anchored by [^] and [$]: a match must
    start at the first character and end after the last. *)
Definition testAnchored (r : regex) (s : js_string) : bool :=
  match rmatch r (fun rest _ => match rest with
                                | [] => Some tt
                                | _ :: _ => None
                                end) s None with
  | Some _ => true
  | None => false
  end.

Definition isValidYouTubeUrl (url : js_string) : bool :=
  testAnchored validUrlRegex url.

End Validation.

(* ------------------------------------------------------------------ *)
(** ** Starting a conversion: [mapQualityToAPI], [mapQuality],
       [parseNewAPIResponse], [startConversion] *)

From Stdlib Require Import DecimalString.

Module Conversion.

Import Regex.
Local Open Scope Z_scope.

(** The string of an integer, as a template literal or [+] prints it. *)
Definition decimal (n : Z) : js_string :=
  str (NilZero.string_of_int (Z.to_int n)).

(** [s.includes(sub)] *)
Fixpoint startsWith (s sub : js_string) : bool :=
  match sub, s with
  | [], _ => true
  | c :: sub', d :: s' => (c =? d) && startsWith s' sub'
  | _ :: _, [] => false
  end.

Fixpoint includes (s sub : js_string) : bool :=
  startsWith s sub
  || match s with
     | [] => false
     | _ :: s' => includes s' sub
     end.

(** The value of [qualityMap[quality]]: one of the three strings of the
    literal, a member that every object inherits from [Object.prototype]
    (a function, or the prototype itself: truthy, not a string), or
    [undefined]. *)
Inductive property : Type :=
| Text (s : js_string)
| Inherited
| Missing.

Definition objectPrototypeKeys : list js_string :=
  map str ["constructor"; "__defineGetter__"; "__defineSetter__";
           "hasOwnProperty"; "__lookupGetter__"; "__lookupSetter__";
           "isPrototypeOf"; "propertyIsEnumerable"; "toString"; "valueOf";
           "__proto__"; "toLocaleString"]%string.

Definition getProperty (own : list (js_string * js_string)) (key : js_string)
  : property :=
  match find (fun kv => js_string_eqb (fst kv) key) own with
  | Some kv => Text (snd kv)
  | None =>
      if existsb (js_string_eqb key) objectPrototypeKeys then Inherited
      else Missing
  end.

(** [value || fallback] for a property whose own values are non-empty. *)
Definition orElse (v : property) (fallback : js_string) : property :=
  match v with
  | Missing => Text fallback
  | _ => v
  end.

Definition mapQualityToAPI (quality : js_string) : property :=
  orElse (getProperty [(str "low", str "128kbps");
                       (str "medium", str "192kbps");
                       (str "high", str "320kbps")] quality)
         (str "192kbps").

Definition mapQuality (quality : js_string) : property :=
  orElse (getProperty [(str "low", str "128");
                       (str "medium", str "192");
                       (str "high", str "320")] quality)
         (str "192").

(** The fields of the upstream reply that decide the job. *)
Record api_data := mkApi {
  error : option js_string;
  linkDownloadProgress : option js_string;
  videoId : option js_string;
  title : option js_string;
  linkDownload : option js_string;
  linkStream : option js_string
}.

(** The job, without its [duration], [metadata] and [startedAt] fields. *)
Record job := mkJob {
  id : js_string;
  jobVideoId : js_string;
  token : js_string;
  jobTitle : js_string;
  quality : js_string;
  format : js_string;
  status : js_string;
  downloadUrl : option js_string;
  streamUrl : option js_string;
  sseUrl : option js_string
}.

(** [/token=([^&]+)/] *)
Definition tokenRegex : regex :=
  Cat (Lit (str "token="))
      (Group (Plus (Class (fun c => negb (c =? YouTubeService.code "&"))))).

(** [value || fallback] on strings. *)
Definition orText (v : option js_string) (fallback : js_string) : js_string :=
  if truthy v then YouTubeService.valueOf v else fallback.

Definition parseNewAPIResponse (now : Z) (responseData : api_data)
           (videoId : js_string) (quality : js_string) : result job :=
  if truthy (error responseData) then
    (* thrown in the [try] block, wrapped by the handler *)
    Throw (Error (str "Failed to parse API response: "
                  ++ YouTubeService.valueOf (error responseData)))
  else
    let progressLink := linkDownloadProgress responseData in
    let tokenMatch :=
      if truthy progressLink
      then search tokenRegex (YouTubeService.valueOf progressLink)
      else None in
    let token :=
      match tokenMatch with
      | Some (Some t) => t
      | Some None => []     (* not reached: the group takes part in every match *)
      | None => videoId ++ str "_" ++ decimal now
      end in
    Ok (mkJob token
              (orText (Conversion.videoId responseData) videoId)
              token
              (orText (title responseData) (str "Unknown Title"))
              quality
              (str "mp3")
              (str "ready")
              (linkDownload responseData)
              (linkStream responseData)
              (linkDownloadProgress responseData)).

(** What [axios.post] does: it fulfils with [response.data], or rejects
    with an error that carries the response of the server (its status
    and the [message] of its body, if any), or rejects without a
    response (a time-out has [code] [ECONNABORTED]). *)
Inductive post_reply : Type :=
| Fulfilled (data : option api_data)
| HttpError (statusCode : Z) (bodyMessage : option js_string) (message : js_string)
| NoResponse (code : option js_string) (message : js_string).

Record service := mkService {
  rapidApiKey : option js_string;
  post : js_string -> property -> post_reply;
  Date_now : Z
}.

(** The handler of [startConversion] for an error with a response. *)
Definition httpErrorMessage (statusCode : Z) (bodyMessage : option js_string)
           (message : js_string) : js_string :=
  if statusCode =? 429 then str "Rate limit exceeded. Please try again later."
  else if statusCode =? 403 then str "API access forbidden. Check your RapidAPI key."
  else if statusCode =? 404 then str "Video not found or unavailable."
  else if 500 <=? statusCode then str "YouTube service temporarily unavailable."
  else str "YouTube API error (" ++ decimal statusCode ++ str "): "
       ++ orText bodyMessage message.

Definition startConversion (svc : service) (youtubeUrl : js_string)
           (quality : js_string) : result job :=
  if negb (truthy (rapidApiKey svc)) then
    Throw (Error (str "RapidAPI key not configured"))
  else
    match YouTubeService.extractVideoId youtubeUrl with
    | YouTubeService.Str (c :: rest) =>
        let videoId := c :: rest in
        let apiQuality := mapQualityToAPI quality in
        match post svc videoId apiQuality with
        | Fulfilled None => Throw (Error (str "No response data from YouTube API"))
        | Fulfilled (Some data) =>
            parseNewAPIResponse (Date_now svc) data videoId quality
        | HttpError statusCode bodyMessage message =>
            Throw (Error (httpErrorMessage statusCode bodyMessage message))
        | NoResponse code message =>
            if match code with
               | Some c => js_string_eqb c (str "ECONNABORTED")
               | None => false
               end
            then Throw (Error (str "Request timeout. The video might be too long to process."))
            else Throw (Error message)
        end
    | _ => Throw (Error (str "Invalid YouTube URL"))
    end.

End Conversion.

(* ------------------------------------------------------------------ *)
(** ** [downloadAudio] and [parseDownloadResponse] *)

Module Download.

Local Open Scope Z_scope.

(** [encodeURIComponent] throws a [URIError] on a string with a surrogate
    that has no partner. *)
Definition isHighSurrogate (c : Z) : bool := (55296 <=? c) && (c <=? 56319).
Definition isLowSurrogate (c : Z) : bool := (56320 <=? c) && (c <=? 57343).

Fixpoint isWellFormed (s : js_string) : bool :=
  match s with
  | [] => true
  | c :: rest =>
      if isHighSurrogate c then
        match rest with
        | d :: rest' => isLowSurrogate d && isWellFormed rest'
        | [] => false
        end
      else negb (isLowSurrogate c) && isWellFormed rest
  end.

Definition URIError : js_error := mkError "URIError" (str "URI malformed").

(** The fields of the reply of the legacy endpoint that decide the
    outcome. *)
Record api_data := mkApi {
  error : option js_string;
  id : option js_string;
  downloadUrl : option js_string;
  status : option js_string;
  title : option js_string
}.

(** The result of [parseDownloadResponse], without the fields that are
    copied and not read ([duration], [fileSize], [format], [quality],
    [startAt], [endAt]). *)
Record download_data := mkData {
  dataId : option js_string;
  dataDownloadUrl : option js_string;
  dataStatus : option js_string;
  dataTitle : js_string
}.

(** The argument is an object here, so nothing in the [try] throws. *)
Definition parseDownloadResponse (responseData : api_data) : download_data :=
  mkData (id responseData) (downloadUrl responseData) (status responseData)
         (Conversion.orText (title responseData) (str "Unknown Title")).

Inductive post_reply : Type :=
| Fulfilled (data : option api_data)
| HttpError (statusCode : Z) (bodyMessage : option js_string) (message : js_string)
| NoResponse (code : option js_string) (message : js_string).

(** The service and the network: the reply to the [POST] for a URL, and
    the replies to the [HEAD] requests for a download location, by
    attempt. *)
Record service := mkService {
  rapidApiKey : option js_string;
  post : js_string -> post_reply;
  head : js_string -> Z -> YouTubeService.probe
}.

(** The object that [downloadAudio] returns, without [duration] and
    [fileSize]. *)
Record download := mkDownload {
  videoId : js_string;
  finalDownloadUrl : js_string;
  downloadTitle : js_string;
  quality : js_string;
  conversionId : option js_string
}.

Definition downloadAudio (svc : service) (youtubeUrl : js_string)
           (quality : js_string) : result download :=
  if negb (truthy (rapidApiKey svc)) then
    Throw (Error (str "RapidAPI key not configured"))
  else
    match YouTubeService.extractVideoId youtubeUrl with
    | YouTubeService.Str (c :: rest) =>
        let videoId := c :: rest in
        if negb (isWellFormed youtubeUrl) then Throw URIError
        else
          match post svc youtubeUrl with
          | Fulfilled None =>
              Throw (Error (str "No response data from YouTube API"))
          | Fulfilled (Some data) =>
              if truthy (error data) then
                Throw (Error (str "YouTube API error: "
                              ++ YouTubeService.valueOf (error data)))
              else
                let downloadData := parseDownloadResponse data in
                if negb (truthy (dataDownloadUrl downloadData)) then
                  Throw (Error (str "No download URL received from YouTube API"))
                else
                  let url := YouTubeService.valueOf (dataDownloadUrl downloadData) in
                  let finish final :=
                    Ok (mkDownload videoId final (dataTitle downloadData)
                                   quality (dataId downloadData)) in
                  if match dataStatus downloadData with
                     | Some st => js_string_eqb st (str "CONVERTING")
                     | None => false
                     end
                  then
                    match YouTubeService.outcome
                            (YouTubeService.waitForConversion (head svc url) url 30)
                    with
                    | Ok final => finish final
                    | Throw e => Throw e   (* no [response], no [code]: thrown on *)
                    end
                  else finish url
          | HttpError statusCode bodyMessage message =>
              Throw (Error (Conversion.httpErrorMessage statusCode bodyMessage
                                                        message))
          | NoResponse code message =>
              if match code with
                 | Some c => js_string_eqb c (str "ECONNABORTED")
                 | None => false
                 end
              then Throw (Error (str "Request timeout. The video might be too long to process."))
              else Throw (Error message)
          end
    | _ => Throw (Error (str "Invalid YouTube URL"))
    end.

End Download.

(* ------------------------------------------------------------------ *)
(** ** The route [POST /process] and [calculateRemainingTime] *)

Module Routes.

Local Open Scope Z_scope.

Record request := mkRequest {
  youtubeUrl : option js_string;
  quality : option js_string      (* absent: [medium] *)
}.

(** A row of [audio_cache], as far as the reply reads it. *)
Record cached := mkCached { audio_url : js_string }.

Inductive reply : Type :=
| Completed (cachedHit : bool) (videoId quality audioUrl : js_string)
| Refused (statusCode : Z) (error : string).

(** The [catch] block of the route. *)
Definition errorReply (message : js_string) : reply :=
  if Conversion.includes message (str "rate limit")
  then Refused 429 "Rate limit exceeded"
  else if Conversion.includes message (str "not found")
          || Conversion.includes message (str "unavailable")
  then Refused 404 "Video not found"
  else if Conversion.includes message (str "private")
          || Conversion.includes message (str "restricted")
  then Refused 403 "Video access restricted"
  else Refused 500 "Processing failed".

Section Process.

Variable svc : Conversion.service.

(** [supabase ... .single()]: the row, when there is no error and one row. *)
Variable cacheLookup : js_string -> js_string -> option cached.

Definition process (req : request) : reply :=
  let quality := match quality req with
                 | Some q => q
                 | None => str "medium"
                 end in
  if negb (truthy (youtubeUrl req)) then Refused 400 "Missing required parameter"
  else
    let youtubeUrl := YouTubeService.valueOf (youtubeUrl req) in
    match YouTubeService.extractVideoId youtubeUrl with
    | YouTubeService.Str (c :: rest) =>
        let videoId := c :: rest in
        match cacheLookup videoId quality with
        | Some row => Completed true videoId quality (audio_url row)
        | None =>
            match Conversion.startConversion svc youtubeUrl quality with
            | Ok conversionJob =>
                if truthy (Conversion.downloadUrl conversionJob)
                then Completed false videoId quality
                       (YouTubeService.valueOf (Conversion.downloadUrl conversionJob))
                else Refused 500 "Download info failed"
            | Throw e => errorReply (message e)
            end
        end
    | _ => Refused 400 "Invalid YouTube URL"
    end.

End Process.

(** [calculateRemainingTime], with [startedAt] already read as a time in
    milliseconds. *)
Definition calculateRemainingTime (now startedAt : Z) : Z :=
  let elapsed := now - startedAt in
  let averageTime := 90000 in
  let remaining := Z.max 0 (averageTime - elapsed) in
  Zceil (IZR remaining / 1000).

End Routes.

(* ------------------------------------------------------------------ *)
(** ** The timer of [utils/perf.js] *)

Module Perf.

Local Open Scope Z_scope.

Inductive value : Type :=
| Num (n : Z)
| Str (s : js_string).

(** An object literal: its keys in insertion order. *)
Definition object := list (string * value).

Definition get (key : string) (o : object) : option value :=
  option_map snd (find (fun kv => String.eqb (fst kv) key) o).

(** One key of a spread: it replaces the value of a key that is there
    and is added at the end otherwise. *)
Fixpoint assign (key : string) (v : value) (o : object) : object :=
  match o with
  | [] => [(key, v)]
  | (k, v') :: rest =>
      if String.eqb k key then (k, v) :: rest
      else (k, v') :: assign key v rest
  end.

Definition spread (o extras : object) : object :=
  fold_left (fun acc kv => assign (fst kv) (snd kv) acc) extras o.

(** The closure of [createTimer]. *)
Record timer := mkTimer {
  name : string;
  startedAtMs : Z;
  lastMarkMs : Z;
  marks : list object;
  enabled : bool;
  (* the lines of [console.log]: the name, label and two timings that
     the template interpolates *)
  console : list (string * js_string * Z * Z)
}.

(** [createTimer(name, options)] when the clock reads [nowMs]. *)
Definition createTimer (name : string) (enabled : bool) (nowMs : Z) : timer :=
  mkTimer name nowMs nowMs [] enabled [].

(** [mark(label, extras)] when the clock reads [nowMs]. *)
Definition mark (label : js_string) (extras : object) (nowMs : Z) (t : timer)
  : object * timer :=
  let deltaMs := nowMs - lastMarkMs t in
  let totalMs := nowMs - startedAtMs t in
  let entry := spread [("label", Str label); ("deltaMs", Num deltaMs);
                       ("totalMs", Num totalMs)]%string extras in
  (entry,
   mkTimer (name t) (startedAtMs t) nowMs (marks t ++ [entry]) (enabled t)
           (if enabled t
            then console t ++ [(name t, label, deltaMs, totalMs)]
            else console t)).

(** A run of calls to [mark], each with its label, extras and clock. *)
Definition call : Type := js_string * object * Z.

Definition run (calls : list call) (t : timer) : timer :=
  fold_left (fun t' c => snd (mark (fst (fst c)) (snd (fst c)) (snd c) t'))
            calls t.

Definition numberOf (key : string) (o : object) : Z :=
  match get key o with
  | Some (Num n) => n
  | _ => 0
  end.

(** The extras of a call leave the two timings alone. *)
Definition plainExtras (c : call) : Prop :=
  get "deltaMs" (snd (fst c)) = None /\ get "totalMs" (snd (fst c)) = None.

End Perf.

(* ------------------------------------------------------------------ *)
(** ** More vocabulary *)

(** A character that the group of [extractVideoId] accepts. *)
Definition idCharacter (c : Z) : Prop :=
  c <> 34%Z /\ c <> YouTubeService.code "&" /\ c <> YouTubeService.code "?"
  /\ c <> YouTubeService.code "/" /\ YouTubeService.isWhiteSpace c = false.

Definition endsWith (s : js_string) (c : Z) : Prop := exists s', s = s' ++ [c].

(** The probe of an attempt as [waitForConversion] sees it. *)
Definition probeReply (net : Z -> YouTubeService.probe) (attempt : Z)
  : YouTubeService.head_reply :=
  snd (YouTubeService.axios_head 10000 (net attempt)).

Definition probeTime (net : Z -> YouTubeService.probe) (attempt : Z) : Z :=
  fst (YouTubeService.axios_head 10000 (net attempt)).

Definition isReady (r : YouTubeService.head_reply) : bool :=
  match r with
  | YouTubeService.HeadStatus s => (s =? 200)%Z
  | YouTubeService.HeadThrows _ => false
  end.

Definition threw (r : YouTubeService.head_reply) : bool :=
  match r with
  | YouTubeService.HeadThrows _ => true
  | YouTubeService.HeadStatus _ => false
  end.

(** The attempts after which the loop waits: those whose probe threw,
    the last allowed attempt excepted. *)
Definition waitedAfter (net : Z -> YouTubeService.probe) (maxAttempts : Z)
           (attempt : Z) : bool :=
  threw (probeReply net attempt) && (attempt <? maxAttempts)%Z.

(** An event that settles a pending promise: a connection error, or a
    well-formed frame on which the observer returns and whose status is
    [completed] with a URL, [error] or [failed]. *)
Definition terminal (cb : option (YouTubeService.json -> bool))
           (ev : YouTubeService.sse_event) : bool :=
  match ev with
  | YouTubeService.OnError => true
  | YouTubeService.OnMessage YouTubeService.Malformed => false
  | YouTubeService.OnMessage (YouTubeService.WellFormed data) =>
      match cb with
      | Some f => f data
      | None => true
      end &&
      match data with
      | YouTubeService.JSONobject d =>
          (YouTubeService.statusIs d "completed"
           && truthy (YouTubeService.downloadUrl d))
          || YouTubeService.statusIs d "error"
          || YouTubeService.statusIs d "failed"
      | _ => false
      end
  end.

(** The well-formed payloads of a stream, in arrival order. *)
Fixpoint payloads (events : list (Z * YouTubeService.sse_event))
  : list YouTubeService.json :=
  match events with
  | [] => []
  | (_, YouTubeService.OnMessage (YouTubeService.WellFormed data)) :: rest =>
      data :: payloads rest
  | _ :: rest => payloads rest
  end.

(** Nothing of a stream settles the promise before the timer. *)
Definition quiet (cb : option (YouTubeService.json -> bool))
           (events : list (Z * YouTubeService.sse_event)) : Prop :=
  Forall (fun e => (fst e < YouTubeService.sseTimeoutMs)%Z ->
                   terminal cb (snd e) = false) events.

(** What one event does to a monitor that is open. *)
Definition handle (cb : option (YouTubeService.json -> bool)) (now : Z)
           (ev : YouTubeService.sse_event) (m : YouTubeService.monitor)
  : YouTubeService.monitor :=
  match ev with
  | YouTubeService.OnMessage f => YouTubeService.onmessage cb now f m
  | YouTubeService.OnError => YouTubeService.onerror now m
  end.

(** A character that the group of the token pattern accepts. *)
Definition notAmpersand (c : Z) : Prop := c <> YouTubeService.code "&".

(** A token that the pattern can take from a progress link: what follows
    a [token=], up to the next ampersand or the end. *)
Definition tokenFromLink (link tok : js_string) : Prop :=
  exists before after,
    link = before ++ str "token=" ++ tok ++ after /\
    tok <> [] /\ Forall notAmpersand tok /\
    (after = [] \/ exists rest, after = YouTubeService.code "&" :: rest).

(** A link in which no [token=] is followed by a character of a token. *)
Definition noTokenIn (link : js_string) : Prop :=
  forall before c after,
    link = before ++ str "token=" ++ c :: after -> c = YouTubeService.code "&".

(** The quality of a request, with the default of the route. *)
Definition requestedQuality (req : Routes.request) : js_string :=
  match Routes.quality req with
  | Some q => q
  | None => str "medium"
  end.

(** A position of the buffer that the sampler reads when it is asked for
    [targetPeaks] peaks: the start of a chunk plus a multiple of 20, inside
    the chunk and before the last byte. *)
Definition sampledAt (audioBuffer : Buffer) (targetPeaks j : Z) : Prop :=
  let chunkSize := Math_floor (IZR (buflen audioBuffer) / IZR targetPeaks) in
  exists i k : Z,
    (0 <= i < targetPeaks)%Z /\ (0 <= k)%Z /\
    j = (i * chunkSize + 20 * k)%Z /\
    (j < i * chunkSize + chunkSize)%Z /\ (j < buflen audioBuffer - 1)%Z.

Definition timeoutError : js_error :=
  Error (str "Conversion timeout: Process took too long").

Module Scenario2.

Import YouTubeService.

(** A [completed] event that carries no URL. *)
Definition completedWithoutUrl : sse_data :=
  mkData (Some (str "completed")) None None.

Definition stalledEvents : list (Z * sse_event) :=
  [(1000%Z, OnMessage (WellFormed (JSONobject Scenario.progressData)));
   (2000%Z, OnMessage (WellFormed (JSONobject completedWithoutUrl)));
   (400000%Z, OnMessage (WellFormed (JSONobject Scenario.completedData)))].

(** A location whose probes throw twice and then answer 200. *)
Definition throwsTwice (attempt : Z) : probe :=
  if (attempt <? 3)%Z then mkProbe 120 (HeadThrows Scenario.ENOTFOUND)
  else mkProbe 120 (HeadStatus 200).

(** A host with a working file system and a scratch file left behind. *)
Definition cluttered : AudioProcessor.world :=
  AudioProcessor.mkWorld None None [(5%Z, [x01]); (7%Z, [x02; x03])] [] 0.

(** A run of the timer: created at 100 ms, marked at 130, 190 and 250. *)
Definition threeMarks : list Perf.call :=
  [(str "start download", [], 130%Z);
   (str "downloaded", [], 190%Z);
   (str "error", [("message"%string, Perf.Str (str "boom"))], 250%Z)].

Definition watchUrl : js_string :=
  str "https://www.youtube.com/watch?v=dQw4w9WgXcQ&t=42".

(** An upstream that answers every request with [429]. *)
Definition rateLimited : Conversion.service :=
  Conversion.mkService
    (Some (str "key"))
    (fun _ _ => Conversion.HttpError 429 None
                  (str "Request failed with status code 429"))
    1700000000000.

(** An upstream that answers with the links of a finished conversion. *)
Definition converted : Conversion.service :=
  Conversion.mkService
    (Some (str "key"))
    (fun _ _ =>
       Conversion.Fulfilled
         (Some (Conversion.mkApi
                  None
                  (Some (str "https://cdn.example/progress?token=abc123&v=1"))
                  None
                  (Some (str "A title"))
                  (Some (str "https://cdn.example/audio.mp3"))
                  None)))
    1700000000000.

Definition noCache (videoId quality : js_string) : option Routes.cached := None.

(** A legacy upstream whose file is still converting and is ready at the
    third probe. *)
Definition converting : Download.service :=
  Download.mkService
    (Some (str "key"))
    (fun _ =>
       Download.Fulfilled
         (Some (Download.mkApi None (Some (str "job-1"))
                               (Some (str "https://cdn.example/a.mp3"))
                               (Some (str "CONVERTING"))
                               None)))
    (fun _ => throwsTwice).

Definition watchRequest : Routes.request :=
  Routes.mkRequest (Some watchUrl) None.

End Scenario2.

(* ================================================================== *)
(** * Properties *)

(** ** Counting loops *)

Section Ranges.

Local Open Scope Z_scope.

Lemma range_length lo hi : List.length (range lo hi) = Z.to_nat (hi - lo + 1).
Proof. unfold range. now rewrite length_map, length_seq. Qed.

Lemma range_In lo hi j : In j (range lo hi) <-> lo <= j <= hi.
Proof.
  unfold range. rewrite in_map_iff. split.
  - intros (k & <- & Hk). apply in_seq in Hk. lia.
  - intros Hj. exists (Z.to_nat (j - lo)). split; [lia|].
    apply in_seq. lia.
Qed.

Lemma upto_length n : List.length (upto n) = Z.to_nat n.
Proof. unfold upto. rewrite range_length. f_equal. lia. Qed.

Lemma upto_In n i : In i (upto n) <-> 0 <= i < n.
Proof. unfold upto. rewrite range_In. lia. Qed.

Lemma upto_succ n : 0 <= n -> upto (n + 1) = upto n ++ [n].
Proof.
  intros Hn. unfold upto, range.
  replace (Z.to_nat (n + 1 - 1 - 0 + 1)) with (S (Z.to_nat n)) by lia.
  replace (Z.to_nat (n - 1 - 0 + 1)) with (Z.to_nat n) by lia.
  rewrite seq_S, map_app. simpl. do 2 f_equal. lia.
Qed.

End Ranges.

(** ** The sampler *)

Section SamplerFacts.

Import Sampler.

Lemma sampleChunk_count_nonneg fuel b j e s c :
  (0 <= c)%Z -> (0 <= snd (sampleChunk fuel b j e s c))%Z.
Proof.
  revert j s c. induction fuel as [|fuel IH]; intros j s c Hc; simpl; [exact Hc|].
  destruct (j <? e)%Z; [|exact Hc].
  destruct (j <? buflen b - 1)%Z; apply IH; lia.
Qed.

(** The loop leaves by its own test, not by want of fuel: any larger
    fuel gives the same sums. *)
Lemma sampleChunk_fuel fuel fuel' b j e s c :
  (Z.to_nat (e - j) <= fuel)%nat -> (Z.to_nat (e - j) <= fuel')%nat ->
  sampleChunk fuel b j e s c = sampleChunk fuel' b j e s c.
Proof.
  revert fuel' j s c.
  induction fuel as [|fuel IH]; intros fuel' j s c H H'.
  - assert (Hje : (j <? e)%Z = false) by (apply Z.ltb_ge; lia).
    destruct fuel'; simpl; [reflexivity|]. now rewrite Hje.
  - destruct fuel' as [|fuel'].
    + assert (Hje : (j <? e)%Z = false) by (apply Z.ltb_ge; lia).
      simpl. now rewrite Hje.
    + simpl. destruct (j <? e)%Z eqn:Hje; [|reflexivity].
      apply Z.ltb_lt in Hje.
      destruct (j <? buflen b - 1)%Z; apply IH; lia.
Qed.

(** A chunk that ends where it starts samples nothing. *)
Lemma sampleChunk_empty fuel b j e s c :
  (e <= j)%Z -> sampleChunk fuel b j e s c = (s, c).
Proof.
  intros H. destruct fuel; simpl; [reflexivity|].
  now replace (j <? e)%Z with false by (symmetry; apply Z.ltb_ge; lia).
Qed.

Lemma chunkPeak_unit b chunkSize i : unit_interval (chunkPeak b chunkSize i).
Proof.
  unfold chunkPeak, unit_interval.
  destruct (sampleChunk _ _ _ _ _ _) as [sum count].
  set (rms := if (0 <? count)%Z then _ else _).
  assert (Hrms : (0 <= rms)%R).
  { unfold rms. destruct (0 <? count)%Z; [apply sqrt_pos|lra]. }
  split.
  - apply Rmin_glb; lra.
  - apply Rmin_l.
Qed.

Lemma fold_left_Rplus_bounds (l : list R) :
  Forall unit_interval l ->
  forall acc, (acc <= fold_left Rplus l acc <= acc + INR (List.length l))%R.
Proof.
  induction 1 as [|v l Hv _ IH]; intros acc.
  - simpl. lra.
  - cbn [fold_left]. specialize (IH (acc + v)%R).
    change (List.length (v :: l)) with (S (List.length l)).
    rewrite S_INR. unfold unit_interval in Hv. lra.
Qed.

Lemma nth_unit (l : list R) n :
  Forall unit_interval l -> unit_interval (nth n l 0%R).
Proof.
  intros Hl. destruct (Nat.lt_ge_cases n (List.length l)) as [Hn|Hn].
  - rewrite Forall_forall in Hl. apply Hl, nth_In, Hn.
  - rewrite nth_overflow by exact Hn. unfold unit_interval; lra.
Qed.

Lemma smoothAt_unit (l : list R) i :
  Forall unit_interval l ->
  (0 <= i < Z.of_nat (List.length l))%Z ->
  unit_interval (smoothAt l i).
Proof.
  intros Hl Hi. unfold smoothAt, windowSize.
  set (lo := Z.max 0 (i - 1)).
  set (hi := Z.min (Z.of_nat (List.length l) - 1) (i + 1)).
  set (window := map _ (range lo hi)).
  assert (Hw : Forall unit_interval window).
  { apply Forall_forall. intros v Hv. apply in_map_iff in Hv.
    destruct Hv as (j & <- & _). now apply nth_unit. }
  assert (Hlen : (0 < List.length window)%nat).
  { unfold window. rewrite length_map, range_length. unfold lo, hi. lia. }
  pose proof (fold_left_Rplus_bounds Hw 0%R) as [H0 H1].
  assert (Hpos : (0 < INR (List.length window))%R) by (apply lt_0_INR, Hlen).
  unfold unit_interval. split.
  - apply Rmult_le_pos; [exact H0|]. left. now apply Rinv_0_lt_compat.
  - apply Rmult_le_reg_r with (r := INR (List.length window)); [exact Hpos|].
    unfold Rdiv. rewrite Rmult_assoc, Rinv_l by lra. lra.
Qed.

Lemma smoothPeaks_length (l : list R) :
  List.length (smoothPeaks l) = List.length l.
Proof. unfold smoothPeaks. rewrite length_map, upto_length. lia. Qed.

Lemma smoothPeaks_unit (l : list R) :
  Forall unit_interval l -> Forall unit_interval (smoothPeaks l).
Proof.
  intros Hl. apply Forall_forall. intros v Hv.
  unfold smoothPeaks in Hv. apply in_map_iff in Hv.
  destruct Hv as (i & <- & Hi). apply upto_In in Hi.
  now apply smoothAt_unit.
Qed.

Lemma rawAmplitudes_length b n :
  List.length (rawAmplitudes b n) = Z.to_nat n.
Proof. unfold rawAmplitudes. now rewrite length_map, upto_length. Qed.

Lemma rawAmplitudes_unit b n : Forall unit_interval (rawAmplitudes b n).
Proof.
  apply Forall_forall. intros v Hv. unfold rawAmplitudes in Hv.
  apply in_map_iff in Hv. destruct Hv as (i & <- & _).
  apply chunkPeak_unit.
Qed.

Lemma extractRealAmplitudes_length b n :
  (0 <= n)%Z -> Z.of_nat (List.length (extractRealAmplitudes b n)) = n.
Proof.
  intros Hn. unfold extractRealAmplitudes.
  rewrite smoothPeaks_length, rawAmplitudes_length. lia.
Qed.

End SamplerFacts.

(** C4.  The sampler, [extractRealAmplitudes] with the [smoothPeaks] pass it
    ends with, returns exactly [targetPeaks] values and each of them lies
    in [[0, 1]].  This holds for every buffer, the non-empty ones of the
    claim included; [targetPeaks] is a count, hence not negative. *)
Theorem sampler_length_and_range (audioBuffer : Buffer) (targetPeaks : Z)
        (Hcount : (0 <= targetPeaks)%Z) :
  let out := Sampler.extractRealAmplitudes audioBuffer targetPeaks in
  Z.of_nat (List.length out) = targetPeaks /\
  Forall (fun v => (0 <= v <= 1)%R) out.
Proof.
  split.
  - now apply extractRealAmplitudes_length.
  - apply smoothPeaks_unit, rawAmplitudes_unit.
Qed.

Lemma sampler_length_and_range_witness :
  (0 <= 100)%Z /\
  Z.of_nat (List.length (Sampler.extractRealAmplitudes [x80; xff; x00] 100))
  = 100%Z /\
  Forall (fun v => (0 <= v <= 1)%R)
         (Sampler.extractRealAmplitudes [x80; xff; x00] 100).
Proof.
  split; [lia|].
  apply (@sampler_length_and_range [x80; xff; x00] 100). lia.
Defined.

Section SamplerZero.

Import Sampler.

Lemma fold_left_Rplus_zeros (l : list R) :
  Forall (eq 0%R) l -> forall acc, fold_left Rplus l acc = acc.
Proof.
  induction 1 as [|v l Hv _ IH]; intros acc; [reflexivity|].
  cbn [fold_left]. rewrite IH, <- Hv. lra.
Qed.

Lemma smoothPeaks_zeros (l : list R) :
  Forall (eq 0%R) l -> Forall (eq 0%R) (smoothPeaks l).
Proof.
  intros Hl. apply Forall_forall. intros v Hv.
  unfold smoothPeaks in Hv. apply in_map_iff in Hv.
  destruct Hv as (i & <- & _). unfold smoothAt.
  rewrite fold_left_Rplus_zeros.
  - unfold Rdiv. now rewrite Rmult_0_l.
  - apply Forall_forall. intros x Hx. apply in_map_iff in Hx.
    destruct Hx as (j & <- & _).
    destruct (Nat.lt_ge_cases (Z.to_nat j) (List.length l)) as [Hj|Hj].
    + rewrite Forall_forall in Hl. apply Hl, nth_In, Hj.
    + now rewrite nth_overflow.
Qed.

Lemma chunkPeak_guard b chunkSize i :
  snd (sampleChunk
         (Z.to_nat (Z.min (i * chunkSize + chunkSize) (buflen b) - i * chunkSize))
         b (i * chunkSize) (Z.min (i * chunkSize + chunkSize) (buflen b)) 0 0)
  = 0%Z ->
  chunkPeak b chunkSize i = 0%R.
Proof.
  unfold chunkPeak. destruct (sampleChunk _ _ _ _ _ _) as [sum count].
  simpl. intros ->. simpl. unfold Rdiv. rewrite Rmult_0_l.
  apply Rmin_right. lra.
Qed.

Lemma chunkSize_short (len n : Z) :
  (0 <= len < n)%Z -> Math_floor (IZR len / IZR n) = 0%Z.
Proof.
  intros H. unfold Math_floor. apply Zfloor_eq.
  assert (Hn : (0 < IZR n)%R) by (apply IZR_lt; lia).
  assert (Hl : (0 <= IZR len)%R) by (apply IZR_le; lia).
  assert (Hln : (IZR len < IZR n)%R) by (apply IZR_lt; lia).
  split.
  - apply Rmult_le_pos; [exact Hl|]. left. now apply Rinv_0_lt_compat.
  - apply Rmult_lt_reg_r with (r := IZR n); [exact Hn|].
    unfold Rdiv. rewrite Rmult_assoc, Rinv_l by lra. lra.
Qed.

(** The guard works: the RMS is divided by a positive count only, so the
    checked iteration always has a value, the one of [chunkPeak]. *)
Lemma chunkPeakChecked_defined b chunkSize i :
  chunkPeakChecked b chunkSize i = Some (chunkPeak b chunkSize i).
Proof.
  unfold chunkPeakChecked, chunkPeak.
  destruct (sampleChunk _ _ _ _ _ _) as [sum count].
  unfold rmsOf, quotient.
  destruct (Z.ltb_spec 0 count) as [Hpos|_]; [|reflexivity].
  destruct (Req_dec_T (IZR count) 0) as [Hz|_]; [|reflexivity].
  apply eq_IZR_R0 in Hz. lia.
Qed.

End SamplerZero.

(** C10.  In [extractRealAmplitudes] the division of the RMS is guarded:
    it is carried out for a positive count only, so that no chunk of any
    buffer, and so no peak before smoothing, has an amplitude that is not
    a number, and a chunk that contributes no sampled byte has amplitude
    [0], where the division itself would not give a number.  For a non-empty buffer shorter than
    [targetPeaks] the chunk size floors to [0], and the function still
    returns exactly [targetPeaks] values, all of them [0]. *)
Theorem short_buffer_all_zero (audioBuffer : Buffer) (targetPeaks : Z)
        (Hne : audioBuffer <> [])
        (Hshort : (buflen audioBuffer < targetPeaks)%Z) :
  (forall b chunkSize i,
      Sampler.chunkPeakChecked b chunkSize i
      = Some (Sampler.chunkPeak b chunkSize i)) /\
  (forall b n,
      Sampler.rawAmplitudesChecked b n = map Some (Sampler.rawAmplitudes b n)) /\
  (forall sum, Sampler.rmsOf sum 0 = Some 0%R /\
               option_map sqrt (Sampler.quotient (IZR sum) (IZR 0)) = None) /\
  (forall chunkSize i,
      snd (Sampler.sampleChunk
             (Z.to_nat (Z.min (i * chunkSize + chunkSize) (buflen audioBuffer)
                        - i * chunkSize))
             audioBuffer (i * chunkSize)
             (Z.min (i * chunkSize + chunkSize) (buflen audioBuffer)) 0 0) = 0%Z ->
      Sampler.chunkPeak audioBuffer chunkSize i = 0%R) /\
  Math_floor (IZR (buflen audioBuffer) / IZR targetPeaks) = 0%Z /\
  Forall (eq (Some 0%R)) (Sampler.rawAmplitudesChecked audioBuffer targetPeaks) /\
  Z.of_nat (List.length (Sampler.extractRealAmplitudes audioBuffer targetPeaks))
  = targetPeaks /\
  Forall (eq 0%R) (Sampler.extractRealAmplitudes audioBuffer targetPeaks).
Proof.
  assert (Hlen : (0 <= buflen audioBuffer)%Z) by (unfold buflen; lia).
  assert (Hcs := @chunkSize_short (buflen audioBuffer) targetPeaks (conj Hlen Hshort)).
  split; [apply chunkPeakChecked_defined|].
  split.
  { intros b n. unfold Sampler.rawAmplitudesChecked, Sampler.rawAmplitudes.
    rewrite map_map. apply map_ext. intros i. apply chunkPeakChecked_defined. }
  split.
  { intros sum. split; [reflexivity|].
    unfold Sampler.quotient.
    destruct (Req_dec_T (IZR 0) 0) as [_|Hnz]; [reflexivity|contradiction]. }
  split; [intros cs i; apply chunkPeak_guard|].
  split; [exact Hcs|].
  assert (Hraw : forall i, Sampler.chunkPeak audioBuffer 0 i = 0%R).
  { intros i. apply chunkPeak_guard.
    rewrite sampleChunk_empty; [reflexivity|lia]. }
  split.
  { unfold Sampler.rawAmplitudesChecked. rewrite Hcs.
    apply Forall_forall. intros v Hv. apply in_map_iff in Hv.
    destruct Hv as (i & <- & _).
    now rewrite chunkPeakChecked_defined, Hraw. }
  split; [apply extractRealAmplitudes_length; lia|].
  unfold Sampler.extractRealAmplitudes. apply smoothPeaks_zeros.
  apply Forall_forall. intros v Hv. unfold Sampler.rawAmplitudes in Hv.
  apply in_map_iff in Hv. destruct Hv as (i & <- & _).
  rewrite Hcs. symmetry. apply Hraw.
Qed.

Lemma short_buffer_all_zero_witness :
  [x80; x7f] <> [] /\ (buflen [x80; x7f] < 100)%Z /\
  Z.of_nat (List.length (Sampler.extractRealAmplitudes [x80; x7f] 100)) = 100%Z /\
  Forall (eq 0%R) (Sampler.extractRealAmplitudes [x80; x7f] 100).
Proof.
  assert (Hne : [x80; x7f] <> []) by discriminate.
  assert (Hshort : (buflen [x80; x7f] < 100)%Z) by (vm_compute; reflexivity).
  split; [exact Hne|]. split; [exact Hshort|].
  destruct (@short_buffer_all_zero [x80; x7f] 100 Hne Hshort)
    as (_ & _ & _ & _ & _ & _ & Hl & Hz).
  split; [exact Hl|exact Hz].
Defined.

(** ** The duration estimate and the peak count *)

Lemma Rmax_Rmin_clamp x lo hi : (lo <= hi)%R -> Rmax lo (Rmin hi x) = clampR x lo hi.
Proof.
  intros H. unfold clampR, Rmax, Rmin.
  destruct (Rlt_dec x lo), (Rlt_dec hi x), (Rle_dec hi x);
    try destruct (Rle_dec lo hi); try destruct (Rle_dec lo x); lra.
Qed.

Lemma Zmin_Zmax_clamp x lo hi : (lo <= hi)%Z -> Z.min hi (Z.max lo x) = clampZ x lo hi.
Proof.
  intros H. unfold clampZ.
  destruct (x <? lo)%Z eqn:E1; destruct (hi <? x)%Z eqn:E2;
    rewrite ?Z.ltb_lt, ?Z.ltb_ge in *; lia.
Qed.

Lemma simulatePeaksExtraction_ok (audioBuffer : Buffer) (w : AudioProcessor.world) :
  AudioProcessor.simulatePeaksExtraction audioBuffer w =
  (Ok (AudioProcessor.mkPeaks
         (Sampler.extractRealAmplitudes audioBuffer
            (AudioProcessor.targetPeaks (buflen audioBuffer)))
         (AudioProcessor.estimatedDuration (buflen audioBuffer)) 44100 2
         (Z.of_nat (List.length
            (Sampler.extractRealAmplitudes audioBuffer
               (AudioProcessor.targetPeaks (buflen audioBuffer))))) 16),
   AudioProcessor.mkWorld (AudioProcessor.currentVideoId w)
     (Some (buflen audioBuffer)) (AudioProcessor.tempDir w)
     (AudioProcessor.console w) (AudioProcessor.draws w)).
Proof. reflexivity. Qed.

Lemma targetPeaks_bounds (fileSize : Z) :
  (100 <= AudioProcessor.targetPeaks fileSize <= 200)%Z.
Proof. unfold AudioProcessor.targetPeaks. lia. Qed.

(** C7.  For every buffer length [L] the engine computes the estimated
    duration [clamp(L / 20000, 30, 600)] and the peak count
    [clamp(floor(duration), 100, 200)], which therefore lies in
    [[100, 200]]; these are the [duration] and the [length] of the result
    that [simulatePeaksExtraction] returns. *)
Theorem duration_and_peak_count (audioBuffer : Buffer) (w : AudioProcessor.world) :
  let L := buflen audioBuffer in
  let d := clampR (IZR L / 20000) 30 600 in
  let N := clampZ (Math_floor d) 100 200 in
  AudioProcessor.estimatedDuration L = d /\
  AudioProcessor.targetPeaks L = N /\
  (100 <= N <= 200)%Z /\
  exists r w',
    AudioProcessor.simulatePeaksExtraction audioBuffer w = (Ok r, w') /\
    AudioProcessor.duration r = d /\
    AudioProcessor.length r = N /\
    Z.of_nat (List.length (AudioProcessor.peaks r)) = N.
Proof.
  intros L d N.
  assert (Hd : AudioProcessor.estimatedDuration L = d).
  { unfold AudioProcessor.estimatedDuration, d. apply Rmax_Rmin_clamp. lra. }
  assert (HN : AudioProcessor.targetPeaks L = N).
  { unfold AudioProcessor.targetPeaks, N. rewrite Hd, Rmult_1_r.
    apply Zmin_Zmax_clamp. lia. }
  assert (Hb : (100 <= N <= 200)%Z) by (rewrite <- HN; apply targetPeaks_bounds).
  repeat split; try assumption; try lia.
  eexists. eexists. split; [apply simulatePeaksExtraction_ok|].
  cbn [AudioProcessor.duration AudioProcessor.length AudioProcessor.peaks].
  fold L. rewrite Hd, HN.
  repeat split; apply extractRealAmplitudes_length; lia.
Qed.

(** ** Resampling *)

Section Resample.

Import AudioProcessor.

Lemma resample_index_in_range (len targetLength i : Z) :
  (0 < len)%Z -> (0 <= i < targetLength)%Z ->
  (0 <= Math_floor (IZR i * (IZR len / IZR targetLength)) < len)%Z.
Proof.
  intros Hlen Hi. unfold Math_floor.
  set (x := (IZR i * (IZR len / IZR targetLength))%R).
  assert (Ht : (0 < IZR targetLength)%R) by (apply IZR_lt; lia).
  assert (Hl : (0 < IZR len)%R) by (apply IZR_lt; lia).
  assert (Hi0 : (0 <= IZR i)%R) by (apply IZR_le; lia).
  assert (Hi1 : (IZR i < IZR targetLength)%R) by (apply IZR_lt; lia).
  assert (Hx0 : (0 <= x)%R).
  { unfold x. apply Rmult_le_pos; [exact Hi0|].
    apply Rmult_le_pos; [lra|]. left. now apply Rinv_0_lt_compat. }
  assert (Hx1 : (x < IZR len)%R).
  { apply Rmult_lt_reg_r with (r := IZR targetLength); [exact Ht|].
    replace (x * IZR targetLength)%R with (IZR i * IZR len)%R
      by (unfold x; field; lra).
    rewrite (Rmult_comm (IZR len)). apply Rmult_lt_compat_r; assumption. }
  split.
  - apply Zfloor_lub. exact Hx0.
  - apply lt_IZR. pose proof (Zfloor_bound x) as [Hb _]. lra.
Qed.

Lemma elementOr0_In (peaks : list R) (index : Z) :
  (0 <= index < Z.of_nat (List.length peaks))%Z ->
  In (elementOr0 peaks index) peaks.
Proof.
  intros H. unfold elementOr0.
  replace ((0 <=? index) && (index <? Z.of_nat (List.length peaks)))%Z with true.
  - apply nth_In. lia.
  - symmetry. apply andb_true_iff. split; [apply Z.leb_le|apply Z.ltb_lt]; lia.
Qed.

End Resample.

(** C8.  [resamplePeaks] returns the empty sequence on empty input; on a
    non-empty input and a positive target length it returns exactly
    [targetLength] values, each of which is an element of the input. *)
Theorem resamplePeaks_length_and_origin (peaks : list R) (targetLength : Z) :
  AudioProcessor.resamplePeaks [] targetLength = [] /\
  (peaks <> [] -> (0 < targetLength)%Z ->
   Z.of_nat (List.length (AudioProcessor.resamplePeaks peaks targetLength))
   = targetLength /\
   forall v, In v (AudioProcessor.resamplePeaks peaks targetLength) -> In v peaks).
Proof.
  split; [reflexivity|].
  intros Hne Hpos. unfold AudioProcessor.resamplePeaks.
  destruct peaks as [|p peaks']; [contradiction|].
  set (peaks := p :: peaks') in *.
  destruct (Z.of_nat (List.length peaks) =? targetLength)%Z eqn:Heq.
  - apply Z.eqb_eq in Heq. split; [exact Heq|auto].
  - split.
    + rewrite length_map, upto_length. lia.
    + intros v Hv. apply in_map_iff in Hv. destruct Hv as (i & <- & Hi).
      apply upto_In in Hi. apply elementOr0_In.
      apply resample_index_in_range; [|exact Hi].
      unfold peaks. simpl List.length. lia.
Qed.

Lemma resamplePeaks_length_and_origin_witness :
  [1%R; 0%R; 1%R] <> [] /\ (0 < 2)%Z /\
  Z.of_nat (List.length (AudioProcessor.resamplePeaks [1%R; 0%R; 1%R] 2)) = 2%Z /\
  forall v, In v (AudioProcessor.resamplePeaks [1%R; 0%R; 1%R] 2) ->
            In v [1%R; 0%R; 1%R].
Proof.
  assert (Hne : [1%R; 0%R; 1%R] <> []) by discriminate.
  assert (Hpos : (0 < 2)%Z) by reflexivity.
  split; [exact Hne|]. split; [exact Hpos|].
  exact (proj2 (@resamplePeaks_length_and_origin [1%R; 0%R; 1%R] 2) Hne Hpos).
Defined.

(** ** The matcher *)

Section RegexFacts.

Import Regex.

(** A successful match is a success of its continuation. *)
Lemma iterate_reaches_continuation A (body : cont A -> cont A) (k : cont A) :
  (forall k' s cap x, body k' s cap = Some x ->
                      exists s' cap', k' s' cap' = Some x) ->
  forall fuel s cap x,
    iterate body k fuel s cap = Some x -> exists s' cap', k s' cap' = Some x.
Proof.
  intros Hbody. induction fuel as [|fuel IH]; intros s cap x H; cbn [iterate] in H.
  - eauto.
  - match type of H with
    | match ?m with _ => _ end = _ => destruct m eqn:E
    end.
    + injection H as ->. apply Hbody in E. destruct E as (s1 & cap1 & E).
      destruct (List.length s1 <? List.length s)%nat; [|discriminate].
      now apply IH in E.
    + eauto.
Qed.

Lemma rmatch_reaches_continuation (r : regex) :
  forall A (k : cont A) s cap x,
    rmatch r k s cap = Some x -> exists s' cap', k s' cap' = Some x.
Proof.
  induction r as [|c|p|r1 IH1 r2 IH2|r1 IH1 r2 IH2|r IH|r IH];
    intros A k s cap x H; cbn [rmatch] in H.
  - eauto.
  - destruct s as [|c' s']; [discriminate|].
    destruct (Z.eqb c c'); [eauto|discriminate].
  - destruct s as [|c' s']; [discriminate|].
    destruct (p c'); [eauto|discriminate].
  - apply IH1 in H. destruct H as (s1 & cap1 & H). now apply IH2 in H.
  - destruct (rmatch r1 k s cap) eqn:E1.
    + injection H as ->. now apply IH1 in E1.
    + now apply IH2 in H.
  - apply iterate_reaches_continuation in H; [exact H|].
    intros k' s0 cap0 x0. apply IH.
  - apply IH in H. destruct H as (s1 & cap1 & H). eauto.
Qed.

(** Matching depends on the continuation through its values only. *)
Lemma iterate_ext A (body : cont A -> cont A) :
  (forall k1 k2, (forall s cap, k1 s cap = k2 s cap) ->
                 forall s cap, body k1 s cap = body k2 s cap) ->
  forall (k1 k2 : cont A), (forall s cap, k1 s cap = k2 s cap) ->
  forall fuel s cap, iterate body k1 fuel s cap = iterate body k2 fuel s cap.
Proof.
  intros Hbody k1 k2 Hk. induction fuel as [|fuel IH]; intros s cap; cbn [iterate].
  - apply Hk.
  - rewrite Hk.
    erewrite Hbody; [reflexivity|].
    intros s' cap'. cbv beta. now rewrite IH.
Qed.

Lemma rmatch_ext (r : regex) :
  forall A (k1 k2 : cont A), (forall s cap, k1 s cap = k2 s cap) ->
  forall s cap, rmatch r k1 s cap = rmatch r k2 s cap.
Proof.
  induction r as [|c|p|r1 IH1 r2 IH2|r1 IH1 r2 IH2|r IH|r IH];
    intros A k1 k2 Hk s cap; cbn [rmatch].
  - apply Hk.
  - destruct s as [|c' s']; [reflexivity|]. now rewrite Hk.
  - destruct s as [|c' s']; [reflexivity|]. now rewrite Hk.
  - apply IH1. intros s' cap'. now apply IH2.
  - now rewrite (IH1 _ k1 k2 Hk), (IH2 _ k1 k2 Hk).
  - apply iterate_ext; [|exact Hk]. intros k1' k2' Hk'. now apply IH.
  - apply IH. intros s' cap'. apply Hk.
Qed.

(** The fuel of a star is never what stops it: with the length of the
    input as fuel, one more unit changes nothing. *)
Lemma iterate_fuel_enough A (r : regex) (k : cont A) :
  forall fuel s cap,
    (List.length s <= fuel)%nat ->
    iterate (fun k' => rmatch r k') k fuel s cap
    = iterate (fun k' => rmatch r k') k (S fuel) s cap.
Proof.
  induction fuel as [|fuel IH]; intros s cap Hlen.
  - cbn [iterate].
    destruct (rmatch r _ s cap) eqn:E; [|reflexivity].
    apply rmatch_reaches_continuation in E. destruct E as (s' & cap' & E).
    destruct (Nat.ltb_spec (List.length s') (List.length s)); [lia|discriminate].
  - change (iterate (fun k' => rmatch r k') k (S (S fuel)) s cap)
      with (match rmatch r (fun s' cap' =>
                              if (List.length s' <? List.length s)%nat
                              then iterate (fun k' => rmatch r k') k (S fuel) s' cap'
                              else None) s cap with
            | Some x => Some x
            | None => k s cap
            end).
    cbn [iterate].
    erewrite rmatch_ext; [reflexivity|].
    intros s' cap'. cbv beta.
    destruct (Nat.ltb_spec (List.length s') (List.length s)); [|reflexivity].
    apply IH. lia.
Qed.

(** Exactly [n] characters of a class: the continuation is entered [n]
    characters further, with the capture untouched. *)
Lemma rmatch_Repeat_Class (p : Z -> bool) (n : nat) :
  forall A (k : cont A) s cap x,
    rmatch (Repeat n (Class p)) k s cap = Some x ->
    exists s', k s' cap = Some x /\ List.length s = (n + List.length s')%nat.
Proof.
  induction n as [|n IH]; intros A k s cap x H; cbn [Repeat rmatch] in H.
  - exists s. split; [exact H|reflexivity].
  - destruct s as [|c s1]; [discriminate|].
    destruct (p c); [|discriminate].
    apply IH in H. destruct H as (s' & Hk & Hlen).
    exists s'. split; [exact Hk|]. simpl. lia.
Qed.

Lemma search_videoIdRegex (url : js_string) (cap : option js_string) :
  search YouTubeService.videoIdRegex url = Some cap ->
  exists id, cap = Some id /\ List.length id = 11%nat.
Proof.
  induction url as [|c url IH]; cbn [search];
    destruct (rmatch YouTubeService.videoIdRegex _ _ None) eqn:E;
    intros H; try discriminate; try (now apply IH).
  all: injection H as ->.
  all: unfold YouTubeService.videoIdRegex in E; cbn [rmatch] in E.
  all: apply rmatch_reaches_continuation in E; destruct E as (s1 & cap1 & E).
  all: apply rmatch_Repeat_Class in E; destruct E as (s' & E & Hlen).
  all: injection E as <-; eexists; split; [reflexivity|].
  all: rewrite length_firstn; lia.
Qed.

End RegexFacts.

(** C9.  For every input string [extractVideoId] returns [null] or a string
    of exactly 11 characters, the captured group of the pattern; it returns
    nothing else. *)
Theorem extractVideoId_null_or_11 (url : js_string) :
  YouTubeService.extractVideoId url = YouTubeService.Null \/
  exists id, YouTubeService.extractVideoId url = YouTubeService.Str id /\
             List.length id = 11%nat.
Proof.
  unfold YouTubeService.extractVideoId.
  destruct (Regex.search YouTubeService.videoIdRegex url) as [cap|] eqn:E;
    [|now left].
  apply search_videoIdRegex in E. destruct E as (id & -> & Hlen).
  right. now exists id.
Qed.

(** The pattern does match: three usual forms of a video URL, and a string
    that is not one. *)
Example extractVideoId_watch :
  YouTubeService.extractVideoId (str "https://www.youtube.com/watch?v=dQw4w9WgXcQ")
  = YouTubeService.Str (str "dQw4w9WgXcQ").
Proof. vm_compute. reflexivity. Qed.

Example extractVideoId_short :
  YouTubeService.extractVideoId (str "https://youtu.be/dQw4w9WgXcQ?t=42")
  = YouTubeService.Str (str "dQw4w9WgXcQ").
Proof. vm_compute. reflexivity. Qed.

Example extractVideoId_embed :
  YouTubeService.extractVideoId (str "https://www.youtube.com/embed/dQw4w9WgXcQ")
  = YouTubeService.Str (str "dQw4w9WgXcQ").
Proof. vm_compute. reflexivity. Qed.

Example extractVideoId_other :
  YouTubeService.extractVideoId (str "https://example.com/watch?v=dQw4w9WgXcQ")
  = YouTubeService.Null.
Proof. vm_compute. reflexivity. Qed.

(** ** Polling *)

Section PollingFacts.

Import YouTubeService.
Local Open Scope Z_scope.

Variable net : Z -> probe.
Variable url : js_string.
Variable maxAttempts : Z.

Lemma axios_head_duration (timeout : Z) (p : probe) :
  fst (axios_head timeout p) <= timeout.
Proof.
  unfold axios_head. destruct (timeout <=? latency p) eqn:E; [simpl; lia|].
  apply Z.leb_gt in E.
  destruct (reply p) as [e|s]; [simpl; lia|].
  destruct ((200 <=? s) && (s <? 300)); simpl; lia.
Qed.

Lemma range_cons lo hi : lo <= hi -> range lo hi = lo :: range (lo + 1) hi.
Proof.
  intros H. unfold range.
  replace (Z.to_nat (hi - lo + 1)) with (S (Z.to_nat (hi - (lo + 1) + 1))) by lia.
  cbn [seq map]. f_equal; [lia|].
  rewrite <- seq_shift, map_map. apply map_ext. intros k. lia.
Qed.

Lemma range_nil lo hi : hi < lo -> range lo hi = [].
Proof.
  intros H. unfold range. now replace (Z.to_nat (hi - lo + 1)) with 0%nat by lia.
Qed.

Lemma waitSchedule_nonneg a b : 1 <= a -> 0 <= Zsum (waitSchedule a b).
Proof.
  intros Ha. unfold waitSchedule.
  destruct (Z_le_gt_dec a b) as [Hab|Hab]; [|rewrite range_nil by lia; simpl; lia].
  remember (Z.to_nat (b - a + 1)) as n eqn:Hn.
  revert a Ha Hab Hn. induction n as [|n IH]; intros a Ha Hab Hn; [lia|].
  rewrite range_cons by lia. cbn [map]. unfold Zsum. cbn [fold_right].
  assert (Hw : 0 <= scheduledWait a) by (unfold scheduledWait; lia).
  destruct (Z_le_gt_dec (a + 1) b) as [H1|H1].
  - specialize (IH (a + 1)). unfold Zsum in IH. lia.
  - rewrite range_nil by lia. simpl. lia.
Qed.

(** While every probe throws, the loop waits [scheduledWait attempt] after each
    attempt below [maxAttempts] and goes on. *)
Lemma poll_throwing_prefix (n : nat) :
  forall m attempt clock ws,
    (forall j, attempt <= j < attempt + Z.of_nat n ->
               exists dt e, axios_head 10000 (net j) = (dt, HeadThrows e)) ->
    attempt + Z.of_nat n <= maxAttempts ->
    exists clock',
      poll net url maxAttempts (n + m) attempt clock ws =
      poll net url maxAttempts m (attempt + Z.of_nat n) clock'
           (ws ++ waitSchedule attempt (attempt + Z.of_nat n - 1)).
Proof.
  induction n as [|n IH]; intros m attempt clock ws Hthrow Hmax.
  - exists clock. simpl. unfold waitSchedule.
    rewrite range_nil by lia. simpl. rewrite app_nil_r.
    now replace (attempt + 0) with attempt by lia.
  - cbn [Nat.add poll].
    destruct (Hthrow attempt) as (dt & e & ->); [lia|].
    replace (attempt <? maxAttempts) with true by (symmetry; apply Z.ltb_lt; lia).
    change (Z.min 5000 (1000 * attempt)) with (scheduledWait attempt).
    destruct (IH m (attempt + 1) (clock + dt + scheduledWait attempt)
                 (ws ++ [scheduledWait attempt])) as (clock' & ->).
    + intros j Hj. apply Hthrow. lia.
    + lia.
    + exists clock'. f_equal; [lia|].
      unfold waitSchedule. rewrite (@range_cons attempt) by lia.
      cbn [map]. rewrite <- app_assoc. cbn [app].
      do 4 f_equal. lia.
Qed.

(** The time a run takes is bounded by its attempt budget alone. *)
Lemma poll_elapsed_bound (remaining : nat) :
  forall attempt clock ws,
    1 <= attempt ->
    elapsed (poll net url maxAttempts remaining attempt clock ws)
    <= clock + 10000 * Z.of_nat remaining
       + Zsum (waitSchedule attempt (maxAttempts - 1)).
Proof.
  induction remaining as [|rem IH]; intros attempt clock ws Ha.
  - cbn [poll elapsed]. pose proof (@waitSchedule_nonneg attempt (maxAttempts - 1) Ha). lia.
  - cbn [poll].
    pose proof (axios_head_duration 10000 (net attempt)) as Hdt.
    destruct (axios_head 10000 (net attempt)) as [dt r]. simpl in Hdt.
    pose proof (@waitSchedule_nonneg (attempt + 1) (maxAttempts - 1)) as Hnn.
    assert (Hstep : attempt < maxAttempts ->
                    Zsum (waitSchedule attempt (maxAttempts - 1))
                    = scheduledWait attempt
                      + Zsum (waitSchedule (attempt + 1) (maxAttempts - 1))).
    { intros Hlt. unfold waitSchedule. rewrite (@range_cons attempt) by lia.
      reflexivity. }
    assert (Hlast : forall a, maxAttempts <= a ->
                    Zsum (waitSchedule a (maxAttempts - 1)) = 0).
    { intros a Hge. unfold waitSchedule. now rewrite range_nil by lia. }
    destruct r as [e|status].
    + destruct (attempt <? maxAttempts) eqn:E.
      * apply Z.ltb_lt in E. cbv zeta.
        change (Z.min 5000 (1000 * attempt)) with (scheduledWait attempt).
        specialize (IH (attempt + 1) (clock + dt + scheduledWait attempt)
                       (ws ++ [scheduledWait attempt]) ltac:(lia)).
        rewrite (Hstep E). lia.
      * apply Z.ltb_ge in E.
        specialize (IH (attempt + 1) (clock + dt) ws ltac:(lia)).
        rewrite (Hlast attempt E). rewrite (Hlast (attempt + 1)) in IH by lia. lia.
    + destruct (status =? 200).
      * cbn [elapsed].
        pose proof (@waitSchedule_nonneg attempt (maxAttempts - 1) Ha). lia.
      * specialize (IH (attempt + 1) (clock + dt) ws ltac:(lia)).
        specialize (Hnn ltac:(lia)).
        assert (Hw : 0 <= scheduledWait attempt) by (unfold scheduledWait; lia).
        destruct (Z_lt_ge_dec attempt maxAttempts) as [E|E].
        -- rewrite (Hstep E). lia.
        -- rewrite (Hlast attempt) by lia.
           rewrite (Hlast (attempt + 1)) in IH by lia. lia.
Qed.

End PollingFacts.

Section PollingRuns.

Import YouTubeService.
Local Open Scope Z_scope.

Variable net : Z -> probe.
Variable url : js_string.
Variable maxAttempts : Z.

(** When the probes before attempt [k] all throw and the probe of attempt
    [k] answers 200, the run returns the location at once, having waited
    exactly the scheduled times of the attempts [1 .. k-1]. *)
Lemma waitForConversion_first_success (k : Z) (dt : Z) :
  1 <= k <= maxAttempts ->
  (forall j, 1 <= j < k ->
             exists d e, axios_head 10000 (net j) = (d, HeadThrows e)) ->
  axios_head 10000 (net k) = (dt, HeadStatus 200) ->
  let run := waitForConversion net url maxAttempts in
  outcome run = Ok url /\
  waits run = waitSchedule 1 (k - 1) /\
  probes run = k.
Proof.
  intros Hk Hthrow Hok. unfold waitForConversion.
  replace (Z.to_nat maxAttempts)
    with (Z.to_nat (k - 1) + S (Z.to_nat (maxAttempts - k)))%nat by lia.
  destruct (@poll_throwing_prefix net url maxAttempts (Z.to_nat (k - 1))
              (S (Z.to_nat (maxAttempts - k))) 1 0 [])
    as (clock' & ->).
  - intros j Hj. apply Hthrow. lia.
  - lia.
  - replace (1 + Z.of_nat (Z.to_nat (k - 1))) with k by lia.
    cbn [poll]. rewrite Hok. cbn. repeat split.
Qed.

(** When no probe answers 200 the run ends with the exhaustion error. *)
Lemma poll_exhausted (remaining : nat) :
  forall attempt clock ws,
    (forall j, attempt <= j < attempt + Z.of_nat remaining ->
               snd (axios_head 10000 (net j)) <> HeadStatus 200) ->
    outcome (poll net url maxAttempts remaining attempt clock ws) = Throw exhausted.
Proof.
  induction remaining as [|rem IH]; intros attempt clock ws Hno; [reflexivity|].
  cbn [poll]. pose proof (Hno attempt ltac:(lia)) as Hhere.
  destruct (axios_head 10000 (net attempt)) as [dt r]. simpl in Hhere.
  destruct r as [e|status].
  - destruct (attempt <? maxAttempts); apply IH; intros j Hj; apply Hno; lia.
  - destruct (status =? 200) eqn:E.
    + apply Z.eqb_eq in E. subst status. contradiction.
    + apply IH. intros j Hj. apply Hno. lia.
Qed.

End PollingRuns.

(** C5.  At the location that answers 204 and then 200, the first probe
    returns without throwing and without the status 200; the loop goes to
    the second attempt at once.  The run returns the location after two
    probes and no wait, where the progressive schedule asks for 1000 ms
    before the retry. *)
Theorem polling_retries_non200_without_wait :
  let run := YouTubeService.waitForConversion
               Scenario.noContentThenReady Scenario.assetUrl 30 in
  YouTubeService.outcome run = Ok Scenario.assetUrl /\
  YouTubeService.probes run = 2%Z /\
  YouTubeService.waits run = [] /\
  YouTubeService.waitSchedule 1 (2 - 1) = [1000%Z] /\
  YouTubeService.Zsum (YouTubeService.waits run)
  <> YouTubeService.Zsum (YouTubeService.waitSchedule 1 (2 - 1)).
Proof. vm_compute. repeat split; discriminate. Qed.

(** The example of the design document: ready from the third probe on,
    the run returns after the waits of 1 s and 2 s. *)
Example polling_ready_at_third :
  let run := YouTubeService.waitForConversion
               Scenario.readyAtThird Scenario.assetUrl 30 in
  YouTubeService.outcome run = Ok Scenario.assetUrl /\
  YouTubeService.waits run = [1000%Z; 2000%Z] /\
  YouTubeService.elapsed run = 3000%Z.
Proof. vm_compute. repeat split. Qed.

(** ** The SSE monitor *)

Section MonitorFacts.

Import YouTubeService.
Local Open Scope Z_scope.

Variable cb : option (json -> bool).

Lemma pending_or_finished_start : pending start.
Proof. repeat split. Qed.

Lemma ontimeout_finished m : pending m -> finished (ontimeout m).
Proof.
  intros (Hs & Hc & Ht). unfold finished, ontimeout. cbn. rewrite Hs.
  repeat split. eexists. eexists. split; [reflexivity|lia].
Qed.

Lemma tick_cases now m :
  pending m ->
  (now < sseTimeoutMs /\ tick now m = m) \/
  (sseTimeoutMs <= now /\ finished (tick now m)).
Proof.
  intros Hp. unfold tick. destruct Hp as (Hs & Hc & Ht). rewrite Ht. cbn [andb].
  destruct (sseTimeoutMs <=? now) eqn:E.
  - right. split; [now apply Z.leb_le|]. apply ontimeout_finished. now repeat split.
  - left. split; [now apply Z.leb_gt|reflexivity].
Qed.

Lemma js_string_eqb_refl (a : js_string) : js_string_eqb a a = true.
Proof. unfold js_string_eqb. now destruct (list_eq_dec Z.eq_dec a a). Qed.

Lemma control_pending m m' : control m' = control m -> pending m -> pending m'.
Proof.
  unfold control, pending. intros H (Hs & Hc & Ht).
  injection H as -> -> ->. now repeat split.
Qed.

(** A handler run on a pending monitor before the deadline either leaves
    the control state alone or settles the promise at that instant. *)
Lemma onmessage_cases now f m :
  pending m -> now <= sseTimeoutMs ->
  control (onmessage cb now f m) = control m \/
  (finished (onmessage cb now f m) /\
   exists s, settled (onmessage cb now f m) = Some (now, s)).
Proof.
  intros (Hs & Hc & Ht) Hnow. destruct m as [st cl tm co ob].
  cbn in Hs, Hc, Ht. subst st cl tm.
  unfold onmessage. destruct f as [|data]; [now left|].
  destruct cb as [g|]; [destruct (g data)|];
    destruct data as [| |d]; try (now left).
  all: destruct (statusIs d "completed" && truthy (downloadUrl d));
    [right|destruct (statusIs d "error" || statusIs d "failed"); [right|now left]].
  all: unfold finished; cbn; repeat split; eauto.
Qed.

Lemma onerror_finished now m :
  pending m -> now <= sseTimeoutMs ->
  finished (onerror now m) /\
  settled (onerror now m)
  = Some (now, Rejected (Error (str "SSE connection failed"))).
Proof.
  intros (Hs & Hc & Ht) Hnow. destruct m as [st cl tm co ob].
  cbn in Hs, Hc, Ht. subst st cl tm.
  unfold finished, onerror. cbn. repeat split; eauto.
Qed.

Lemma deliver_app evs1 evs2 m :
  deliver cb (evs1 ++ evs2) m = deliver cb evs2 (deliver cb evs1 m).
Proof.
  revert m. induction evs1 as [|[now ev] evs1 IH]; intros m; [reflexivity|].
  cbn [app deliver]. apply IH.
Qed.

(** Once settled, nothing is delivered any more. *)
Lemma deliver_finished evs m : finished m -> deliver cb evs m = m.
Proof.
  intros (Hc & Ht & _). induction evs as [|[now ev] evs IH]; [reflexivity|].
  cbn [deliver]. unfold tick. rewrite Ht. cbn [andb]. now rewrite Hc.
Qed.

Lemma deliver_pending_or_finished evs :
  forall m, pending m -> pending (deliver cb evs m) \/ finished (deliver cb evs m).
Proof.
  induction evs as [|[now ev] evs IH]; intros m Hp; [now left|].
  cbn [deliver].
  destruct (tick_cases now Hp) as [(Hnow & ->)|(Hnow & Hfin)].
  - destruct Hp as (Hs & Hc & Ht). rewrite Hc.
    assert (Hp : pending m) by now repeat split.
    destruct ev as [f|].
    + destruct (@onmessage_cases now f m Hp ltac:(lia)) as [Hctl|(Hfin & _)].
      * apply IH. exact (control_pending Hctl Hp).
      * right. now rewrite deliver_finished.
    + destruct (@onerror_finished now m Hp ltac:(lia)) as (Hfin & _).
      right. now rewrite deliver_finished.
  - right. destruct Hfin as (Hc & Ht & Hx). rewrite Hc.
    rewrite deliver_finished; now repeat split.
Qed.

(** The promise of [monitorConversionProgress] always settles, and never
    later than the timer. *)
Lemma monitorConversionProgress_finished evs :
  finished (monitorConversionProgress cb evs).
Proof.
  unfold monitorConversionProgress.
  destruct (@deliver_pending_or_finished evs start pending_or_finished_start)
    as [Hp|Hf].
  - destruct Hp as (Hs & Hc & Ht). rewrite Ht.
    apply ontimeout_finished. now repeat split.
  - destruct Hf as (Hc & Ht & Hx). rewrite Ht. now repeat split.
Qed.

Lemma settled_none_pending evs :
  settled (deliver cb evs start) = None -> pending (deliver cb evs start).
Proof.
  intros Hs.
  destruct (@deliver_pending_or_finished evs start pending_or_finished_start)
    as [Hp|(_ & _ & t & s & Hx & _)]; [exact Hp|congruence].
Qed.

Lemma tick_before now m : now < sseTimeoutMs -> tick now m = m.
Proof.
  intros H. unfold tick.
  replace (sseTimeoutMs <=? now) with false by (symmetry; apply Z.leb_gt; lia).
  now rewrite andb_false_r.
Qed.






End MonitorFacts.

Section TerminalEvents.

Import YouTubeService.
Local Open Scope Z_scope.

Variable cb : option (json -> bool).

Lemma step_pending now ev m :
  pending m -> now < sseTimeoutMs ->
  deliver cb [(now, ev)] m =
  match ev with
  | OnMessage f => onmessage cb now f m
  | OnError => onerror now m
  end.
Proof.
  intros (Hs & Hc & Ht) Hnow. cbn [deliver].
  rewrite tick_before by exact Hnow. now rewrite Hc.
Qed.



End TerminalEvents.




(** ** Time bounds of the two strategies *)

(** C3, as stated, fails on the polling strategy.  At a location that never
    answers, the default budget of 30 attempts runs for 435 s, beyond the
    300 s of the only timer there is, and ends with the exhaustion error;
    so no ceiling shared with the SSE strategy bounds every polling run. *)
Lemma polling_outlives_sse_timeout :
  (let run := YouTubeService.waitForConversion
                Scenario.silent Scenario.assetUrl 30 in
   YouTubeService.elapsed run = 435000%Z /\
   (YouTubeService.sseTimeoutMs < YouTubeService.elapsed run)%Z /\
   YouTubeService.outcome run = Throw YouTubeService.exhausted) /\
  ~ (forall net url maxAttempts,
        (YouTubeService.elapsed
           (YouTubeService.waitForConversion net url maxAttempts)
         <= YouTubeService.sseTimeoutMs)%Z).
Proof.
  split.
  - vm_compute. repeat split.
  - intros H. specialize (H Scenario.silent Scenario.assetUrl 30%Z).
    vm_compute in H. apply H. reflexivity.
Qed.

(** C3, amended.  The SSE strategy is bounded by its timer: the promise
    always settles, 300000 ms after the start at the latest.  The polling
    strategy has no timer; its run is bounded by its attempt budget alone,
    10000 ms for each probe and the scheduled wait after each attempt but
    the last. *)
Theorem monitor_time_bounds
        (cb : option (YouTubeService.json -> bool))
        (events : list (Z * YouTubeService.sse_event))
        (net : Z -> YouTubeService.probe) (url : js_string) (maxAttempts : Z) :
  (exists t s,
      YouTubeService.settled (YouTubeService.monitorConversionProgress cb events)
      = Some (t, s) /\ (t <= YouTubeService.sseTimeoutMs)%Z) /\
  (YouTubeService.elapsed (YouTubeService.waitForConversion net url maxAttempts)
   <= 10000 * Z.max 0 maxAttempts
      + YouTubeService.Zsum (YouTubeService.waitSchedule 1 (maxAttempts - 1)))%Z.
Proof.
  split.
  - destruct (monitorConversionProgress_finished cb events) as (_ & _ & Hx).
    exact Hx.
  - unfold YouTubeService.waitForConversion.
    pose proof (@poll_elapsed_bound net url maxAttempts (Z.to_nat maxAttempts)
                  1 0 [] ltac:(lia)) as H.
    lia.
Qed.

(** ** The entry point of peak extraction *)

Section GeneratePeaks.

Import AudioProcessor.

Variable h : host.

Lemma lookupFile_written (p : Z) (data : Buffer) (d : list (Z * Buffer)) :
  lookupFile p ((p, data) :: d) = Some data.
Proof. unfold lookupFile. cbn. now rewrite Z.eqb_refl. Qed.

(** The sampled result for a given body, and the state it leaves. *)
Lemma extractPeaksFromFile_written (p : Z) (data : Buffer)
      (videoId : option js_string) (w : world) :
  fs_readFile_error h = None ->
  lookupFile p (tempDir w) = Some data ->
  extractPeaksFromFile h p videoId w
  = (Ok (mkPeaks
           (Sampler.extractRealAmplitudes data (targetPeaks (buflen data)))
           (estimatedDuration (buflen data)) 44100 2
           (Z.of_nat (List.length
              (Sampler.extractRealAmplitudes data (targetPeaks (buflen data)))))
           16),
     mkWorld videoId (Some (buflen data)) (tempDir w) (console w) (draws w)).
Proof.
  intros Hread Hfile. unfold extractPeaksFromFile, try_catch, bind, fs_readFile.
  rewrite Hread, Hfile. reflexivity.
Qed.

(** A read that fails is logged and thrown again. *)
Lemma extractPeaksFromFile_unreadable (p : Z) (e : js_error)
      (videoId : option js_string) (w : world) :
  fs_readFile_error h = Some e ->
  extractPeaksFromFile h p videoId w
  = (Throw e, snd (console_error "Peaks extraction error:" w)).
Proof.
  intros Hread. unfold extractPeaksFromFile, try_catch, bind, fs_readFile.
  rewrite Hread. reflexivity.
Qed.

(** The [finally] block adds at most its own line to the log and draws
    nothing. *)
Lemma finally_log (p : Z) (w : world) :
  let w' := snd (try_catch (fs_unlink h p)
                   (fun _ => console_error "Failed to cleanup temp file:") w) in
  draws w' = draws w /\
  (console w' = console w \/
   console w' = console w ++ ["Failed to cleanup temp file:"%string]).
Proof.
  unfold try_catch, fs_unlink.
  destruct (fs_unlink_error h); [split; [reflexivity|now right]|].
  destruct (lookupFile p (tempDir w)); cbn; split; auto.
Qed.

(** What the caller of [generatePeaks] receives, by cases on the download
    and on the write and the read of the scratch file. *)
Lemma generatePeaks_cases (audioUrl : js_string)
      (videoId : option js_string) (w : world) :
  fst (generatePeaks h audioUrl videoId w) =
  match axios_get h audioUrl with
  | Throw e => Throw e
  | Ok None => Throw (Error (str "No audio data received"))
  | Ok (Some data) =>
      match fs_writeFile_error h with
      | Some e => Throw e
      | None =>
          match fs_readFile_error h with
          | Some e => Throw e
          | None =>
              let N := targetPeaks (buflen data) in
              let peaks := Sampler.extractRealAmplitudes data N in
              Ok (mkPeaks peaks (estimatedDuration (buflen data)) 44100 2 N 16)
          end
      end
  end.
Proof.
  unfold generatePeaks.
  destruct (axios_get h audioUrl) as [[data|]|e]; try reflexivity.
  unfold fs_writeFile.
  destruct (fs_writeFile_error h) as [e|]; [reflexivity|].
  destruct (fs_readFile_error h) as [e|] eqn:Hread.
  - now rewrite (extractPeaksFromFile_unreadable _ _ _ Hread).
  - match goal with
    | |- context [extractPeaksFromFile h ?p ?v ?w0] =>
        rewrite (@extractPeaksFromFile_written p data v w0 Hread
                   (lookupFile_written _ _ _))
    end.
    cbn [fst]. cbv zeta. do 2 f_equal.
    apply extractRealAmplitudes_length.
    pose proof (targetPeaks_bounds (buflen data)). lia.
Qed.

(** What [generatePeaks] writes to the log, and that it draws nothing from
    [Math.random()]. *)
Lemma generatePeaks_log (audioUrl : js_string)
      (videoId : option js_string) (w : world) :
  let w' := snd (generatePeaks h audioUrl videoId w) in
  draws w' = draws w /\
  exists cleanupLines,
    console w' = console w ++
      match axios_get h audioUrl with
      | Ok (Some data) =>
          match fs_writeFile_error h, fs_readFile_error h with
          | Some _, _ => ["Audio processing error:"%string]
          | None, Some _ => ["Peaks extraction error:"%string;
                             "Audio processing error:"%string]
          | None, None => []
          end ++ cleanupLines
      | _ => ["Audio processing error:"%string]
      end.
Proof.
  unfold generatePeaks.
  destruct (axios_get h audioUrl) as [[data|]|e];
    try (split; [reflexivity|exists []; reflexivity]).
  unfold fs_writeFile.
  destruct (fs_writeFile_error h) as [e|].
  - cbn [snd].
    match goal with
    | |- context [try_catch (fs_unlink h ?p) ?k ?w0] =>
        destruct (finally_log p w0) as (Hd & [Hc|Hc])
    end; cbv zeta in Hd, Hc; cbn [snd]; rewrite Hd, Hc; cbn;
      split; try reflexivity.
    + exists []. reflexivity.
    + exists ["Failed to cleanup temp file:"%string]. now rewrite <- app_assoc.
  - destruct (fs_readFile_error h) as [e|] eqn:Hread.
    + rewrite (extractPeaksFromFile_unreadable _ _ _ Hread). cbn [snd].
      match goal with
      | |- context [try_catch (fs_unlink h ?p) ?k ?w0] =>
          destruct (finally_log p w0) as (Hd & [Hc|Hc])
      end; cbv zeta in Hd, Hc; cbn [snd]; rewrite Hd, Hc; cbn;
        split; try reflexivity.
      * exists []. now rewrite <- !app_assoc.
      * exists ["Failed to cleanup temp file:"%string].
        now rewrite <- !app_assoc.
    + match goal with
      | |- context [extractPeaksFromFile h ?p ?v ?w0] =>
          rewrite (@extractPeaksFromFile_written p data v w0 Hread
                     (lookupFile_written _ _ _))
      end.
      cbn [snd].
      match goal with
      | |- context [try_catch (fs_unlink h ?p) ?k ?w0] =>
          destruct (finally_log p w0) as (Hd & [Hc|Hc])
      end; cbv zeta in Hd, Hc; cbn [snd]; rewrite Hd, Hc; cbn;
        split; try reflexivity.
      * exists []. now rewrite app_nil_r.
      * exists ["Failed to cleanup temp file:"%string]. reflexivity.
Qed.

End GeneratePeaks.

(** C1, as stated, fails: when the download fails, [generatePeaks] logs the
    error and throws it again; the caller receives the error of the
    download and no result. *)
Lemma generatePeaks_rethrows_fetch_failure :
  fst (AudioProcessor.generatePeaks Scenario.unreachable Scenario.missingUrl
         (Some (str "dQw4w9WgXcQ")) Scenario.idle)
  = Throw Scenario.ENOTFOUND /\
  forall r : AudioProcessor.PeaksResult,
    fst (AudioProcessor.generatePeaks Scenario.unreachable Scenario.missingUrl
           (Some (str "dQw4w9WgXcQ")) Scenario.idle)
    <> Ok r.
Proof. split; [reflexivity|]. intros r. cbn. discriminate. Qed.

(** C1, amended.  [generatePeaks] returns a result exactly when the
    download delivers a body and the scratch file can be written and read
    back; the result then holds the peaks sampled from that body, between
    100 and 200 of them.  A failed download is thrown again to the caller
    with its own error, an absent body raises [No audio data received],
    and a failed write or read of the scratch file is thrown again.  Every
    error that is thrown is first logged as [Audio processing error:]
    (for a failed download or an absent body this is the only line
    written), and no run draws from [Math.random()]: the procedural
    generator is never called. *)
Theorem generatePeaks_outcome (h : AudioProcessor.host) (audioUrl : js_string)
        (videoId : option js_string) (w : AudioProcessor.world) :
  let run := AudioProcessor.generatePeaks h audioUrl videoId w in
  fst run =
  match AudioProcessor.axios_get h audioUrl with
  | Throw e => Throw e
  | Ok None => Throw (Error (str "No audio data received"))
  | Ok (Some data) =>
      match AudioProcessor.fs_writeFile_error h with
      | Some e => Throw e
      | None =>
          match AudioProcessor.fs_readFile_error h with
          | Some e => Throw e
          | None =>
              let N := AudioProcessor.targetPeaks (buflen data) in
              let peaks := Sampler.extractRealAmplitudes data N in
              Ok (AudioProcessor.mkPeaks peaks
                    (AudioProcessor.estimatedDuration (buflen data))
                    44100 2 N 16)
          end
      end
  end /\
  (forall r, fst run = Ok r ->
             (100 <= AudioProcessor.length r <= 200)%Z /\
             Z.of_nat (List.length (AudioProcessor.peaks r))
             = AudioProcessor.length r) /\
  (forall e, fst run = Throw e ->
             exists before after,
               logged w (snd run)
                      (before ++ ["Audio processing error:"%string] ++ after)) /\
  (forall e, AudioProcessor.axios_get h audioUrl = Throw e ->
             logged w (snd run) ["Audio processing error:"%string]) /\
  (AudioProcessor.axios_get h audioUrl = Ok None ->
   logged w (snd run) ["Audio processing error:"%string]) /\
  AudioProcessor.draws (snd run) = AudioProcessor.draws w.
Proof.
  cbv zeta.
  pose proof (generatePeaks_cases h audioUrl videoId w) as Heq.
  destruct (generatePeaks_log h audioUrl videoId w) as (Hdraws & lines & Hlog).
  cbv zeta in Hdraws, Hlog. unfold logged.
  split; [exact Heq|]. split; [|split; [|split; [|split; [|exact Hdraws]]]].
  - intros r Hr. rewrite Heq in Hr.
    destruct (AudioProcessor.axios_get h audioUrl) as [[data|]|e];
      try discriminate.
    destruct (AudioProcessor.fs_writeFile_error h) as [e|]; [discriminate|].
    destruct (AudioProcessor.fs_readFile_error h) as [e|]; [discriminate|].
    cbv zeta in Hr. injection Hr as <-.
    cbn [AudioProcessor.length AudioProcessor.peaks].
    split; [apply targetPeaks_bounds|].
    apply extractRealAmplitudes_length.
    pose proof (targetPeaks_bounds (buflen data)). lia.
  - intros e He. rewrite Heq in He. rewrite Hlog.
    destruct (AudioProcessor.axios_get h audioUrl) as [[data|]|e'].
    + destruct (AudioProcessor.fs_writeFile_error h) as [e1|].
      * exists [], lines. reflexivity.
      * destruct (AudioProcessor.fs_readFile_error h) as [e2|]; [|discriminate].
        exists ["Peaks extraction error:"%string], lines. reflexivity.
    + exists [], []. reflexivity.
    + exists [], []. reflexivity.
  - intros e Hfail. rewrite Hlog, Hfail. reflexivity.
  - intros Hnone. rewrite Hlog, Hnone. reflexivity.
Qed.

Lemma generatePeaks_outcome_witness :
  (exists r,
     fst (AudioProcessor.generatePeaks Scenario.serving Scenario.assetUrl None
            Scenario.idle) = Ok r /\
     (100 <= AudioProcessor.length r <= 200)%Z /\
     Z.of_nat (List.length (AudioProcessor.peaks r)) = AudioProcessor.length r) /\
  fst (AudioProcessor.generatePeaks Scenario.unreadable Scenario.assetUrl None
         Scenario.idle) = Throw Scenario.EIO.
Proof.
  split;
    [|exact (proj1 (@generatePeaks_outcome Scenario.unreadable Scenario.assetUrl
                      None Scenario.idle))].
  assert (Hok :
    fst (AudioProcessor.generatePeaks Scenario.serving Scenario.assetUrl None
           Scenario.idle)
    = Ok (AudioProcessor.mkPeaks
            (Sampler.extractRealAmplitudes [x80; xff; x00]
               (AudioProcessor.targetPeaks 3))
            (AudioProcessor.estimatedDuration 3) 44100 2
            (AudioProcessor.targetPeaks 3) 16))
    by (rewrite generatePeaks_cases; reflexivity).
  eexists. split; [exact Hok|].
  exact (proj1 (proj2 (@generatePeaks_outcome Scenario.serving Scenario.assetUrl
                         None Scenario.idle)) _ Hok).
Defined.

(** ** The procedural generator *)

Section Generator.

Import AudioProcessor.
Local Open Scope R_scope.

Variable h : host.

Lemma pattern_keeps pt seed i p w :
  sameInputs (snd (pattern h pt seed i p w)) w /\
  (draws w <= draws (snd (pattern h pt seed i p w)))%nat.
Proof.
  unfold pattern, sameInputs, random.
  repeat match goal with
         | |- context [match ?x with _ => _ end] => destruct x
         end; cbn; auto.
Qed.

Lemma peakAt_keeps seed n i w :
  sameInputs (snd (peakAt h seed n i w)) w /\
  (draws w < draws (snd (peakAt h seed n i w)))%nat.
Proof.
  unfold peakAt.
  pose proof (pattern_keeps (Z.rem seed 4) seed i (IZR i / IZR n) w) as Hp.
  destruct (pattern h (Z.rem seed 4) seed i (IZR i / IZR n) w) as [a0 w1].
  cbn [snd] in Hp. destruct Hp as ((Hv & Hs) & Hd).
  unfold random. cbn [draws currentVideoId currentAudioSize].
  destruct (Rlt_dec (Math_random h (draws w1)) 0.05);
    unfold sameInputs; cbn; repeat split; try assumption; lia.
Qed.

Lemma forEach_peakAt_keeps seed n (l : list Z) :
  forall w,
    sameInputs (snd (forEach (peakAt h seed n) l w)) w /\
    (draws w + List.length l <= draws (snd (forEach (peakAt h seed n) l w)))%nat.
Proof.
  induction l as [|i l IH]; intros w.
  - cbn. unfold sameInputs. repeat split; lia.
  - cbn [forEach].
    pose proof (peakAt_keeps seed n i w) as Hp.
    destruct (peakAt h seed n i w) as [a w1]. cbn [snd] in Hp.
    specialize (IH w1).
    destruct (forEach (peakAt h seed n) l w1) as [l' w2]. cbn [snd] in IH |- *.
    destruct Hp as ((Hv & Hs) & Hd). destruct IH as ((Hv' & Hs') & Hd').
    unfold sameInputs. cbn [List.length]. repeat split; try congruence; lia.
Qed.

Lemma seedOf_sameInputs w1 w2 : sameInputs w1 w2 -> seedOf w1 = seedOf w2.
Proof. intros (Hv & Hs). unfold seedOf. now rewrite Hv, Hs. Qed.

(** One step in the sharp-peaks family, without and with the extra peak. *)
Lemma peakAt_sharp_plain seed n i w :
  Z.rem seed 4 = 1%Z ->
  ~ Math_random h (draws w) < 0.05 ->
  peakAt h seed n i w =
  (clampPeak (fade (IZR i / IZR n)
                   (sharpPeaks seed (IZR i / IZR n) + jitter seed i)),
   advance 1 w).
Proof.
  intros Hpt Hr. unfold peakAt. rewrite Hpt. cbn [pattern]. unfold random.
  destruct (Rlt_dec (Math_random h (draws w)) 0.05); [contradiction|].
  reflexivity.
Qed.

Lemma peakAt_sharp_bonus seed n i w :
  Z.rem seed 4 = 1%Z ->
  Math_random h (draws w) < 0.05 ->
  peakAt h seed n i w =
  (clampPeak (fade (IZR i / IZR n)
                   (sharpPeaks seed (IZR i / IZR n) + jitter seed i
                    + Math_random h (S (draws w)) * 0.4)),
   advance 2 w).
Proof.
  intros Hpt Hr. unfold peakAt. rewrite Hpt. cbn [pattern]. unfold random.
  cbn [draws]. destruct (Rlt_dec (Math_random h (draws w)) 0.05); [|contradiction].
  reflexivity.
Qed.

Lemma sharpPeaks_bounds seed p : 0 <= sharpPeaks seed p <= 2.
Proof.
  unfold sharpPeaks.
  set (x := p * PI * 12 + IZR seed * 0.001).
  set (y := p * PI * 40 + IZR seed * 0.003).
  pose proof (SIN_bound y) as [Hy1 Hy2].
  pose proof (Rabs_pos (sin x)) as Ha.
  assert (Hb : Rabs (sin x) <= 1).
  { apply Rabs_le. pose proof (SIN_bound x). lra. }
  nra.
Qed.

Lemma clampPeak_inside a : -1 <= a <= 1 -> clampPeak a = a.
Proof.
  intros [H1 H2]. unfold clampPeak.
  rewrite Rmin_right by exact H2. now rewrite Rmax_right.
Qed.

End Generator.

Section TwoInvocations.

Import AudioProcessor.
Local Open Scope R_scope.

Lemma upto_100 : upto 100 = 0%Z :: 1%Z :: range 2 99.
Proof. vm_compute. reflexivity. Qed.

Lemma seedOf_idle : seedOf Scenario.idle = 3905%Z.
Proof. vm_compute. reflexivity. Qed.

Lemma low_after_two k : (2 <= k)%nat -> Math_random Scenario.twoThenLow k = 1 / 100.
Proof.
  intros Hk. unfold Scenario.twoThenLow. cbn [Math_random].
  destruct (Nat.ltb_spec k 2); [lia|reflexivity].
Qed.

Lemma half_before_two k : (k < 2)%nat -> Math_random Scenario.twoThenLow k = 1 / 2.
Proof.
  intros Hk. unfold Scenario.twoThenLow. cbn [Math_random].
  destruct (Nat.ltb_spec k 2); [reflexivity|lia].
Qed.

(** The second value of the first invocation, started with no draw made. *)
Lemma second_peak_first_run w :
  draws w = 0%nat ->
  nth 1 (fst (forEach (peakAt Scenario.twoThenLow 3905 100) (upto 100) w)) 0
  = clampPeak (fade (1 / 100) (sharpPeaks 3905 (1 / 100) + jitter 3905 1)).
Proof.
  intros Hd. rewrite upto_100. cbn [forEach].
  rewrite (@peakAt_sharp_plain Scenario.twoThenLow 3905 100 0 w) by
      (try reflexivity; rewrite Hd, half_before_two by lia; lra).
  rewrite (@peakAt_sharp_plain Scenario.twoThenLow 3905 100 1 (advance 1 w)) by
      (try reflexivity; cbn [advance draws]; rewrite Hd, half_before_two by lia; lra).
  destruct (forEach _ (range 2 99) _) as [l w']. reflexivity.
Qed.

(** The second value of an invocation started after two draws or more. *)
Lemma second_peak_later_run w :
  (2 <= draws w)%nat ->
  nth 1 (fst (forEach (peakAt Scenario.twoThenLow 3905 100) (upto 100) w)) 0
  = clampPeak (fade (1 / 100)
                    (sharpPeaks 3905 (1 / 100) + jitter 3905 1 + 1 / 100 * 0.4)).
Proof.
  intros Hd. rewrite upto_100. cbn [forEach].
  rewrite (@peakAt_sharp_bonus Scenario.twoThenLow 3905 100 0 w) by
      (try reflexivity; rewrite low_after_two by lia; lra).
  rewrite (@peakAt_sharp_bonus Scenario.twoThenLow 3905 100 1 (advance 2 w)) by
      (try reflexivity; cbn [advance draws]; rewrite low_after_two by lia; lra).
  cbn [advance draws]. rewrite low_after_two by lia.
  destruct (forEach _ (range 2 99) _) as [l w']. reflexivity.
Qed.

Lemma second_peaks_differ :
  clampPeak (fade (1 / 100) (sharpPeaks 3905 (1 / 100) + jitter 3905 1))
  <> clampPeak (fade (1 / 100)
                     (sharpPeaks 3905 (1 / 100) + jitter 3905 1 + 1 / 100 * 0.4)).
Proof.
  pose proof (sharpPeaks_bounds 3905 (1 / 100)) as Hs.
  set (s := sharpPeaks 3905 (1 / 100)) in *.
  assert (Hj : jitter 3905 1 = 0.1218).
  { unfold jitter. replace (Z.rem (3905 + 1) 1000) with 906%Z by reflexivity. lra. }
  rewrite Hj. unfold fade.
  destruct (Rlt_dec (1 / 100) 0.05) as [_|Hn]; [|exfalso; apply Hn; lra].
  rewrite !clampPeak_inside by lra. lra.
Qed.

End TwoInvocations.

(** C2.  Two invocations of [generateRealisticPeaks] with the same video
    identifier, the same buffer length and the same peak count, one after
    the other: the generator calls [Math.random()] at every step, and the
    two sequences differ in their second value. *)
Theorem generateRealisticPeaks_differs_between_invocations :
  let first := AudioProcessor.generateRealisticPeaks
                 Scenario.twoThenLow 100 30 Scenario.idle in
  let second := AudioProcessor.generateRealisticPeaks
                  Scenario.twoThenLow 100 30 (snd first) in
  sameInputs (snd first) Scenario.idle /\
  fst first <> fst second.
Proof.
  cbv zeta. unfold AudioProcessor.generateRealisticPeaks.
  pose proof (forEach_peakAt_keeps Scenario.twoThenLow
                (AudioProcessor.seedOf Scenario.idle) 100 (upto 100) Scenario.idle)
    as (Hsame & Hdraws).
  split; [exact Hsame|].
  rewrite (seedOf_sameInputs Hsame). rewrite seedOf_idle in *.
  intros Heq. apply (f_equal (fun l => nth 1 l 0%R)) in Heq.
  rewrite second_peak_first_run in Heq by reflexivity.
  rewrite second_peak_later_run in Heq.
  - exact (second_peaks_differ Heq).
  - rewrite upto_length in Hdraws.
    change (AudioProcessor.draws Scenario.idle) with 0%nat in Hdraws. lia.
Qed.

(* ================================================================== *)
(** * Further properties of the code *)

(** ** Polling: outcome and waits *)

Section PollingMore.

Import YouTubeService.
Local Open Scope Z_scope.

Variable net : Z -> probe.
Variable url : js_string.
Variable maxAttempts : Z.

Lemma probe_split attempt :
  axios_head 10000 (net attempt) = (probeTime net attempt, probeReply net attempt).
Proof. unfold probeTime, probeReply. now destruct (axios_head 10000 (net attempt)). Qed.

Lemma poll_probes_lower (remaining : nat) :
  forall attempt clock ws,
    attempt - 1 <= probes (poll net url maxAttempts remaining attempt clock ws)
    <= attempt - 1 + Z.of_nat remaining.
Proof.
  induction remaining as [|rem IH]; intros attempt clock ws; cbn [poll].
  - cbn. lia.
  - rewrite probe_split.
    destruct (probeReply net attempt) as [e|status].
    + destruct (attempt <? maxAttempts);
        match goal with
        | |- context [poll _ _ _ rem ?a ?c ?w] => specialize (IH a c w); lia
        end.
    + destruct (status =? 200); [cbn; lia|].
      specialize (IH (attempt + 1) (clock + probeTime net attempt) ws). lia.
Qed.

(** The outcome of the loop started at [attempt]. *)
Lemma poll_outcome (remaining : nat) :
  forall attempt clock ws,
    let run := poll net url maxAttempts remaining attempt clock ws in
    (outcome run = Ok url /\
     attempt <= probes run < attempt + Z.of_nat remaining /\
     isReady (probeReply net (probes run)) = true /\
     forall j, attempt <= j < probes run -> isReady (probeReply net j) = false)
    \/
    (outcome run = Throw exhausted /\
     probes run = attempt - 1 + Z.of_nat remaining /\
     forall j, attempt <= j < attempt + Z.of_nat remaining ->
               isReady (probeReply net j) = false).
Proof.
  induction remaining as [|rem IH]; intros attempt clock ws; cbn [poll].
  - right. cbn. repeat split; intros; lia.
  - rewrite probe_split.
    assert (Hgo : forall clock' ws',
      isReady (probeReply net attempt) = false ->
      let run := poll net url maxAttempts rem (attempt + 1) clock' ws' in
      (outcome run = Ok url /\
       attempt <= probes run < attempt + Z.of_nat (S rem) /\
       isReady (probeReply net (probes run)) = true /\
       forall j, attempt <= j < probes run -> isReady (probeReply net j) = false)
      \/
      (outcome run = Throw exhausted /\
       probes run = attempt - 1 + Z.of_nat (S rem) /\
       forall j, attempt <= j < attempt + Z.of_nat (S rem) ->
                 isReady (probeReply net j) = false)).
    { intros clock' ws' Hhere.
      destruct (IH (attempt + 1) clock' ws') as [(Ho & Hp & Hr & Hb)|(Ho & Hp & Hb)].
      - left. repeat split; try assumption; try lia.
        intros j Hj. destruct (Z.eq_dec j attempt) as [->|Hne]; [exact Hhere|].
        apply Hb. lia.
      - right. repeat split; try assumption; try lia.
        intros j Hj. destruct (Z.eq_dec j attempt) as [->|Hne]; [exact Hhere|].
        apply Hb. lia. }
    destruct (probeReply net attempt) as [e|status] eqn:Hreply.
    + destruct (attempt <? maxAttempts); apply Hgo; reflexivity.
    + destruct (status =? 200) eqn:E.
      * left. cbn [outcome probes].
        split; [reflexivity|]. split; [lia|]. split.
        -- rewrite Hreply. exact E.
        -- intros j Hj. lia.
      * apply Hgo. exact E.
Qed.

(** The waits of the loop started at [attempt]. *)
Lemma poll_waits (remaining : nat) :
  forall attempt clock ws,
    let run := poll net url maxAttempts remaining attempt clock ws in
    waits run
    = ws ++ map scheduledWait
                (filter (waitedAfter net maxAttempts) (range attempt (probes run))).
Proof.
  induction remaining as [|rem IH]; intros attempt clock ws; cbn [poll].
  - cbn [waits probes]. rewrite range_nil by lia. cbn. now rewrite app_nil_r.
  - rewrite probe_split.
    assert (Hgo : forall clock' ws',
      let run := poll net url maxAttempts rem (attempt + 1) clock' ws' in
      range attempt (probes run) = attempt :: range (attempt + 1) (probes run)).
    { intros clock' ws'. cbv zeta. apply range_cons.
      pose proof (poll_probes_lower rem (attempt + 1) clock' ws'). lia. }
    destruct (probeReply net attempt) as [e|status] eqn:Hreply.
    + destruct (attempt <? maxAttempts) eqn:E.
      * cbv zeta. rewrite IH, Hgo. cbn [filter].
        unfold waitedAfter at 2. rewrite Hreply, E. cbn [threw andb map].
        rewrite <- app_assoc. reflexivity.
      * rewrite IH, Hgo. cbn [filter].
        unfold waitedAfter at 2. rewrite Hreply, E. reflexivity.
    + destruct (status =? 200).
      * cbn [waits probes]. rewrite (@range_cons attempt attempt) by lia.
        rewrite range_nil by lia. cbn [filter].
        unfold waitedAfter. rewrite Hreply. cbn. now rewrite app_nil_r.
      * rewrite IH, Hgo. cbn [filter].
        unfold waitedAfter at 2. rewrite Hreply. reflexivity.
Qed.

End PollingMore.

(** X1.  [waitForConversion] returns the very URL it was given, at the
    first attempt whose probe answers 200, or else throws the exhaustion
    error after [maxAttempts] probes (none at all when [maxAttempts] is
    not positive).  Whatever error a probe raised is swallowed: the caller
    never sees it. *)
Theorem waitForConversion_outcome
        (net : Z -> YouTubeService.probe) (url : js_string) (maxAttempts : Z) :
  let run := YouTubeService.waitForConversion net url maxAttempts in
  (YouTubeService.outcome run = Ok url /\
   (1 <= YouTubeService.probes run <= maxAttempts)%Z /\
   isReady (probeReply net (YouTubeService.probes run)) = true /\
   forall j, (1 <= j < YouTubeService.probes run)%Z ->
             isReady (probeReply net j) = false)
  \/
  (YouTubeService.outcome run = Throw YouTubeService.exhausted /\
   YouTubeService.probes run = Z.max 0 maxAttempts /\
   forall j, (1 <= j <= maxAttempts)%Z -> isReady (probeReply net j) = false).
Proof.
  unfold YouTubeService.waitForConversion.
  destruct (poll_outcome net url maxAttempts (Z.to_nat maxAttempts) 1 0 [])
    as [(Ho & Hp & Hr & Hb)|(Ho & Hp & Hb)].
  - left. repeat split; try assumption; lia.
  - right. repeat split; try assumption; try lia.
    intros j Hj. apply Hb. lia.
Qed.

(** X2.  The loop waits after an attempt exactly when the probe of that
    attempt threw and the attempt was not the last allowed one, and the
    wait after attempt [j] is [min(5000, 1000 * j)].  So every wait lies
    between 1 and 5 seconds, and the waits never add up to more than the
    progressive schedule of [maxAttempts - 1] retries. *)
Theorem waitForConversion_waits
        (net : Z -> YouTubeService.probe) (url : js_string) (maxAttempts : Z) :
  let run := YouTubeService.waitForConversion net url maxAttempts in
  YouTubeService.waits run
  = map YouTubeService.scheduledWait
        (filter (waitedAfter net maxAttempts)
                (range 1 (YouTubeService.probes run))) /\
  Forall (fun w => (1000 <= w <= 5000)%Z) (YouTubeService.waits run) /\
  (YouTubeService.Zsum (YouTubeService.waits run)
   <= YouTubeService.Zsum (YouTubeService.waitSchedule 1 (maxAttempts - 1)))%Z.
Proof.
  cbv zeta.
  pose proof (poll_waits net url maxAttempts (Z.to_nat maxAttempts) 1 0 [])
    as Hw. cbv zeta in Hw. cbn [app] in Hw.
  fold (YouTubeService.waitForConversion net url maxAttempts) in Hw.
  set (run := YouTubeService.waitForConversion net url maxAttempts) in *.
  split; [exact Hw|]. split.
  - rewrite Hw. apply Forall_forall. intros w Hin.
    apply in_map_iff in Hin. destruct Hin as (j & <- & Hj).
    apply filter_In in Hj. destruct Hj as (Hj & _).
    apply range_In in Hj. unfold YouTubeService.scheduledWait. lia.
  - rewrite Hw. unfold YouTubeService.waitSchedule.
    pose proof (poll_probes_lower net url maxAttempts (Z.to_nat maxAttempts) 1 0 [])
      as Hp.
    fold (YouTubeService.waitForConversion net url maxAttempts) in Hp.
    fold run in Hp.
    assert (Hgen : forall l,
      (forall j, In j l -> (1 <= j)%Z) ->
      (YouTubeService.Zsum
         (map YouTubeService.scheduledWait
              (filter (waitedAfter net maxAttempts) l))
       <= YouTubeService.Zsum
            (map YouTubeService.scheduledWait
                 (filter (fun j => (j <? maxAttempts)%Z) l)))%Z).
    { induction l as [|j l IHl]; intros Hl; [cbn; lia|].
      assert (Hj : (1 <= j)%Z) by (apply Hl; now left).
      specialize (IHl (fun x Hx => Hl x (or_intror Hx))).
      cbn [filter]. unfold waitedAfter at 1.
      assert (Hs : (0 <= YouTubeService.scheduledWait j)%Z)
        by (unfold YouTubeService.scheduledWait; lia).
      destruct (threw (probeReply net j)), (j <? maxAttempts)%Z;
        cbn [andb map]; unfold YouTubeService.Zsum in *; cbn [fold_right]; lia. }
    etransitivity; [apply Hgen; intros j Hj; apply range_In in Hj; lia|].
    assert (Hfilter : forall a b,
      (1 <= a)%Z -> (b <= maxAttempts)%Z ->
      (YouTubeService.Zsum
         (map YouTubeService.scheduledWait
              (filter (fun j => (j <? maxAttempts)%Z) (range a b)))
       <= YouTubeService.Zsum
            (map YouTubeService.scheduledWait (range a (maxAttempts - 1))))%Z).
    { intros a b Ha Hb.
      destruct (Z_le_gt_dec a b) as [Hab|Hab];
        [|rewrite (@range_nil a b) by lia; cbn;
          apply (@waitSchedule_nonneg a (maxAttempts - 1)%Z Ha)].
      remember (Z.to_nat (b - a + 1)) as n eqn:Hn.
      revert a Ha Hab Hn. induction n as [|n IHn]; intros a Ha Hab Hn; [lia|].
      rewrite (@range_cons a b) by lia. cbn [filter].
      destruct (a <? maxAttempts)%Z eqn:E.
      - apply Z.ltb_lt in E. rewrite (@range_cons a (maxAttempts - 1)%Z) by lia.
        cbn [map]. unfold YouTubeService.Zsum. cbn [fold_right].
        destruct (Z_le_gt_dec (a + 1) b) as [H1|H1].
        + specialize (IHn (a + 1)%Z ltac:(lia) H1 ltac:(lia)).
          unfold YouTubeService.Zsum in IHn. lia.
        + rewrite (@range_nil (a + 1)%Z b) by lia. cbn.
          pose proof (@waitSchedule_nonneg (a + 1)%Z (maxAttempts - 1)%Z ltac:(lia)) as Hnn.
          unfold YouTubeService.Zsum, YouTubeService.waitSchedule in Hnn. lia.
      - apply Z.ltb_ge in E. assert (a = b) by lia. subst b.
        rewrite (@range_nil (a + 1)%Z a) by lia. cbn.
        apply (@waitSchedule_nonneg a (maxAttempts - 1)%Z Ha). }
    destruct (Z_lt_ge_dec (YouTubeService.probes run) 1) as [Hnone|Hsome].
    + rewrite range_nil by lia. cbn.
      apply (@waitSchedule_nonneg 1 (maxAttempts - 1)%Z). lia.
    + apply Hfilter; lia.
Qed.

(** ** The SSE monitor: quiet streams, terminal events, the observer *)

Section MonitorMore.

Import YouTubeService.
Local Open Scope Z_scope.

Variable cb : option (json -> bool).

Lemma handle_not_terminal now ev m :
  terminal cb ev = false -> control (handle cb now ev m) = control m.
Proof.
  destruct m as [st cl tm co ob]. unfold terminal, handle.
  destruct ev as [[|data]|]; try discriminate; [reflexivity|].
  unfold onmessage.
  destruct cb as [g|]; [destruct (g data)|]; cbn [andb];
    destruct data as [| |d]; try reflexivity; try discriminate.
  all: destruct (statusIs d "completed" && truthy (downloadUrl d));
    [discriminate|]; cbn [orb];
    destruct (statusIs d "error"); [discriminate|]; cbn [orb];
    intros ->; reflexivity.
Qed.

Lemma handle_terminal now ev m :
  pending m -> now <= sseTimeoutMs -> terminal cb ev = true ->
  finished (handle cb now ev m) /\ exists s, settled (handle cb now ev m) = Some (now, s).
Proof.
  intros Hp Hnow Ht. destruct ev as [f|].
  - destruct (@onmessage_cases cb now f m Hp Hnow) as [Hctl|H]; [|exact H].
    exfalso. destruct m as [st cl tm co ob]. destruct Hp as (Hs & Hc & Htm).
    cbn in Hs, Hc, Htm. subst st cl tm.
    unfold terminal in Ht. unfold control, onmessage in Hctl.
    destruct f as [|data]; [discriminate|].
    destruct cb as [g|]; [destruct (g data)|]; cbn [andb] in Ht;
      destruct data as [| |d]; try discriminate.
    all: destruct (statusIs d "completed" && truthy (downloadUrl d));
      [cbn in Hctl; discriminate|]; cbn [orb] in Ht; rewrite Ht in Hctl;
      cbn in Hctl; discriminate.
  - destruct (@onerror_finished now m Hp Hnow) as (Hf & Hs). split; eauto.
Qed.

Lemma step_handle now ev m :
  pending m -> now < sseTimeoutMs -> deliver cb [(now, ev)] m = handle cb now ev m.
Proof. intros Hp Hnow. now rewrite step_pending. Qed.

Lemma quiet_deliver events :
  quiet cb events ->
  forall m, pending m ->
    pending (deliver cb events m) \/
    (finished (deliver cb events m) /\
     settled (deliver cb events m) = Some (sseTimeoutMs, Rejected timeoutError)).
Proof.
  induction 1 as [|[now ev] events Hev _ IH]; intros m Hp; [now left|].
  cbn [deliver]. cbn [fst snd] in Hev.
  destruct (tick_cases now Hp) as [(Hnow & ->)|(Hnow & Hfin)].
  - destruct Hp as (Hs & Hc & Ht). rewrite Hc.
    assert (Hp : pending m) by now repeat split.
    apply IH. eapply control_pending; [|exact Hp].
    apply (handle_not_terminal now ev m (Hev Hnow)).
  - right.
    assert (Hs : settled (tick now m) = Some (sseTimeoutMs, Rejected timeoutError)).
    { unfold tick. destruct Hp as (Hs & Hc & Ht). rewrite Ht.
      replace (sseTimeoutMs <=? now) with true by (symmetry; apply Z.leb_le; lia).
      cbn. now rewrite Hs. }
    pose proof Hfin as (Hc & _). rewrite Hc.
    rewrite (deliver_finished cb events Hfin). split; assumption.
Qed.

Lemma observed_prefix (f : json -> bool) events :
  forall m, pending m \/ finished m ->
    exists seen rest,
      payloads events = seen ++ rest /\
      observed (deliver (Some f) events m) = observed m ++ seen.
Proof.
  induction events as [|[now ev] events IH]; intros m Hm.
  - exists [], []. cbn. now rewrite app_nil_r.
  - destruct Hm as [Hp|Hf].
    + cbn [deliver].
      destruct (tick_cases now Hp) as [(Hnow & ->)|(Hnow & Hfin)].
      * destruct Hp as (Hs & Hc & Ht). rewrite Hc.
        assert (Hp : pending m) by now repeat split.
        destruct ev as [[|data]|].
        -- destruct (IH (onmessage (Some f) now Malformed m)) as (seen & rest & H1 & H2).
           { left. eapply control_pending; [|exact Hp]. reflexivity. }
           exists seen, rest. split; [exact H1|]. rewrite H2. reflexivity.
        -- destruct (IH (onmessage (Some f) now (WellFormed data) m))
             as (seen & rest & H1 & H2).
           { destruct (@onmessage_cases (Some f) now (WellFormed data) m Hp ltac:(lia))
               as [Hctl|(Hfin & _)]; [left|right; exact Hfin].
             exact (control_pending Hctl Hp). }
           exists (data :: seen), rest. split; [cbn [payloads app]; now rewrite H1|].
           rewrite H2.
           assert (Hobs : observed (onmessage (Some f) now (WellFormed data) m)
                          = observed m ++ [data]).
           { destruct m as [st cl tm co ob]. unfold onmessage.
             destruct (f data); destruct data as [| |d]; try reflexivity.
             destruct (statusIs d "completed" && truthy (downloadUrl d));
               [reflexivity|].
             destruct (statusIs d "error" || statusIs d "failed"); reflexivity. }
           rewrite Hobs, <- app_assoc. reflexivity.
        -- destruct (@onerror_finished now m Hp ltac:(lia)) as (Hfin & _).
           rewrite (deliver_finished (Some f) events Hfin).
           exists [], (payloads ((now, OnError) :: events)).
           split; [reflexivity|]. rewrite app_nil_r.
           destruct m as [st cl tm co ob]. reflexivity.
      * pose proof Hfin as (Hc & _). rewrite Hc.
        rewrite (deliver_finished (Some f) events Hfin).
        exists [], (payloads ((now, ev) :: events)).
        split; [reflexivity|]. rewrite app_nil_r.
        unfold tick. destruct (timer m && (sseTimeoutMs <=? now)); [|reflexivity].
        destruct m as [st cl tm co ob]. reflexivity.
    + rewrite (deliver_finished (Some f) _ Hf).
      exists [], (payloads ((now, ev) :: events)).
      split; [reflexivity|]. now rewrite app_nil_r.
Qed.

End MonitorMore.

(** X4.  A stream in which nothing settles the promise before the timer
    (progress reports, malformed frames, [completed] events without a
    URL, events on which the observer throws, anything arriving late)
    ends with the timer: the promise is rejected at 300000 ms with
    [Conversion timeout: Process took too long]. *)
Theorem quiet_stream_times_out
        (cb : option (YouTubeService.json -> bool))
        (events : list (Z * YouTubeService.sse_event))
        (Hquiet : quiet cb events) :
  YouTubeService.settled (YouTubeService.monitorConversionProgress cb events)
  = Some (YouTubeService.sseTimeoutMs,
          YouTubeService.Rejected
            (Error (str "Conversion timeout: Process took too long"))).
Proof.
  unfold YouTubeService.monitorConversionProgress.
  destruct (@quiet_deliver cb events Hquiet YouTubeService.start
              pending_or_finished_start) as [Hp|(Hf & Hs)].
  - destruct Hp as (Hs & Hc & Ht). rewrite Ht.
    unfold YouTubeService.ontimeout. cbn. now rewrite Hs.
  - destruct Hf as (_ & Ht & _). rewrite Ht. exact Hs.
Qed.

Lemma quiet_stream_times_out_witness :
  quiet None Scenario2.stalledEvents /\
  YouTubeService.settled
    (YouTubeService.monitorConversionProgress None Scenario2.stalledEvents)
  = Some (300000%Z,
          YouTubeService.Rejected
            (Error (str "Conversion timeout: Process took too long"))).
Proof.
  assert (Hq : quiet None Scenario2.stalledEvents).
  { unfold quiet, Scenario2.stalledEvents.
    repeat constructor; cbn [fst snd]; intros H;
      first [reflexivity | exfalso; revert H; vm_compute; discriminate]. }
  split; [exact Hq|].
  exact (@quiet_stream_times_out None Scenario2.stalledEvents Hq).
Defined.

(** X5.  The first terminal event decides the run.  When an event that is
    terminal arrives while the promise is pending and before the timer,
    the promise settles at that instant and the monitor is left exactly
    as that event left it: later events are neither handled, logged nor
    shown to the observer.  A connection error rejects with
    [SSE connection failed]. *)
Theorem first_terminal_event_decides
        (cb : option (YouTubeService.json -> bool))
        (pre post : list (Z * YouTubeService.sse_event)) (now : Z)
        (ev : YouTubeService.sse_event)
        (Hpre : YouTubeService.settled
                  (YouTubeService.deliver cb pre YouTubeService.start) = None)
        (Hnow : (now < YouTubeService.sseTimeoutMs)%Z)
        (Hterminal : terminal cb ev = true) :
  YouTubeService.monitorConversionProgress cb (pre ++ (now, ev) :: post)
  = YouTubeService.deliver cb (pre ++ [(now, ev)]) YouTubeService.start /\
  (exists s,
      YouTubeService.settled
        (YouTubeService.monitorConversionProgress cb (pre ++ (now, ev) :: post))
      = Some (now, s)) /\
  (ev = YouTubeService.OnError ->
   YouTubeService.settled
     (YouTubeService.monitorConversionProgress cb (pre ++ (now, ev) :: post))
   = Some (now, YouTubeService.Rejected (Error (str "SSE connection failed")))).
Proof.
  pose proof (settled_none_pending cb pre Hpre) as Hp.
  destruct (@handle_terminal cb now ev _ Hp ltac:(lia) Hterminal) as (Hf & s & Hs).
  assert (Hrun :
    YouTubeService.monitorConversionProgress cb (pre ++ (now, ev) :: post)
    = handle cb now ev (YouTubeService.deliver cb pre YouTubeService.start)).
  { unfold YouTubeService.monitorConversionProgress.
    change ((now, ev) :: post) with ([(now, ev)] ++ post).
    rewrite !deliver_app, step_handle by assumption.
    rewrite (deliver_finished cb post Hf).
    destruct Hf as (_ & -> & _). reflexivity. }
  rewrite Hrun. split; [|split].
  - now rewrite deliver_app, step_handle.
  - now exists s.
  - intros ->. cbn [handle].
    now destruct (@onerror_finished now _ Hp ltac:(lia)) as (_ & ->).
Qed.

Lemma first_terminal_event_decides_witness :
  YouTubeService.settled
    (YouTubeService.deliver None Scenario.earlyEvents YouTubeService.start) = None /\
  (4000 < YouTubeService.sseTimeoutMs)%Z /\
  terminal None YouTubeService.OnError = true /\
  YouTubeService.settled
    (YouTubeService.monitorConversionProgress None
       (Scenario.earlyEvents ++ (4000%Z, YouTubeService.OnError)
        :: Scenario.lateEvents))
  = Some (4000%Z, YouTubeService.Rejected (Error (str "SSE connection failed"))).
Proof.
  assert (Hpre : YouTubeService.settled
                   (YouTubeService.deliver None Scenario.earlyEvents
                      YouTubeService.start) = None) by reflexivity.
  assert (Hnow : (4000 < YouTubeService.sseTimeoutMs)%Z) by reflexivity.
  assert (Ht : terminal None YouTubeService.OnError = true) by reflexivity.
  split; [exact Hpre|]. split; [exact Hnow|]. split; [exact Ht|].
  exact (proj2 (proj2 (@first_terminal_event_decides None Scenario.earlyEvents
                         Scenario.lateEvents 4000 YouTubeService.OnError
                         Hpre Hnow Ht)) eq_refl).
Defined.

(** X6.  The observer sees well-formed payloads only, in arrival order and
    without gaps: what it has been shown at the end of a run is an initial
    segment of the well-formed payloads of the stream. *)
Theorem observer_sees_initial_segment
        (f : YouTubeService.json -> bool)
        (events : list (Z * YouTubeService.sse_event)) :
  exists rest,
    payloads events
    = YouTubeService.observed
        (YouTubeService.monitorConversionProgress (Some f) events) ++ rest.
Proof.
  destruct (@observed_prefix f events YouTubeService.start
              (or_introl pending_or_finished_start)) as (seen & rest & H1 & H2).
  exists rest. rewrite H1. f_equal.
  unfold YouTubeService.monitorConversionProgress.
  destruct (YouTubeService.timer _); [|exact (eq_sym H2)].
  unfold YouTubeService.ontimeout. cbn [YouTubeService.observed].
  unfold YouTubeService.settle, YouTubeService.close.
  cbn [YouTubeService.observed]. exact (eq_sym H2).
Qed.

(** ** The sampler: silence, the peak count *)

Section SamplerMore.

Import Sampler.

Lemma sampleChunk_silence (b : Buffer) (fuel : nat) :
  Forall (eq x80) b ->
  forall j e s c, (0 <= j)%Z -> fst (sampleChunk fuel b j e s c) = s.
Proof.
  intros Hb. induction fuel as [|fuel IH]; intros j e s c Hj; cbn [sampleChunk];
    [reflexivity|].
  destruct (j <? e)%Z; [|reflexivity].
  destruct (j <? buflen b - 1)%Z eqn:E.
  - apply Z.ltb_lt in E. unfold buflen in E.
    assert (Hbyte : byteAt b j = 128%Z).
    { unfold byteAt. rewrite Forall_forall in Hb.
      rewrite <- (Hb (nth (Z.to_nat j) b x00)); [reflexivity|].
      apply nth_In. lia. }
    rewrite Hbyte. cbn [Z.sub Z.mul]. rewrite IH by lia. simpl. lia.
  - apply IH. lia.
Qed.

Lemma Zfloor_div (n d : Z) : (0 < d)%Z -> Zfloor (IZR n / IZR d) = (n / d)%Z.
Proof.
  intros Hd. apply Zfloor_eq.
  pose proof (Z.div_mod n d ltac:(lia)) as Hdm.
  pose proof (Z.mod_pos_bound n d Hd) as Hm.
  assert (HdR : (0 < IZR d)%R) by (apply IZR_lt; lia).
  assert (Hn : IZR n = (IZR d * IZR (n / d) + IZR (n mod d))%R).
  { rewrite <- mult_IZR, <- plus_IZR. now f_equal. }
  assert (Hm0 : (0 <= IZR (n mod d))%R) by (apply IZR_le; lia).
  assert (Hm1 : (IZR (n mod d) < IZR d)%R) by (apply IZR_lt; lia).
  split.
  - apply Rmult_le_reg_r with (r := IZR d); [exact HdR|].
    unfold Rdiv. rewrite Rmult_assoc, Rinv_l by lra. nra.
  - apply Rmult_lt_reg_r with (r := IZR d); [exact HdR|].
    unfold Rdiv. rewrite Rmult_assoc, Rinv_l by lra. nra.
Qed.

Lemma Zfloor_Rmax (a : Z) (x : R) : Zfloor (Rmax (IZR a) x) = Z.max a (Zfloor x).
Proof.
  unfold Rmax. destruct (Rle_dec (IZR a) x) as [H|H].
  - pose proof (Zfloor_lub a x H). lia.
  - rewrite ZfloorZ.
    assert (Hx : (Zfloor x <= a)%Z).
    { rewrite <- (ZfloorZ a). apply Zfloor_le. lra. }
    lia.
Qed.

Lemma Zfloor_Rmin (a : Z) (x : R) : Zfloor (Rmin (IZR a) x) = Z.min a (Zfloor x).
Proof.
  unfold Rmin. destruct (Rle_dec (IZR a) x) as [H|H].
  - rewrite ZfloorZ. pose proof (Zfloor_lub a x H). lia.
  - assert (Hx : (Zfloor x <= a)%Z).
    { rewrite <- (ZfloorZ a). apply Zfloor_le. lra. }
    lia.
Qed.

End SamplerMore.

(** X8.  Silence in, silence out: a buffer whose bytes all sit at the
    centre value 128 gives peaks that are all [0], whatever the number of
    peaks asked for. *)
Theorem silent_buffer_gives_zero_peaks (audioBuffer : Buffer) (targetPeaks : Z)
        (Hsilent : Forall (eq x80) audioBuffer) :
  Forall (eq 0%R) (Sampler.extractRealAmplitudes audioBuffer targetPeaks).
Proof.
  unfold Sampler.extractRealAmplitudes. apply smoothPeaks_zeros.
  apply Forall_forall. intros v Hv. unfold Sampler.rawAmplitudes in Hv.
  apply in_map_iff in Hv. destruct Hv as (i & <- & Hi). apply upto_In in Hi.
  set (chunkSize := Math_floor (IZR (buflen audioBuffer) / IZR targetPeaks)).
  assert (Hcs : (0 <= chunkSize)%Z).
  { unfold chunkSize, Math_floor. rewrite Zfloor_div by lia.
    apply Z.div_pos; [unfold buflen|]; lia. }
  unfold Sampler.chunkPeak.
  pose proof (@sampleChunk_silence audioBuffer
                (Z.to_nat (Z.min (i * chunkSize + chunkSize) (buflen audioBuffer)
                           - i * chunkSize))
                Hsilent (i * chunkSize)%Z
                (Z.min (i * chunkSize + chunkSize) (buflen audioBuffer)) 0%Z 0%Z
                ltac:(nia)) as Hsum.
  destruct (Sampler.sampleChunk _ _ _ _ _ _) as [sum count].
  cbn [fst] in Hsum. subst sum.
  destruct (0 <? count)%Z.
  - unfold Rdiv at 2. rewrite Rmult_0_l, sqrt_0. unfold Rdiv.
    rewrite Rmult_0_l. symmetry. apply Rmin_right. lra.
  - unfold Rdiv. rewrite Rmult_0_l. symmetry. apply Rmin_right. lra.
Qed.

Lemma silent_buffer_gives_zero_peaks_witness :
  Forall (eq x80) (repeat x80 50) /\
  Forall (eq 0%R) (Sampler.extractRealAmplitudes (repeat x80 50) 5).
Proof.
  assert (H : Forall (eq x80) (repeat x80 50))
    by (apply Forall_forall; intros x Hx; symmetry; exact (repeat_spec _ _ _ Hx)).
  split; [exact H|].
  exact (@silent_buffer_gives_zero_peaks (repeat x80 50) 5 H).
Defined.

(** X9.  The number of peaks depends on the size of the file through the
    integer quotient [fileSize / 20000] alone: it is that quotient kept
    between 100 and 200.  So every file under 2 020 000 bytes gets 100
    peaks, every file of 4 000 000 bytes or more gets 200, and a larger
    file never gets fewer peaks than a smaller one. *)
Theorem targetPeaks_by_file_size (fileSize : Z) :
  AudioProcessor.targetPeaks fileSize
  = Z.min 200 (Z.max 100 (fileSize / 20000)) /\
  ((fileSize < 2020000)%Z -> AudioProcessor.targetPeaks fileSize = 100%Z) /\
  ((4000000 <= fileSize)%Z -> AudioProcessor.targetPeaks fileSize = 200%Z) /\
  forall larger, (fileSize <= larger)%Z ->
                 (AudioProcessor.targetPeaks fileSize
                  <= AudioProcessor.targetPeaks larger)%Z.
Proof.
  assert (Hform : forall n,
    AudioProcessor.targetPeaks n = Z.min 200 (Z.max 100 (n / 20000))).
  { intros n. unfold AudioProcessor.targetPeaks, AudioProcessor.estimatedDuration.
    rewrite Rmult_1_r. unfold Math_floor.
    rewrite Zfloor_Rmax, Zfloor_Rmin.
    replace (IZR n / 20000)%R with (IZR n / IZR 20000)%R by reflexivity.
    rewrite Zfloor_div by lia. lia. }
  split; [apply Hform|]. split; [|split].
  - intros H. rewrite Hform.
    assert (fileSize / 20000 < 101)%Z by (apply Z.div_lt_upper_bound; lia). lia.
  - intros H. rewrite Hform.
    assert (200 <= fileSize / 20000)%Z by (apply Z.div_le_lower_bound; lia). lia.
  - intros larger H. rewrite !Hform.
    pose proof (Z.div_le_mono fileSize larger 20000 ltac:(lia) H). lia.
Qed.

(** ** [normalizePeaks] *)

Section Normalize.

Import PeakArrays.
Local Open Scope R_scope.

Lemma fold_left_Rmax_ge (l : list R) :
  forall acc, acc <= fold_left Rmax l acc /\
              forall x, In x l -> x <= fold_left Rmax l acc.
Proof.
  induction l as [|y l IH]; intros acc; cbn [fold_left].
  - split; [lra|]. intros x [].
  - destruct (IH (Rmax acc y)) as (H1 & H2).
    pose proof (Rmax_l acc y). pose proof (Rmax_r acc y).
    split; [lra|]. intros x [<-|Hx]; [lra|now apply H2].
Qed.

Lemma fold_left_Rmax_attained (l : list R) :
  forall acc, fold_left Rmax l acc = acc \/ In (fold_left Rmax l acc) l.
Proof.
  induction l as [|y l IH]; intros acc; cbn [fold_left]; [now left|].
  destruct (IH (Rmax acc y)) as [H|H].
  - rewrite H. unfold Rmax. destruct (Rle_dec acc y); [right; now left|now left].
  - right. now right.
Qed.

Lemma fold_left_Rmax_scale (c : R) (l : list R) :
  0 < c ->
  forall acc, fold_left Rmax (map (fun x => x / c) l) (acc / c)
              = fold_left Rmax l acc / c.
Proof.
  intros Hc. induction l as [|y l IH]; intros acc; cbn [fold_left map];
    [reflexivity|].
  rewrite <- IH. f_equal.
  unfold Rmax. destruct (Rle_dec (acc / c) (y / c)) as [H|H],
                        (Rle_dec acc y) as [H'|H']; try reflexivity; exfalso.
  - apply H'. apply Rmult_le_reg_r with (r := / c);
      [now apply Rinv_0_lt_compat|exact H].
  - apply H. apply Rmult_le_compat_r; [|exact H'].
    left. now apply Rinv_0_lt_compat.
Qed.

Lemma Rabs_le_between (x m : R) : Rabs x <= m -> - m <= x <= m.
Proof. unfold Rabs. destruct (Rcase_abs x); lra. Qed.

Lemma maxAbs_bounds (peaks : list R) :
  0 <= maxAbs peaks /\ forall p, In p peaks -> Rabs p <= maxAbs peaks.
Proof.
  destruct peaks as [|p rest]; cbn [maxAbs].
  - split; [lra|]. intros p [].
  - destruct (fold_left_Rmax_ge (map Rabs rest) (Rabs p)) as (H1 & H2).
    pose proof (Rabs_pos p). split; [lra|].
    intros q [<-|Hq]; [exact H1|]. apply H2. now apply in_map.
Qed.

Lemma maxAbs_attained (peaks : list R) :
  peaks <> [] -> exists p, In p peaks /\ Rabs p = maxAbs peaks.
Proof.
  destruct peaks as [|p rest]; [contradiction|]. intros _. cbn [maxAbs].
  destruct (fold_left_Rmax_attained (map Rabs rest) (Rabs p)) as [H|H].
  - exists p. split; [now left|now rewrite H].
  - apply in_map_iff in H. destruct H as (q & Hq & Hin).
    exists q. split; [now right|exact Hq].
Qed.

Lemma maxAbs_scale (c : R) (peaks : list R) :
  0 < c -> maxAbs (map (fun p => p / c) peaks) = maxAbs peaks / c.
Proof.
  intros Hc. destruct peaks as [|p rest]; cbn [maxAbs map].
  - unfold Rdiv. now rewrite Rmult_0_l.
  - assert (Habs : forall x, Rabs (x / c) = Rabs x / c).
    { intros x. unfold Rdiv. rewrite Rabs_mult.
      now rewrite (Rabs_pos_eq (/ c)) by (left; now apply Rinv_0_lt_compat). }
    rewrite Habs, map_map.
    rewrite (map_ext (fun x => Rabs (x / c)) (fun x => Rabs x / c) Habs).
    rewrite <- (map_map Rabs (fun x => x / c)).
    now apply fold_left_Rmax_scale.
Qed.

Lemma normalizePeaks_nonempty (maxArguments : nat) (peaks : list R) :
  peaks <> [] -> (List.length peaks <= maxArguments)%nat ->
  normalizePeaks maxArguments peaks
  = Ok (if Req_dec_T (maxAbs peaks) 0 then peaks
        else map (fun peak => peak / maxAbs peaks) peaks).
Proof.
  intros Hne Hfit. destruct peaks as [|p rest]; [contradiction|].
  unfold normalizePeaks.
  replace (maxArguments <? List.length (p :: rest))%nat with false
    by (symmetry; apply Nat.ltb_ge; exact Hfit).
  now destruct (Req_dec_T (maxAbs (p :: rest)) 0).
Qed.

End Normalize.

(** X10.  On an array that the engine can spread into [Math.max],
    [normalizePeaks] returns an array with as many peaks, all in
    [[-1, 1]]; unless every peak is [0] (the array is then returned as it
    is) the largest magnitude of the result is exactly [1], and
    normalizing the result again returns it unchanged.  On a longer array
    it throws the [RangeError] of the spread. *)
Theorem normalizePeaks_unit_scale (maxArguments : nat) (peaks : list R)
        (Hfit : (List.length peaks <= maxArguments)%nat) :
  (exists out,
     PeakArrays.normalizePeaks maxArguments peaks = Ok out /\
     List.length out = List.length peaks /\
     Forall (fun v => (-1 <= v <= 1)%R) out /\
     (PeakArrays.maxAbs peaks <> 0%R -> PeakArrays.maxAbs out = 1%R) /\
     (PeakArrays.maxAbs peaks = 0%R -> out = peaks) /\
     PeakArrays.normalizePeaks maxArguments out = Ok out) /\
  (forall long, (maxArguments < List.length long)%nat ->
                PeakArrays.normalizePeaks maxArguments long
                = Throw PeakArrays.RangeError).
Proof.
  split.
  2:{ intros long Hlong. destruct long as [|p rest]; [cbn in Hlong; lia|].
      unfold PeakArrays.normalizePeaks.
      now replace (maxArguments <? List.length (p :: rest))%nat with true
        by (symmetry; apply Nat.ltb_lt; exact Hlong). }
  destruct (list_eq_dec Req_dec_T peaks []) as [->|Hne];
    [exists []; cbn; repeat split; auto; contradiction|].
  pose proof (maxAbs_bounds peaks) as (Hpos & Hle).
  rewrite (normalizePeaks_nonempty Hne Hfit).
  destruct (Req_dec_T (PeakArrays.maxAbs peaks) 0) as [Hz|Hnz].
  - exists peaks. split; [reflexivity|].
    split; [reflexivity|]. split; [|split; [contradiction|split; [reflexivity|]]].
    + apply Forall_forall. intros v Hv. specialize (Hle v Hv).
      rewrite Hz in Hle. apply Rabs_le_between in Hle. lra.
    + rewrite (normalizePeaks_nonempty Hne Hfit).
      destruct (Req_dec_T (PeakArrays.maxAbs peaks) 0); [reflexivity|contradiction].
  - set (m := PeakArrays.maxAbs peaks) in *.
    assert (Hm : (0 < m)%R) by lra.
    assert (Hone : PeakArrays.maxAbs (map (fun peak => (peak / m)%R) peaks) = 1%R).
    { rewrite maxAbs_scale by exact Hm. unfold m. field. exact Hnz. }
    exists (map (fun peak => (peak / m)%R) peaks). split; [reflexivity|].
    split; [apply length_map|]. split; [|split; [intros _; exact Hone|split]].
    + apply Forall_forall. intros v Hv. apply in_map_iff in Hv.
      destruct Hv as (q & <- & Hq). specialize (Hle q Hq). fold m in Hle.
      apply Rabs_le_between in Hle.
      split.
      * apply Rmult_le_reg_r with (r := m); [exact Hm|].
        unfold Rdiv. rewrite Rmult_assoc, Rinv_l by lra. lra.
      * apply Rmult_le_reg_r with (r := m); [exact Hm|].
        unfold Rdiv. rewrite Rmult_assoc, Rinv_l by lra. lra.
    + intros Hz. contradiction.
    + assert (Hne' : map (fun peak => (peak / m)%R) peaks <> []).
      { destruct peaks; [contradiction|discriminate]. }
      assert (Hfit' : (List.length (map (fun peak => (peak / m)%R) peaks)
                       <= maxArguments)%nat) by now rewrite length_map.
      rewrite (normalizePeaks_nonempty Hne' Hfit'), Hone.
      destruct (Req_dec_T 1 0) as [H10|_]; [lra|]. f_equal.
      rewrite <- (map_id (map (fun peak => (peak / m)%R) peaks)) at 2.
      apply map_ext. intros x. unfold Rdiv. rewrite Rinv_1. lra.
Qed.

Lemma normalizePeaks_unit_scale_witness :
  (List.length [(1 / 2)%R; (-2)%R; 1%R] <= 1000)%nat /\
  exists out,
    PeakArrays.normalizePeaks 1000 [(1 / 2)%R; (-2)%R; 1%R] = Ok out /\
    List.length out = 3%nat /\
    Forall (fun v => (-1 <= v <= 1)%R) out.
Proof.
  assert (Hfit : (List.length [(1 / 2)%R; (-2)%R; 1%R] <= 1000)%nat)
    by (cbn; lia).
  split; [exact Hfit|].
  destruct (proj1 (@normalizePeaks_unit_scale 1000 [(1 / 2)%R; (-2)%R; 1%R] Hfit))
    as (out & Hout & Hlen & Hrange & _).
  exists out. split; [exact Hout|]. split; [exact Hlen|exact Hrange].
Defined.

(** ** The procedural generator: shape of its output *)

Section GeneratorMore.

Import AudioProcessor.
Local Open Scope R_scope.

Variable h : host.

Lemma clamp_range a : -1 <= Rmax (-1) (Rmin 1 a) <= 1.
Proof.
  split; [apply Rmax_l|].
  apply Rmax_lub; [lra|apply Rmin_l].
Qed.

Lemma pattern_draws pt seed i p w :
  (draws (snd (pattern h pt seed i p w)) <= 1 + draws w)%nat.
Proof.
  unfold pattern, random.
  repeat match goal with
         | |- context [match ?x with _ => _ end] => destruct x
         end; cbn; lia.
Qed.

Lemma peakAt_shape seed n i w :
  -1 <= fst (peakAt h seed n i w) <= 1 /\
  (draws (snd (peakAt h seed n i w)) <= 3 + draws w)%nat.
Proof.
  unfold peakAt.
  pose proof (pattern_draws (Z.rem seed 4) seed i (IZR i / IZR n) w) as Hd.
  destruct (pattern h (Z.rem seed 4) seed i (IZR i / IZR n) w) as [a0 w1].
  cbn [snd] in Hd. unfold random. cbn [draws].
  destruct (Rlt_dec (Math_random h (draws w1)) 0.05); cbn [fst snd draws];
    (split; [apply clamp_range|lia]).
Qed.

Lemma peakAt_first seed n w : fst (peakAt h seed n 0 w) = 0.
Proof.
  unfold peakAt.
  replace (IZR 0 / IZR n) with 0 by (unfold Rdiv; now rewrite Rmult_0_l).
  destruct (pattern h (Z.rem seed 4) seed 0 0 w) as [a0 w1].
  unfold random.
  destruct (Rlt_dec (Math_random h (draws w1)) 0.05); cbn [fst];
    (destruct (Rlt_dec 0 0.05) as [_|Hn]; [|exfalso; apply Hn; lra]);
    unfold Rdiv; rewrite Rmult_0_l, Rmult_0_r;
    rewrite Rmin_right by lra; apply Rmax_right; lra.
Qed.

Lemma forEach_peakAt_shape seed n (l : list Z) :
  forall w,
    List.length (fst (forEach (peakAt h seed n) l w)) = List.length l /\
    Forall (fun v => -1 <= v <= 1) (fst (forEach (peakAt h seed n) l w)) /\
    (draws (snd (forEach (peakAt h seed n) l w))
     <= 3 * List.length l + draws w)%nat.
Proof.
  induction l as [|i l IH]; intros w.
  - cbn. repeat split; [constructor|lia].
  - cbn [forEach].
    pose proof (peakAt_shape seed n i w) as (Hr & Hd).
    destruct (peakAt h seed n i w) as [a w1]. cbn [fst snd] in Hr, Hd.
    specialize (IH w1).
    destruct (forEach (peakAt h seed n) l w1) as [l' w2]. cbn [fst snd] in IH |- *.
    destruct IH as (Hl & Hf & Hd').
    cbn [List.length]. repeat split; [now f_equal|now constructor|lia].
Qed.

End GeneratorMore.

(** X11.  Whatever [Math.random()] returns, [generateRealisticPeaks]
    produces exactly [numPeaks] values, all in [[-1, 1]], the first of
    which is [0] (the fade-in starts from silence).  It derives a seed in
    [[0, 9999]] from the video identifier and the size, leaves both
    untouched, and draws from [Math.random()] at least once and at most
    three times per peak. *)
Theorem generateRealisticPeaks_shape
        (h : AudioProcessor.host) (numPeaks : Z) (duration : R)
        (w : AudioProcessor.world) :
  let peaks := fst (AudioProcessor.generateRealisticPeaks h numPeaks duration w) in
  let w' := snd (AudioProcessor.generateRealisticPeaks h numPeaks duration w) in
  List.length peaks = Z.to_nat numPeaks /\
  Forall (fun v => (-1 <= v <= 1)%R) peaks /\
  ((0 < numPeaks)%Z -> nth 0 peaks 1%R = 0%R) /\
  (0 <= AudioProcessor.seedOf w < 10000)%Z /\
  sameInputs w' w /\
  (AudioProcessor.draws w + Z.to_nat numPeaks <= AudioProcessor.draws w'
   <= AudioProcessor.draws w + 3 * Z.to_nat numPeaks)%nat.
Proof.
  cbv zeta. unfold AudioProcessor.generateRealisticPeaks.
  pose proof (forEach_peakAt_shape h (AudioProcessor.seedOf w) numPeaks
                (upto numPeaks) w) as (Hl & Hf & Hd).
  pose proof (forEach_peakAt_keeps h (AudioProcessor.seedOf w) numPeaks
                (upto numPeaks) w) as (Hs & Hd').
  rewrite upto_length in *.
  split; [exact Hl|]. split; [exact Hf|]. split; [|split; [|split; [exact Hs|lia]]].
  - intros Hpos.
    assert (Hup : upto numPeaks = 0%Z :: range 1 (numPeaks - 1)).
    { unfold upto. rewrite range_cons by lia. reflexivity. }
    rewrite Hup. cbn [AudioProcessor.forEach].
    pose proof (peakAt_first h (AudioProcessor.seedOf w) numPeaks w) as H0.
    destruct (AudioProcessor.peakAt h (AudioProcessor.seedOf w) numPeaks 0 w)
      as [a w1].
    destruct (AudioProcessor.forEach _ _ w1) as [l w2]. exact H0.
  - unfold AudioProcessor.seedOf.
    match goal with
    | |- (0 <= Z.rem (Z.abs ?x) 10000 < 10000)%Z =>
        pose proof (Z.rem_bound_pos (Z.abs x) 10000 ltac:(lia) ltac:(lia))
    end.
    lia.
Qed.

(** ** The scratch directory *)

Section ScratchFiles.

Import AudioProcessor.

Variable h : host.

Lemma lookupFile_cons p q (data : Buffer) d :
  lookupFile p ((q, data) :: d) = if (q =? p)%Z then Some data else lookupFile p d.
Proof. unfold lookupFile. cbn. now destruct (q =? p)%Z. Qed.

Lemma lookupFile_removeFile p q d :
  lookupFile p (removeFile q d) = if (p =? q)%Z then None else lookupFile p d.
Proof.
  induction d as [|[k data] d IH]; cbn [removeFile filter fst].
  - now destruct (p =? q)%Z.
  - destruct (k =? q)%Z eqn:Ekq; cbn [negb].
    + rewrite lookupFile_cons. fold (removeFile q d). rewrite IH.
      apply Z.eqb_eq in Ekq. subst k.
      destruct (p =? q)%Z eqn:Epq; [reflexivity|].
      now rewrite Z.eqb_sym, Epq.
    + rewrite !lookupFile_cons. fold (removeFile q d). rewrite IH.
      destruct (k =? p)%Z eqn:Ekp; [|reflexivity].
      apply Z.eqb_eq in Ekp. subst k. now rewrite Ekq.
Qed.

Lemma removeFile_absent p d : lookupFile p d = None -> removeFile p d = d.
Proof.
  induction d as [|[k data] d IH]; intros H; [reflexivity|].
  rewrite lookupFile_cons in H. cbn [removeFile filter fst].
  destruct (k =? p)%Z; [discriminate|]. cbn [negb]. f_equal. now apply IH.
Qed.

Lemma extractPeaksFromFile_tempDir p v w :
  tempDir (snd (extractPeaksFromFile h p v w)) = tempDir w.
Proof.
  unfold extractPeaksFromFile, try_catch, bind, fs_readFile.
  destruct (fs_readFile_error h); [reflexivity|].
  destruct (lookupFile p (tempDir w)); reflexivity.
Qed.

(** What the [finally] block leaves of the scratch directory. *)
Lemma finally_unlink p w :
  tempDir (snd (try_catch (fs_unlink h p)
                  (fun _ => console_error "Failed to cleanup temp file:") w))
  = match fs_unlink_error h with
    | Some _ => tempDir w
    | None => removeFile p (tempDir w)
    end.
Proof.
  unfold try_catch, fs_unlink.
  destruct (fs_unlink_error h); [reflexivity|].
  destruct (lookupFile p (tempDir w)) eqn:E; [reflexivity|].
  cbn. now rewrite removeFile_absent.
Qed.

Lemma generatePeaks_tempDir audioUrl videoId w :
  tempDir (snd (generatePeaks h audioUrl videoId w)) =
  match axios_get h audioUrl with
  | Ok (Some data) =>
      let written :=
        match fs_writeFile_error h with
        | Some _ => tempDir w
        | None => (Date_now h, data) :: removeFile (Date_now h) (tempDir w)
        end in
      match fs_unlink_error h with
      | Some _ => written
      | None => removeFile (Date_now h) written
      end
  | _ => tempDir w
  end.
Proof.
  unfold generatePeaks.
  destruct (axios_get h audioUrl) as [[data|]|e]; try reflexivity.
  unfold fs_writeFile.
  destruct (fs_writeFile_error h) as [e|].
  - cbn [snd]. rewrite finally_unlink. reflexivity.
  - match goal with
    | |- context [extractPeaksFromFile h ?p ?v ?w0] =>
        pose proof (extractPeaksFromFile_tempDir p v w0) as Hx;
        destruct (extractPeaksFromFile h p v w0) as [r w'']
    end.
    cbn [snd] in Hx |- *. rewrite finally_unlink.
    destruct r; cbn [console_error snd tempDir]; rewrite Hx; reflexivity.
Qed.

Lemma unlinkQuietly_tempDir p w :
  PeakArrays.unlinkQuietly h p w =
  match fs_unlink_error h with
  | Some _ => w
  | None => set_tempDir (removeFile p (tempDir w)) w
  end.
Proof.
  unfold PeakArrays.unlinkQuietly, try_catch, fs_unlink.
  destruct (fs_unlink_error h); [reflexivity|].
  destruct (lookupFile p (tempDir w)) eqn:E; [reflexivity|].
  cbn. rewrite removeFile_absent by exact E. now destruct w.
Qed.

Lemma removeFile_all names :
  forall d, (forall f, In f d -> In (fst f) names) ->
            fold_left (fun d' p => removeFile p d') names d = [].
Proof.
  induction names as [|p names IH]; intros d Hd; cbn [fold_left].
  - destruct d as [|f d]; [reflexivity|]. destruct (Hd f (or_introl eq_refl)).
  - apply IH. intros f Hf. unfold removeFile in Hf. apply filter_In in Hf.
    destruct Hf as (Hin & Hneq). destruct (Hd f Hin) as [Heq|H]; [|exact H].
    rewrite Heq, Z.eqb_refl in Hneq. discriminate.
Qed.

End ScratchFiles.

(** X13.  [generatePeaks] cleans up after itself.  Files of the scratch
    directory other than its own are never touched.  When the download
    delivered a body and [unlink] works, its own scratch file is gone
    when it returns, whether sampling succeeded, the write failed or the
    file could not be read back; when the download failed the directory
    is left as it was. *)
Theorem generatePeaks_releases_scratch_file
        (h : AudioProcessor.host) (audioUrl : js_string)
        (videoId : option js_string) (w : AudioProcessor.world) :
  let w' := snd (AudioProcessor.generatePeaks h audioUrl videoId w) in
  (forall p, p <> AudioProcessor.Date_now h ->
             AudioProcessor.lookupFile p (AudioProcessor.tempDir w')
             = AudioProcessor.lookupFile p (AudioProcessor.tempDir w)) /\
  (forall data,
      AudioProcessor.axios_get h audioUrl = Ok (Some data) ->
      AudioProcessor.fs_unlink_error h = None ->
      AudioProcessor.lookupFile (AudioProcessor.Date_now h)
                                (AudioProcessor.tempDir w') = None) /\
  (forall e, AudioProcessor.axios_get h audioUrl = Throw e ->
             AudioProcessor.tempDir w' = AudioProcessor.tempDir w).
Proof.
  cbv zeta. rewrite generatePeaks_tempDir. split; [|split].
  - intros p Hp.
    assert (Hneq : (p =? AudioProcessor.Date_now h)%Z = false)
      by now apply Z.eqb_neq.
    assert (Hneq' : (AudioProcessor.Date_now h =? p)%Z = false)
      by (rewrite Z.eqb_sym; exact Hneq).
    destruct (AudioProcessor.axios_get h audioUrl) as [[data|]|e]; try reflexivity.
    cbv zeta.
    destruct (AudioProcessor.fs_writeFile_error h),
             (AudioProcessor.fs_unlink_error h);
      rewrite ?lookupFile_removeFile, ?lookupFile_cons, ?lookupFile_removeFile,
              ?Hneq, ?Hneq'; reflexivity.
  - intros data -> ->. cbv zeta.
    destruct (AudioProcessor.fs_writeFile_error h);
      now rewrite lookupFile_removeFile, Z.eqb_refl.
  - intros e ->. reflexivity.
Qed.

(** X14.  [cleanup] never throws.  When the scratch directory can be
    listed and [unlink] works, it leaves the directory empty; when
    [unlink] fails every failure is swallowed and the directory is left
    as it was, with nothing logged; when the directory cannot be listed
    the handler logs [Cleanup error:] and nothing else changes. *)
Theorem cleanup_empties_scratch_directory
        (h : AudioProcessor.host) (w : AudioProcessor.world) :
  fst (PeakArrays.cleanup h w) = Ok tt /\
  (AudioProcessor.fs_readdir_error h = None ->
   AudioProcessor.fs_unlink_error h = None ->
   snd (PeakArrays.cleanup h w) = AudioProcessor.set_tempDir [] w) /\
  (AudioProcessor.fs_readdir_error h = None ->
   forall e, AudioProcessor.fs_unlink_error h = Some e ->
             snd (PeakArrays.cleanup h w) = w) /\
  (forall e, AudioProcessor.fs_readdir_error h = Some e ->
             snd (PeakArrays.cleanup h w)
             = snd (AudioProcessor.console_error "Cleanup error:" w)).
Proof.
  unfold PeakArrays.cleanup, AudioProcessor.try_catch, AudioProcessor.bind,
    AudioProcessor.fs_readdir.
  destruct (AudioProcessor.fs_readdir_error h) as [e0|].
  { split; [reflexivity|]. split; [discriminate|]. split; [discriminate|].
    intros e _. reflexivity. }
  cbn [fst snd]. split; [reflexivity|]. split; [|split; [|discriminate]].
  - intros _ Hok.
    assert (Hfold : forall names w0,
      fold_left (fun w' p => PeakArrays.unlinkQuietly h p w') names w0
      = AudioProcessor.set_tempDir
          (fold_left (fun d' p => AudioProcessor.removeFile p d') names
                     (AudioProcessor.tempDir w0)) w0).
    { induction names as [|p names IH]; intros w0; cbn [fold_left].
      - now destruct w0.
      - rewrite IH, unlinkQuietly_tempDir, Hok. reflexivity. }
    rewrite Hfold, removeFile_all; [reflexivity|].
    intros f Hf. now apply in_map.
  - intros _ e He.
    generalize (map fst (AudioProcessor.tempDir w)). intros names.
    induction names as [|p names IH]; cbn [fold_left]; [reflexivity|].
    now rewrite unlinkQuietly_tempDir, He.
Qed.

(** ** The matcher against the language of its pattern *)

Section MatcherAndLanguage.

Import Regex Language.

Lemma iterate_sound A (r : regex) (k : cont A) :
  (forall (k' : cont A) s cap x,
      rmatch r k' s cap = Some x ->
      exists s1 s2 cap', s = s1 ++ s2 /\ lang r s1 /\ k' s2 cap' = Some x) ->
  forall fuel s cap x,
    iterate (fun k' => rmatch r k') k fuel s cap = Some x ->
    exists s1 s2 cap', s = s1 ++ s2 /\ lang (Star r) s1 /\ k s2 cap' = Some x.
Proof.
  intros Hbody. induction fuel as [|fuel IH]; intros s cap x H; cbn [iterate] in H.
  - exists [], s, cap. repeat split; [constructor|exact H].
  - match type of H with
    | match ?m with _ => _ end = _ => destruct m eqn:E
    end.
    + injection H as ->. apply Hbody in E.
      destruct E as (a & s' & cap1 & -> & Ha & E).
      destruct (Nat.ltb_spec (List.length s') (List.length (a ++ s')));
        [|discriminate].
      apply IH in E. destruct E as (b & s2 & cap2 & -> & Hb & E).
      exists (a ++ b), s2, cap2. split; [now rewrite app_assoc|].
      split; [|exact E]. constructor; [exact Ha| |exact Hb].
      intros ->. cbn in H. lia.
    + exists [], s, cap. repeat split; [constructor|exact H].
Qed.

(** Soundness: a success of the matcher consumed a string of the
    language and handed the rest to the continuation. *)
Lemma rmatch_sound (r : regex) :
  forall A (k : cont A) s cap x,
    rmatch r k s cap = Some x ->
    exists s1 s2 cap', s = s1 ++ s2 /\ lang r s1 /\ k s2 cap' = Some x.
Proof.
  induction r as [|c|p|r1 IH1 r2 IH2|r1 IH1 r2 IH2|r IH|r IH];
    intros A k s cap x H; cbn [rmatch] in H.
  - exists [], s, cap. repeat split; [constructor|exact H].
  - destruct s as [|c' s']; [discriminate|].
    destruct (Z.eqb_spec c c') as [<-|]; [|discriminate].
    exists [c], s', cap. repeat split; [constructor|exact H].
  - destruct s as [|c' s']; [discriminate|].
    destruct (p c') eqn:E; [|discriminate].
    exists [c'], s', cap. repeat split; [now constructor|exact H].
  - apply IH1 in H. destruct H as (a & s' & cap1 & -> & Ha & H).
    apply IH2 in H. destruct H as (b & s2 & cap2 & -> & Hb & H).
    exists (a ++ b), s2, cap2. split; [now rewrite app_assoc|].
    split; [now constructor|exact H].
  - destruct (rmatch r1 k s cap) eqn:E1.
    + injection H as ->. apply IH1 in E1.
      destruct E1 as (a & s2 & cap' & -> & Ha & E1).
      exists a, s2, cap'. repeat split; [now apply L_AltL|exact E1].
    + apply IH2 in H. destruct H as (a & s2 & cap' & -> & Ha & H).
      exists a, s2, cap'. repeat split; [now apply L_AltR|exact H].
  - apply (iterate_sound (r := r)) in H; [exact H|]. intros k'. apply IH.
  - apply IH in H. destruct H as (a & s2 & cap' & -> & Ha & H).
    exists a, s2. eexists. repeat split; [now constructor|exact H].
Qed.

Lemma iterate_fuel_ge A (r : regex) (k : cont A) s cap :
  forall extra,
    iterate (fun k' => rmatch r k') k (List.length s + extra) s cap
    = iterate (fun k' => rmatch r k') k (List.length s) s cap.
Proof.
  induction extra as [|extra IH]; [now rewrite Nat.add_0_r|].
  rewrite Nat.add_succ_r, <- iterate_fuel_enough by lia. exact IH.
Qed.

(** Completeness: on a string of the language followed by a rest the
    continuation accepts, the matcher succeeds. *)
Lemma rmatch_complete (r : regex) (s1 : js_string) :
  lang r s1 ->
  forall A (k : cont A) s2 cap,
    (forall cap', k s2 cap' <> None) -> rmatch r k (s1 ++ s2) cap <> None.
Proof.
  induction 1 as [|c|p c Hp|r1 r2 a b Ha IH1 Hb IH2|r1 r2 a Ha IH|r1 r2 a Ha IH
                  |r|r a b Ha IH1 Hne Hb IH2|r a Ha IH];
    intros A k s2 cap Hk; cbn [rmatch app].
  - apply Hk.
  - rewrite Z.eqb_refl. apply Hk.
  - rewrite Hp. apply Hk.
  - rewrite <- app_assoc. apply IH1. intros cap'. now apply IH2.
  - specialize (IH A k s2 cap Hk).
    destruct (rmatch r1 k (a ++ s2) cap); [discriminate|contradiction].
  - destruct (rmatch r1 k (a ++ s2) cap); [discriminate|now apply IH].
  - destruct (List.length s2); cbn [iterate]; [apply Hk|].
    match goal with
    | |- match ?m with _ => _ end <> None => destruct m
    end; [discriminate|apply Hk].
  - destruct a as [|c a]; [contradiction|].
    cbn [app List.length iterate].
    match goal with
    | |- match ?m with _ => _ end <> None => destruct m eqn:E
    end; [discriminate|]. exfalso. revert E.
    replace (c :: (a ++ b) ++ s2) with ((c :: a) ++ (b ++ s2))
      by (cbn [app]; now rewrite app_assoc).
    apply IH1. intros cap'.
    destruct (Nat.ltb_spec (List.length (b ++ s2))
                           (S (List.length ((a ++ b) ++ s2))));
      [|rewrite !length_app in *; lia].
    specialize (IH2 A k s2 cap' Hk). cbn [rmatch] in IH2.
    replace (List.length ((a ++ b) ++ s2))
      with (List.length (b ++ s2) + List.length a)%nat
      by (rewrite !length_app; lia).
    now rewrite iterate_fuel_ge.
  - apply IH. intros cap'. apply Hk.
Qed.

Lemma search_sound (r : regex) (s : js_string) (cap : option js_string) :
  search r s = Some cap ->
  exists before rest,
    s = before ++ rest /\ rmatch r (fun _ c => Some c) rest None = Some cap.
Proof.
  induction s as [|c s IH]; cbn [search];
    destruct (rmatch r _ _ None) eqn:E; intros H; try discriminate.
  - injection H as ->. now exists [], [].
  - injection H as ->. now exists [], (c :: s).
  - apply IH in H. destruct H as (before & rest & -> & H).
    now exists (c :: before), rest.
Qed.

Lemma search_complete (r : regex) (before rest : js_string) :
  rmatch r (fun _ c => Some c) rest None <> None ->
  search r (before ++ rest) <> None.
Proof.
  intros H. induction before as [|c before IH]; cbn [app].
  - destruct rest as [|c rest]; cbn [search];
      destruct (rmatch r _ _ None); try discriminate; contradiction.
  - cbn [search]. destruct (rmatch r _ (c :: before ++ rest) None);
      [discriminate|exact IH].
Qed.

Lemma lang_Lit (s x : js_string) : lang (Lit s) x <-> x = s.
Proof.
  revert x. induction s as [|c s IH]; intros x; cbn [Lit].
  - split; [intros H; now inversion H|intros ->; constructor].
  - split.
    + intros H. inversion H as [| | |r1 r2 a b Ha Hb| | | | |]; subst.
      inversion Ha; subst. apply IH in Hb. now subst.
    + intros ->. change (c :: s) with ([c] ++ s).
      constructor; [constructor|now apply IH].
Qed.

Lemma lang_Repeat_Class (p : Z -> bool) (n : nat) (s : js_string) :
  lang (Repeat n (Class p)) s <->
  List.length s = n /\ Forall (fun c => p c = true) s.
Proof.
  revert s. induction n as [|n IH]; intros s; cbn [Repeat].
  - split.
    + intros H. inversion H. split; [reflexivity|constructor].
    + intros (Hl & _). destruct s; [constructor|discriminate].
  - split.
    + intros H. inversion H as [| | |r1 r2 a b Ha Hb| | | | |]; subst.
      inversion Ha; subst. apply IH in Hb. destruct Hb as (Hl & Hf).
      split; [cbn; now f_equal|now constructor].
    + intros (Hl & Hf). destruct s as [|c s]; [discriminate|].
      inversion Hf; subst. change (c :: s) with ([c] ++ s).
      constructor; [now constructor|]. apply IH. split; [|assumption].
      cbn in Hl. lia.
Qed.

Lemma lang_Star_Class (p : Z -> bool) (s : js_string) :
  Forall (fun c => p c = true) s -> lang (Star (Class p)) s.
Proof.
  induction 1 as [|c s Hc _ IH]; [constructor|].
  change (c :: s) with ([c] ++ s).
  constructor; [now constructor|discriminate|exact IH].
Qed.

End MatcherAndLanguage.

(** ** Where a video id comes from, and which URLs have one *)

Section VideoIdFacts.

Import Regex Language.

Lemma lang_Cat_inv r1 r2 s :
  lang (Cat r1 r2) s -> exists a b, s = a ++ b /\ lang r1 a /\ lang r2 b.
Proof. intros H. inversion H; subst. eauto. Qed.

Lemma lang_Alt_inv r1 r2 s : lang (Alt r1 r2) s -> lang r1 s \/ lang r2 s.
Proof. intros H. inversion H; subst; auto. Qed.

Lemma lang_Chr_inv c s : lang (Chr c) s -> s = [c].
Proof. intros H. now inversion H. Qed.

Lemma lang_Empty_inv s : lang Empty s -> s = [].
Proof. intros H. now inversion H. Qed.

Lemma endsWith_app (a b : js_string) (c : Z) : endsWith b c -> endsWith (a ++ b) c.
Proof. intros (b' & ->). exists (a ++ b'). now rewrite app_assoc. Qed.

Lemma videoIdPrefix_ends (p : js_string) :
  lang YouTubeService.videoIdPrefix p ->
  endsWith p (YouTubeService.code "/") \/ endsWith p (YouTubeService.code "=").
Proof.
  unfold YouTubeService.videoIdPrefix. intros H.
  apply lang_Alt_inv in H. destruct H as [H|H].
  - apply lang_Cat_inv in H. destruct H as (a & b & -> & _ & H).
    apply lang_Alt_inv in H. destruct H as [H|H]; [|apply lang_Alt_inv in H;
                                                    destruct H as [H|H]].
    + left. apply endsWith_app.
      apply lang_Cat_inv in H. destruct H as (x & y & -> & _ & H).
      apply endsWith_app.
      apply lang_Cat_inv in H. destruct H as (x1 & y1 & -> & _ & H).
      apply endsWith_app.
      apply lang_Cat_inv in H. destruct H as (x2 & y2 & -> & _ & H).
      apply lang_Chr_inv in H. subst. now exists x2.
    + left. apply endsWith_app.
      apply lang_Cat_inv in H. destruct H as (x & y & -> & _ & H).
      apply lang_Chr_inv in H. subst. now exists x.
    + right. apply endsWith_app.
      apply lang_Cat_inv in H. destruct H as (x & y & -> & _ & H).
      apply endsWith_app.
      apply lang_Cat_inv in H. destruct H as (x1 & y1 & -> & _ & H).
      apply endsWith_app. apply lang_Lit in H. subst.
      now exists (str "v").
  - left. apply lang_Lit in H. subst. now exists (str "youtu.be").
Qed.

Lemma idChar_character (c : Z) :
  negb ((c =? 34) || (c =? YouTubeService.code "&") || (c =? YouTubeService.code "?")
        || (c =? YouTubeService.code "/") || YouTubeService.isWhiteSpace c)%Z = true
  -> idCharacter c.
Proof.
  intros H. apply negb_true_iff in H.
  repeat (apply orb_false_iff in H; destruct H as (H & ?)).
  unfold idCharacter. repeat split; try assumption; now apply Z.eqb_neq.
Qed.

Lemma wordOrDash_idChar (c : Z) :
  (Validation.isWordChar c || (c =? 45))%Z = true ->
  negb ((c =? 34) || (c =? YouTubeService.code "&") || (c =? YouTubeService.code "?")
        || (c =? YouTubeService.code "/") || YouTubeService.isWhiteSpace c)%Z = true.
Proof.
  change (YouTubeService.code "&") with 38%Z.
  change (YouTubeService.code "?") with 63%Z.
  change (YouTubeService.code "/") with 47%Z.
  unfold Validation.isWordChar, YouTubeService.isWhiteSpace. intros H.
  repeat rewrite ?orb_true_iff, ?andb_true_iff, ?Z.leb_le, ?Z.eqb_eq in H.
  apply negb_true_iff.
  repeat rewrite ?orb_false_iff, ?andb_false_iff, ?Z.leb_gt, ?Z.eqb_neq.
  lia.
Qed.

Lemma hostAndPath_prefix (p : js_string) :
  lang Validation.hostAndPath p -> lang YouTubeService.videoIdPrefix p.
Proof.
  unfold Validation.hostAndPath, YouTubeService.videoIdPrefix. intros H.
  apply lang_Alt_inv in H. destruct H as [H|H].
  - apply lang_Cat_inv in H. destruct H as (a & b & -> & Ha & H).
    apply L_AltL. apply L_Cat; [exact Ha|].
    apply lang_Alt_inv in H. destruct H as [H|H]; [|apply lang_Alt_inv in H;
                                                    destruct H as [H|H]];
      apply lang_Lit in H; subst b.
    + apply L_AltR, L_AltR.
      change (str "watch?v=") with (str "watch" ++ ([63%Z] ++ str "v=")).
      apply L_Cat; [apply lang_Star_Class; repeat constructor|].
      apply L_Cat; [now apply L_Class|now apply lang_Lit].
    + apply L_AltR, L_AltL.
      change (str "embed/") with (([101%Z] ++ str "mbed") ++ [47%Z]).
      apply L_Cat; [|apply L_Chr].
      apply L_AltR. apply L_Cat; [apply L_Chr|].
      apply L_AltL. now apply lang_Lit.
    + apply L_AltR, L_AltL.
      change (str "v/") with ([118%Z] ++ [47%Z]).
      apply L_Cat; [|apply L_Chr]. apply L_AltL. apply L_Chr.
  - now apply L_AltR.
Qed.

End VideoIdFacts.

(** X15.  A video id returned by [extractVideoId] is a piece of the URL
    itself: eleven consecutive characters that follow a recognised
    prefix ending in [/] or [=], none of which is a double quote, [&],
    [?], [/] or white space. *)
Theorem extractVideoId_is_taken_from_url (url id : js_string)
        (Hid : YouTubeService.extractVideoId url = YouTubeService.Str id) :
  exists before prefix after,
    url = before ++ prefix ++ id ++ after /\
    Language.lang YouTubeService.videoIdPrefix prefix /\
    (endsWith prefix (YouTubeService.code "/") \/
     endsWith prefix (YouTubeService.code "=")) /\
    Forall idCharacter id.
Proof.
  unfold YouTubeService.extractVideoId in Hid.
  destruct (Regex.search YouTubeService.videoIdRegex url) as [[cap|]|] eqn:E;
    try discriminate.
  injection Hid as ->.
  apply search_sound in E. destruct E as (before & rest & -> & E).
  unfold YouTubeService.videoIdRegex in E. cbn [Regex.rmatch] in E.
  apply rmatch_sound in E. destruct E as (prefix & s2 & cap1 & -> & Hprefix & E).
  apply rmatch_sound in E. destruct E as (i & after & cap2 & -> & Hbody & E).
  injection E as <-.
  replace (List.length (i ++ after) - List.length after)%nat
    with (List.length i + 0)%nat by (rewrite length_app; lia).
  rewrite firstn_app_2, firstn_O, app_nil_r.
  exists before, prefix, after. split; [reflexivity|].
  split; [exact Hprefix|]. split; [now apply videoIdPrefix_ends|].
  unfold YouTubeService.idChar in Hbody.
  apply lang_Repeat_Class in Hbody. destruct Hbody as (_ & Hf).
  apply Forall_forall. intros c Hc. rewrite Forall_forall in Hf.
  apply idChar_character. now apply Hf.
Qed.

Lemma extractVideoId_is_taken_from_url_witness :
  YouTubeService.extractVideoId Scenario2.watchUrl
  = YouTubeService.Str (str "dQw4w9WgXcQ") /\
  exists before prefix after,
    Scenario2.watchUrl = before ++ prefix ++ str "dQw4w9WgXcQ" ++ after /\
    Forall idCharacter (str "dQw4w9WgXcQ").
Proof.
  assert (H : YouTubeService.extractVideoId Scenario2.watchUrl
              = YouTubeService.Str (str "dQw4w9WgXcQ"))
    by (vm_compute; reflexivity).
  split; [exact H|].
  destruct (@extractVideoId_is_taken_from_url Scenario2.watchUrl
              (str "dQw4w9WgXcQ") H) as (b & p & a & H1 & _ & _ & H2).
  exists b, p, a. split; [exact H1|exact H2].
Defined.

(** X16.  Every URL that [isValidYouTubeUrl] accepts has a video id: on
    it [extractVideoId] returns a string of eleven characters, never
    [null]. *)
Theorem valid_url_has_video_id (url : js_string)
        (Hvalid : Validation.isValidYouTubeUrl url = true) :
  exists id, YouTubeService.extractVideoId url = YouTubeService.Str id /\
             List.length id = 11%nat.
Proof.
  unfold Validation.isValidYouTubeUrl, Validation.testAnchored in Hvalid.
  destruct (Regex.rmatch Validation.validUrlRegex _ url None) as [[]|] eqn:E;
    [clear Hvalid|discriminate].
  apply rmatch_sound in E. destruct E as (s1 & s2 & cap' & -> & Hs1 & E).
  destruct s2 as [|c s2]; [clear E|discriminate].
  unfold Validation.validUrlRegex in Hs1.
  apply lang_Cat_inv in Hs1. destruct Hs1 as (sch & r1 & -> & _ & H).
  apply lang_Cat_inv in H. destruct H as (w & r2 & -> & _ & H).
  apply lang_Cat_inv in H. destruct H as (hp & r3 & -> & Hhp & H).
  apply lang_Cat_inv in H. destruct H as (i & tr & -> & Hi & _).
  assert (Hlang : Language.lang YouTubeService.videoIdRegex (hp ++ i)).
  { unfold YouTubeService.videoIdRegex. apply Language.L_Cat.
    - now apply hostAndPath_prefix.
    - apply Language.L_Group. unfold YouTubeService.idChar.
      unfold Validation.wordOrDash in Hi.
      apply lang_Repeat_Class in Hi. apply lang_Repeat_Class.
      destruct Hi as (Hl & Hf). split; [exact Hl|].
      apply Forall_forall. intros c Hc. rewrite Forall_forall in Hf.
      apply wordOrDash_idChar. now apply Hf. }
  assert (Hsearch :
    Regex.search YouTubeService.videoIdRegex
                 ((sch ++ w) ++ ((hp ++ i) ++ tr)) <> None).
  { apply search_complete. apply (rmatch_complete Hlang). discriminate. }
  replace ((sch ++ w ++ hp ++ i ++ tr) ++ [])
    with ((sch ++ w) ++ ((hp ++ i) ++ tr))
    by (rewrite app_nil_r, <- !app_assoc; reflexivity).
  unfold YouTubeService.extractVideoId.
  destruct (Regex.search YouTubeService.videoIdRegex _) as [cap|] eqn:Es;
    [|contradiction].
  apply search_videoIdRegex in Es. destruct Es as (id & -> & Hlen).
  now exists id.
Qed.

Lemma valid_url_has_video_id_witness :
  Validation.isValidYouTubeUrl Scenario2.watchUrl = true /\
  exists id, YouTubeService.extractVideoId Scenario2.watchUrl
             = YouTubeService.Str id /\ List.length id = 11%nat.
Proof.
  assert (H : Validation.isValidYouTubeUrl Scenario2.watchUrl = true)
    by (vm_compute; reflexivity).
  split; [exact H|].
  exact (@valid_url_has_video_id Scenario2.watchUrl H).
Defined.

(** ** [calculateRemainingTime] *)

(** X17.  The estimate shown for a job that is converting is the time left
    of the assumed 90 seconds, rounded up to whole seconds: it never
    understates the time left and overstates it by less than a second, it
    lies between 0 and 90 once the job has started, and it is 0 exactly
    when 90 seconds or more have passed. *)
Theorem calculateRemainingTime_rounds_up (now startedAt : Z) :
  let seconds := Routes.calculateRemainingTime now startedAt in
  let remaining := Z.max 0 (90000 - (now - startedAt)) in
  (remaining <= 1000 * seconds < remaining + 1000)%Z /\
  ((startedAt <= now)%Z -> (0 <= seconds <= 90)%Z) /\
  (seconds = 0%Z <-> (90000 <= now - startedAt)%Z).
Proof.
  cbv zeta. unfold Routes.calculateRemainingTime.
  set (remaining := Z.max 0 (90000 - (now - startedAt))).
  pose proof (Zceil_bound (IZR remaining / 1000)) as [Hlo Hhi].
  set (seconds := Zceil (IZR remaining / 1000)) in *.
  assert (H1 : (remaining <= 1000 * seconds)%Z).
  { apply le_IZR. rewrite mult_IZR. lra. }
  assert (H2 : (1000 * seconds < remaining + 1000)%Z).
  { apply lt_IZR. rewrite plus_IZR, mult_IZR. lra. }
  unfold remaining in *. repeat split; lia.
Qed.

(** ** The timer *)

Section Timer.

Import Perf.
Local Open Scope Z_scope.

Lemma get_assign_other key k v o :
  k <> key -> get key (assign k v o) = get key o.
Proof.
  intros Hne. unfold get. induction o as [|[k' v'] o IH]; cbn [assign find fst].
  - destruct (String.eqb_spec k key); [contradiction|reflexivity].
  - destruct (String.eqb_spec k' k) as [->|Hk]; cbn [find fst].
    + destruct (String.eqb_spec k key); [contradiction|reflexivity].
    + destruct (String.eqb_spec k' key); [reflexivity|exact IH].
Qed.

Lemma get_spread key o extras :
  get key extras = None -> get key (spread o extras) = get key o.
Proof.
  unfold spread. revert o. induction extras as [|[k v] extras IH]; intros o H;
    cbn [fold_left fst snd]; [reflexivity|].
  unfold get in H. cbn [find fst] in H.
  destruct (String.eqb_spec k key) as [->|Hne]; [discriminate|].
  rewrite IH by exact H. now apply get_assign_other.
Qed.

Lemma mark_timings label extras nowMs t :
  plainExtras (label, extras, nowMs) ->
  numberOf "deltaMs" (fst (mark label extras nowMs t)) = nowMs - lastMarkMs t /\
  numberOf "totalMs" (fst (mark label extras nowMs t)) = nowMs - startedAtMs t.
Proof.
  intros (Hd & Ht). cbn [fst snd] in Hd, Ht.
  unfold mark, numberOf. cbn [fst].
  now rewrite !get_spread by assumption.
Qed.

Lemma Zsum_app (a b : list Z) :
  YouTubeService.Zsum (a ++ b) = YouTubeService.Zsum a + YouTubeService.Zsum b.
Proof.
  unfold YouTubeService.Zsum.
  induction a as [|x a IHa]; cbn [app fold_right]; lia.
Qed.

Lemma run_timings calls :
  Forall plainExtras calls ->
  forall t,
    startedAtMs (run calls t) = startedAtMs t /\
    List.length (marks (run calls t))
    = (List.length (marks t) + List.length calls)%nat /\
    YouTubeService.Zsum (map (numberOf "deltaMs") (marks (run calls t)))
    = YouTubeService.Zsum (map (numberOf "deltaMs") (marks t))
      + (lastMarkMs (run calls t) - lastMarkMs t).
Proof.
  induction 1 as [|[[label extras] nowMs] calls Hc _ IH]; intros t.
  - cbn. repeat split; lia.
  - change (run ((label, extras, nowMs) :: calls) t)
      with (run calls (snd (mark label extras nowMs t))).
    destruct (IH (snd (mark label extras nowMs t))) as (Hs & Hl & Hsum).
    destruct (mark_timings t Hc) as (Hd & _).
    assert (Hm : marks (snd (mark label extras nowMs t))
                 = marks t ++ [fst (mark label extras nowMs t)]) by reflexivity.
    assert (Hlm : lastMarkMs (snd (mark label extras nowMs t)) = nowMs)
      by reflexivity.
    assert (Hst : startedAtMs (snd (mark label extras nowMs t)) = startedAtMs t)
      by reflexivity.
    rewrite Hs, Hl, Hsum, Hm, Hlm, Hst, length_app, map_app, Zsum_app.
    cbn [List.length map]. unfold YouTubeService.Zsum at 2. cbn [fold_right].
    rewrite Hd. repeat split; lia.
Qed.

Lemma run_snoc calls label extras nowMs t :
  run (calls ++ [(label, extras, nowMs)]) t
  = snd (mark label extras nowMs (run calls t)).
Proof. unfold run. now rewrite fold_left_app. Qed.

End Timer.

(** X18.  The timings of a timer add up.  As long as the extras given to
    [mark] do not themselves carry a [deltaMs] or a [totalMs], a timer
    records one entry per call, and the [deltaMs] of its entries sum to
    the time between its creation and its last mark, which is the
    [totalMs] of its last entry. *)
Theorem timer_deltas_add_up (name : string) (enabled : bool) (startMs : Z)
        (calls : list Perf.call)
        (label : js_string) (extras : Perf.object) (lastMs : Z)
        (Hplain : Forall Perf.plainExtras (calls ++ [(label, extras, lastMs)])) :
  let t := Perf.run (calls ++ [(label, extras, lastMs)])
                    (Perf.createTimer name enabled startMs) in
  List.length (Perf.marks t) = S (List.length calls) /\
  YouTubeService.Zsum (map (Perf.numberOf "deltaMs") (Perf.marks t))
  = (lastMs - startMs)%Z /\
  Perf.numberOf "totalMs" (last (Perf.marks t) []) = (lastMs - startMs)%Z.
Proof.
  cbv zeta.
  pose proof (run_timings Hplain (Perf.createTimer name enabled startMs))
    as (Hs & Hl & Hsum).
  assert (Hlast : Perf.lastMarkMs
                    (Perf.run (calls ++ [(label, extras, lastMs)])
                              (Perf.createTimer name enabled startMs)) = lastMs)
    by now rewrite run_snoc.
  split; [rewrite Hl, length_app; cbn; lia|].
  split; [rewrite Hsum, Hlast; cbn; lia|].
  rewrite run_snoc.
  set (t0 := Perf.run calls (Perf.createTimer name enabled startMs)).
  change (Perf.marks (snd (Perf.mark label extras lastMs t0)))
    with (Perf.marks t0 ++ [fst (Perf.mark label extras lastMs t0)]).
  rewrite last_last.
  apply Forall_app in Hplain. destruct Hplain as (Hcalls & Hthis).
  inversion Hthis as [|c l Hc _]; subst.
  destruct (mark_timings t0 Hc) as (_ & Ht). rewrite Ht.
  pose proof (run_timings Hcalls (Perf.createTimer name enabled startMs))
    as (Hs0 & _). fold t0 in Hs0. rewrite Hs0. reflexivity.
Qed.

Lemma timer_deltas_add_up_witness :
  Forall Perf.plainExtras Scenario2.threeMarks /\
  YouTubeService.Zsum
    (map (Perf.numberOf "deltaMs")
         (Perf.marks (Perf.run Scenario2.threeMarks
                               (Perf.createTimer "audioProcessor.generatePeaks"
                                                 false 100))))
  = 150%Z.
Proof.
  assert (H : Forall Perf.plainExtras Scenario2.threeMarks)
    by (repeat constructor).
  split; [exact H|].
  exact (proj1 (proj2 (@timer_deltas_add_up "audioProcessor.generatePeaks" false 100
                         [(str "start download", [], 130%Z);
                          (str "downloaded", [], 190%Z)]
                         (str "error")
                         [("message"%string, Perf.Str (str "boom"))] 250 H))).
Defined.

(* ------------------------------------------------------------------ *)
(** ** The quality maps *)

Section Quality.

Import Conversion.

Lemma getProperty_cases (own : list (js_string * js_string)) (key : js_string) :
  (exists v, In (key, v) own /\ getProperty own key = Text v) \/
  ((forall v, ~ In (key, v) own) /\
   (getProperty own key = Inherited \/ getProperty own key = Missing)).
Proof.
  unfold getProperty.
  destruct (find _ own) as [[k v]|] eqn:E.
  - left. exists v. apply find_some in E. destruct E as (Hin & Heq).
    cbn [fst snd] in *. unfold js_string_eqb in Heq.
    destruct (list_eq_dec Z.eq_dec k key) as [->|]; [|discriminate].
    now split.
  - right. split.
    + intros v Hin. apply (find_none _ _ E) in Hin. cbn [fst] in Hin.
      now rewrite js_string_eqb_refl in Hin.
    + destruct (existsb _ _); auto.
Qed.

Lemma js_string_eqb_eq (a b : js_string) : js_string_eqb a b = true -> a = b.
Proof.
  unfold js_string_eqb. now destruct (list_eq_dec Z.eq_dec a b).
Qed.

Lemma inherited_key (quality : js_string) :
  existsb (js_string_eqb quality) objectPrototypeKeys = true <->
  In quality objectPrototypeKeys.
Proof.
  rewrite existsb_exists. split.
  - intros (x & Hin & Heq). apply js_string_eqb_eq in Heq. now subst.
  - intros Hin. exists quality. split; [exact Hin|apply js_string_eqb_refl].
Qed.

End Quality.

(** X19.  The two quality maps agree: for a quality that is not the name
    of a member of [Object.prototype] both return a bit rate, one of 128,
    192 and 320, [mapQualityToAPI] with [kbps] appended, and the rate is
    192 unless the quality is [low] or [high]; for the name of a member of
    [Object.prototype] both return that inherited member instead of a
    string, the fallback not being taken. *)
Theorem quality_maps_agree (quality : js_string) :
  (~ In quality Conversion.objectPrototypeKeys ->
   exists rate,
     In rate [str "128"; str "192"; str "320"] /\
     Conversion.mapQuality quality = Conversion.Text rate /\
     Conversion.mapQualityToAPI quality = Conversion.Text (rate ++ str "kbps") /\
     (rate = str "128" <-> quality = str "low") /\
     (rate = str "320" <-> quality = str "high")) /\
  (In quality Conversion.objectPrototypeKeys ->
   Conversion.mapQuality quality = Conversion.Inherited /\
   Conversion.mapQualityToAPI quality = Conversion.Inherited).
Proof.
  split.
  - intros Hown.
    assert (Hex : existsb (js_string_eqb quality) Conversion.objectPrototypeKeys
                  = false).
    { destruct (existsb _ _) eqn:E; [|reflexivity].
      apply inherited_key in E. contradiction. }
    unfold Conversion.mapQuality, Conversion.mapQualityToAPI,
      Conversion.getProperty.
    cbn [find fst snd]. rewrite Hex.
    destruct (js_string_eqb (str "low") quality) eqn:Elow.
    { apply js_string_eqb_eq in Elow. subst quality.
      exists (str "128"). cbn [Conversion.orElse].
      repeat split; try reflexivity; try (now left); intros H; discriminate H. }
    destruct (js_string_eqb (str "medium") quality) eqn:Emed.
    { apply js_string_eqb_eq in Emed. subst quality.
      exists (str "192"). cbn [Conversion.orElse].
      repeat split; try reflexivity; try (right; now left);
        intros H; discriminate H. }
    destruct (js_string_eqb (str "high") quality) eqn:Ehigh.
    { apply js_string_eqb_eq in Ehigh. subst quality.
      exists (str "320"). cbn [Conversion.orElse].
      repeat split; try reflexivity; try (right; right; now left);
        intros H; discriminate H. }
    exists (str "192"). cbn [Conversion.orElse].
    repeat split; try reflexivity; try (right; now left).
    + intros H; discriminate H.
    + intros ->. now rewrite js_string_eqb_refl in Elow.
    + intros H; discriminate H.
    + intros ->. now rewrite js_string_eqb_refl in Ehigh.
  - intros Hin. unfold Conversion.objectPrototypeKeys in Hin.
    cbn [map In] in Hin.
    repeat (destruct Hin as [<-|Hin]; [split; reflexivity|]).
    contradiction.
Qed.

(* ------------------------------------------------------------------ *)
(** ** [startConversion] and [parseNewAPIResponse] *)

Section Token.

Import Regex.

(** A greedy star of a character class, before a continuation that
    accepts everything, takes the longest run of the class. *)
Lemma iterate_Class_greedy (p : Z -> bool) A (k : cont A) :
  (forall s cap, k s cap <> None) ->
  forall fuel s cap,
    (List.length s <= fuel)%nat ->
    exists a b,
      s = a ++ b /\ Forall (fun c => p c = true) a /\
      (b = [] \/ exists c b', b = c :: b' /\ p c = false) /\
      iterate (fun k' => rmatch (Class p) k') k fuel s cap = k b cap.
Proof.
  intros Hk. induction fuel as [|fuel IH]; intros s cap Hlen.
  - destruct s; [|cbn in Hlen; lia].
    exists [], []. repeat split; auto.
  - destruct s as [|c s].
    + exists [], []. repeat split; auto.
    + cbn [iterate rmatch]. destruct (p c) eqn:Ep.
      * cbn [List.length]. replace (List.length s <? S (List.length s))%nat
          with true by (symmetry; apply Nat.ltb_lt; lia).
        destruct (IH s cap ltac:(cbn in Hlen; lia)) as (a & b & -> & Ha & Hb & E).
        exists (c :: a), b. repeat split; auto.
        cbn [rmatch] in E. rewrite E. destruct (k b cap) eqn:Ek; [reflexivity|].
        now apply Hk in Ek.
      * exists [], (c :: s). repeat split; auto.
        right. now exists c, s.
Qed.

Lemma rmatch_Lit (l : js_string) A (k : cont A) s cap x :
  rmatch (Lit l) k s cap = Some x ->
  exists s', s = l ++ s' /\ k s' cap = Some x.
Proof.
  revert s. induction l as [|c l IH]; intros s H; cbn [Lit rmatch] in H.
  - now exists s.
  - destruct s as [|c' s]; [discriminate|].
    destruct (Z.eqb_spec c c') as [<-|]; [|discriminate].
    apply IH in H. destruct H as (s' & -> & H). now exists s'.
Qed.

Lemma search_tokenRegex (link : js_string) (cap : option js_string) :
  search Conversion.tokenRegex link = Some cap ->
  exists before tok after,
    cap = Some tok /\ link = before ++ str "token=" ++ tok ++ after /\
    tok <> [] /\ Forall notAmpersand tok /\
    (after = [] \/ exists rest, after = YouTubeService.code "&" :: rest).
Proof.
  intros H. apply search_sound in H. destruct H as (before & rest & -> & H).
  unfold Conversion.tokenRegex in H. cbn [rmatch] in H.
  apply rmatch_Lit in H. destruct H as (s & -> & H).
  unfold Plus in H. cbn [rmatch] in H.
  destruct s as [|c s]; [discriminate|].
  destruct (negb (c =? YouTubeService.code "&")%Z) eqn:Ec; [|discriminate].
  set (p := fun c => negb (c =? YouTubeService.code "&")%Z) in *.
  destruct (@iterate_Class_greedy p _
              (fun s' (_ : option js_string) =>
                 Some (Some (firstn (List.length (c :: s) - List.length s')
                                    (c :: s))))
              ltac:(discriminate) (List.length s) s None (le_n _))
    as (a & b & Hs & Ha & Hb & E).
  assert (Hfirst : firstn (List.length (c :: s) - List.length b) (c :: s)
                   = c :: a).
  { rewrite Hs.
    replace (List.length (c :: a ++ b) - List.length b)%nat
      with (List.length (c :: a) + 0)%nat
      by (cbn [List.length]; rewrite length_app; lia).
    change (c :: a ++ b) with ((c :: a) ++ b).
    now rewrite firstn_app_2, firstn_O, app_nil_r. }
  rewrite Hfirst in E.
  assert (Hcap : Some cap = Some (Some (c :: a))) by (rewrite <- H; exact E).
  injection Hcap as ->. clear H E Hfirst. subst s.
  exists before, (c :: a), b.
  assert (Hp : forall x, p x = true -> notAmpersand x).
  { intros x Hx. unfold p in Hx. unfold notAmpersand.
    destruct (Z.eqb_spec x (YouTubeService.code "&")); [discriminate|assumption]. }
  repeat split.
  - discriminate.
  - constructor; [now apply Hp|].
    apply Forall_forall. intros x Hx. rewrite Forall_forall in Ha.
    now apply Hp, Ha.
  - destruct Hb as [->|(x & b' & -> & Hx)]; [now left|right].
    exists b'. unfold p in Hx.
    destruct (Z.eqb_spec x (YouTubeService.code "&")) as [->|]; [reflexivity|discriminate].
Qed.

Lemma search_tokenRegex_none (link : js_string) :
  search Conversion.tokenRegex link = None ->
  forall before c after,
    link = before ++ str "token=" ++ c :: after -> c = YouTubeService.code "&".
Proof.
  intros Hnone before c after ->.
  destruct (Z.eq_dec c (YouTubeService.code "&")) as [|Hc]; [assumption|exfalso].
  assert (Hlang : Language.lang Conversion.tokenRegex (str "token=" ++ [c])).
  { unfold Conversion.tokenRegex. apply Language.L_Cat.
    - now apply lang_Lit.
    - apply Language.L_Group. unfold Plus.
      rewrite <- (app_nil_r [c]). apply Language.L_Cat; [|constructor].
      constructor. now apply negb_true_iff, Z.eqb_neq. }
  refine (@search_complete Conversion.tokenRegex before
            ((str "token=" ++ [c]) ++ after) _ _).
  - apply (rmatch_complete Hlang); discriminate.
  - exact Hnone.
Qed.

End Token.

(** X20.  A job that [startConversion] returns is [ready], keeps the
    requested quality and has its token as its id.  Its video id is the
    one that the upstream reply names, when it names one, and otherwise
    the video id of the URL; the reply is the one to the request for the
    video id of the URL and the mapped quality.  The token is the text
    that follows a [token=] in the progress link of the reply, up to the
    next ampersand or the end of the link, and is not empty; when the
    reply has no progress link, or no [token=] of the link is followed by
    such a text, it is the video id of the URL, an underscore and the
    current time in decimal. *)
Theorem startConversion_job (svc : Conversion.service)
        (youtubeUrl quality : js_string) (j : Conversion.job)
        (Hok : Conversion.startConversion svc youtubeUrl quality = Ok j) :
  exists videoId data,
    YouTubeService.extractVideoId youtubeUrl = YouTubeService.Str videoId /\
    Conversion.post svc videoId (Conversion.mapQualityToAPI quality)
    = Conversion.Fulfilled (Some data) /\
    Conversion.id j = Conversion.token j /\
    Conversion.status j = str "ready" /\
    Conversion.quality j = quality /\
    Conversion.jobVideoId j <> [] /\
    (forall named, Conversion.videoId data = Some named -> named <> [] ->
                   Conversion.jobVideoId j = named) /\
    (truthy (Conversion.videoId data) = false ->
     Conversion.jobVideoId j = videoId) /\
    Conversion.sseUrl j = Conversion.linkDownloadProgress data /\
    ((exists link, Conversion.sseUrl j = Some link /\
                   tokenFromLink link (Conversion.token j)) \/
     (Conversion.token j
      = videoId ++ str "_" ++ Conversion.decimal (Conversion.Date_now svc) /\
      forall link, Conversion.sseUrl j = Some link -> noTokenIn link)).
Proof.
  unfold Conversion.startConversion in Hok.
  destruct (negb (truthy (Conversion.rapidApiKey svc))); [discriminate|].
  destruct (YouTubeService.extractVideoId youtubeUrl) as [| |[|c rest]] eqn:Eid;
    try discriminate.
  destruct (Conversion.post svc (c :: rest) (Conversion.mapQualityToAPI quality))
    as [[data|]|statusCode bodyMessage message|code message] eqn:Epost;
    try discriminate.
  2:{ destruct (match code with Some _ => _ | None => _ end); discriminate. }
  exists (c :: rest), data. split; [reflexivity|]. split; [exact Epost|].
  unfold Conversion.parseNewAPIResponse in Hok.
  destruct (truthy (Conversion.error data)); [discriminate|].
  injection Hok as <-. cbn [Conversion.id Conversion.token Conversion.status
                            Conversion.quality Conversion.jobVideoId
                            Conversion.sseUrl].
  repeat (split; [reflexivity|]).
  split.
  { unfold Conversion.orText.
    destruct (Conversion.videoId data) as [[|x l]|]; cbn; discriminate. }
  split.
  { intros named Hnamed Hne. unfold Conversion.orText. rewrite Hnamed.
    destruct named as [|x l]; [contradiction|reflexivity]. }
  split.
  { intros Hfalsy. unfold Conversion.orText. now rewrite Hfalsy. }
  split; [reflexivity|].
  destruct (Conversion.linkDownloadProgress data) as [link|] eqn:Elink.
  - destruct (truthy (Some link)) eqn:Et.
    + destruct (Regex.search Conversion.tokenRegex
                  (YouTubeService.valueOf (Some link))) as [cap|] eqn:Es.
      * change (YouTubeService.valueOf (Some link)) with link in Es.
        apply search_tokenRegex in Es.
        destruct Es as (before & tok & after & -> & Hlink & Hne & Hall & Hafter).
        left. exists link. split; [reflexivity|].
        now exists before, after.
      * right. split; [reflexivity|].
        intros link' Hl. injection Hl as <-.
        exact (search_tokenRegex_none Es).
    + right. split; [reflexivity|].
      intros link' Hl. injection Hl as <-.
      destruct link; [|discriminate].
      intros before ch after H. destruct before; discriminate.
  - right. split; [reflexivity|]. discriminate.
Qed.

Lemma startConversion_job_witness :
  exists j,
    Conversion.startConversion Scenario2.converted Scenario2.watchUrl
                               (str "medium") = Ok j /\
    Conversion.id j = Conversion.token j /\
    Conversion.status j = str "ready".
Proof.
  assert (H : exists j,
             Conversion.startConversion Scenario2.converted Scenario2.watchUrl
                                        (str "medium") = Ok j)
    by (vm_compute; eexists; reflexivity).
  destruct H as (j & H). exists j. split; [exact H|].
  destruct (@startConversion_job Scenario2.converted Scenario2.watchUrl
              (str "medium") j H) as (v & data & _ & _ & Hid & Hst & _).
  split; [exact Hid|exact Hst].
Defined.

(* ------------------------------------------------------------------ *)
(** ** The route [POST /process] *)

Section Route.

Import Conversion Routes.

Lemma extractVideoId_nonempty (url id : js_string) :
  YouTubeService.extractVideoId url = YouTubeService.Str id ->
  url <> [] /\ List.length id = 11%nat.
Proof.
  intros H. split.
  - intros ->. vm_compute in H. discriminate.
  - unfold YouTubeService.extractVideoId in H.
    destruct (Regex.search YouTubeService.videoIdRegex url) as [[cap|]|] eqn:E;
      try discriminate.
    injection H as ->. apply search_videoIdRegex in E.
    destruct E as (id' & [= <-] & Hlen). exact Hlen.
Qed.

(** The route up to the call of the service, for a request that has a
    video id and no row in the cache. *)
Lemma process_calls_service svc cacheLookup req url videoId :
  youtubeUrl req = Some url ->
  YouTubeService.extractVideoId url = YouTubeService.Str videoId ->
  cacheLookup videoId (requestedQuality req) = None ->
  process svc cacheLookup req
  = match startConversion svc url (requestedQuality req) with
    | Ok conversionJob =>
        if truthy (downloadUrl conversionJob)
        then Completed false videoId (requestedQuality req)
               (YouTubeService.valueOf (downloadUrl conversionJob))
        else Refused 500 "Download info failed"
    | Throw e => errorReply (message e)
    end.
Proof.
  intros Hurl Hid Hmiss. unfold process. rewrite Hurl.
  destruct (@extractVideoId_nonempty _ _ Hid) as (Hne & Hlen).
  destruct url as [|u url]; [contradiction|].
  cbn [truthy negb YouTubeService.valueOf]. rewrite Hid.
  destruct videoId as [|c rest]; [discriminate|].
  fold (requestedQuality req). now rewrite Hmiss.
Qed.

Lemma startConversion_post svc url quality videoId :
  truthy (rapidApiKey svc) = true ->
  YouTubeService.extractVideoId url = YouTubeService.Str videoId ->
  startConversion svc url quality
  = match post svc videoId (mapQualityToAPI quality) with
    | Fulfilled None => Throw (Error (str "No response data from YouTube API"))
    | Fulfilled (Some data) =>
        parseNewAPIResponse (Date_now svc) data videoId quality
    | HttpError statusCode bodyMessage message =>
        Throw (Error (httpErrorMessage statusCode bodyMessage message))
    | NoResponse code message =>
        if match code with
           | Some c => js_string_eqb c (str "ECONNABORTED")
           | None => false
           end
        then Throw (Error (str "Request timeout. The video might be too long to process."))
        else Throw (Error message)
    end.
Proof.
  intros Hkey Hid. unfold startConversion. rewrite Hkey, Hid.
  destruct (@extractVideoId_nonempty _ _ Hid) as (_ & Hlen).
  destruct videoId as [|c rest]; [discriminate|]. reflexivity.
Qed.

End Route.

(** X21.  How [POST /process] answers when the conversion service fails,
    for a request with a video id that is not in the cache: an upstream
    [429] or [403] becomes a [500] (the message of the service for a
    rate limit starts with a capital letter, which the route does not
    look for), an upstream [404] and every upstream status from [500] up
    become a [404], and a time-out or an empty reply become a [500]. *)
Theorem process_upstream_failure (svc : Conversion.service)
        (cacheLookup : js_string -> js_string -> option Routes.cached)
        (req : Routes.request) (url videoId : js_string)
        (Hkey : truthy (Conversion.rapidApiKey svc) = true)
        (Hurl : Routes.youtubeUrl req = Some url)
        (Hid : YouTubeService.extractVideoId url = YouTubeService.Str videoId)
        (Hmiss : cacheLookup videoId (requestedQuality req) = None) :
  let upstream :=
    Conversion.post svc videoId
                    (Conversion.mapQualityToAPI (requestedQuality req)) in
  (forall statusCode bodyMessage message,
     upstream = Conversion.HttpError statusCode bodyMessage message ->
     (statusCode = 429%Z \/ statusCode = 403%Z ->
      Routes.process svc cacheLookup req = Routes.Refused 500 "Processing failed") /\
     (statusCode = 404%Z \/ (500 <= statusCode)%Z ->
      Routes.process svc cacheLookup req = Routes.Refused 404 "Video not found")) /\
  (forall message,
     upstream = Conversion.NoResponse (Some (str "ECONNABORTED")) message ->
     Routes.process svc cacheLookup req = Routes.Refused 500 "Processing failed") /\
  (upstream = Conversion.Fulfilled None ->
   Routes.process svc cacheLookup req = Routes.Refused 500 "Processing failed").
Proof.
  cbv zeta.
  rewrite (@process_calls_service svc cacheLookup req url videoId Hurl Hid Hmiss).
  rewrite (@startConversion_post svc url (requestedQuality req) videoId Hkey Hid).
  split; [|split].
  - intros statusCode bodyMessage msg ->. split.
    + intros [->| ->]; reflexivity.
    + intros [->|Hge]; [reflexivity|].
      cbn [message]. unfold Conversion.httpErrorMessage.
      destruct (Z.eqb_spec statusCode 429) as [->|_]; [lia|].
      destruct (Z.eqb_spec statusCode 403) as [->|_]; [lia|].
      destruct (Z.eqb_spec statusCode 404) as [->|_]; [lia|].
      destruct (Z.leb_spec 500 statusCode); [reflexivity|lia].
  - intros message ->. reflexivity.
  - intros ->. reflexivity.
Qed.

Lemma process_upstream_failure_witness :
  Routes.process Scenario2.rateLimited Scenario2.noCache Scenario2.watchRequest
  = Routes.Refused 500 "Processing failed".
Proof.
  assert (Hid : YouTubeService.extractVideoId Scenario2.watchUrl
                = YouTubeService.Str (str "dQw4w9WgXcQ"))
    by (vm_compute; reflexivity).
  destruct (@process_upstream_failure Scenario2.rateLimited Scenario2.noCache
              Scenario2.watchRequest Scenario2.watchUrl (str "dQw4w9WgXcQ")
              eq_refl eq_refl Hid eq_refl) as (H & _).
  exact (proj1 (H 429%Z None (str "Request failed with status code 429") eq_refl)
               (or_introl eq_refl)).
Defined.

(** X22.  A [completed] reply of [POST /process] names the eleven-character
    video id of the request's URL and the requested quality ([medium] when
    the request has none).  Marked as cached, its audio URL is that of the
    cache row for this id and quality; otherwise there is no such row and
    the audio URL is the non-empty download URL of the job that
    [startConversion] returned. *)
Theorem process_completed (svc : Conversion.service)
        (cacheLookup : js_string -> js_string -> option Routes.cached)
        (req : Routes.request) (hit : bool) (videoId quality audioUrl : js_string)
        (Hdone : Routes.process svc cacheLookup req
                 = Routes.Completed hit videoId quality audioUrl) :
  exists url,
    Routes.youtubeUrl req = Some url /\
    YouTubeService.extractVideoId url = YouTubeService.Str videoId /\
    List.length videoId = 11%nat /\
    quality = requestedQuality req /\
    (if hit
     then exists row, cacheLookup videoId quality = Some row /\
                      Routes.audio_url row = audioUrl
     else cacheLookup videoId quality = None /\ audioUrl <> [] /\
          exists j, Conversion.startConversion svc url quality = Ok j /\
                    Conversion.downloadUrl j = Some audioUrl).
Proof.
  unfold Routes.process in Hdone. fold (requestedQuality req) in Hdone.
  destruct (Routes.youtubeUrl req) as [url|] eqn:Eurl; [|discriminate].
  destruct (negb (truthy (Some url))); [discriminate|].
  change (YouTubeService.valueOf (Some url)) with url in Hdone.
  destruct (YouTubeService.extractVideoId url) as [| |[|c rest]] eqn:Eid;
    try discriminate.
  exists url. split; [reflexivity|].
  destruct (@extractVideoId_nonempty _ _ Eid) as (_ & Hlen).
  destruct (cacheLookup (c :: rest) (requestedQuality req)) as [row|] eqn:Ec.
  - injection Hdone as <- <- <- <-. repeat split; try assumption.
    now exists row.
  - destruct (Conversion.startConversion svc url (requestedQuality req))
      as [j|e] eqn:Es.
    + destruct (Conversion.downloadUrl j) as [[|x l]|] eqn:Ed;
        cbn [truthy] in Hdone; try discriminate.
      injection Hdone as <- <- <- <-. repeat split; try assumption.
      * discriminate.
      * now exists j.
    + unfold Routes.errorReply in Hdone.
      repeat (destruct (_ : bool) in Hdone; try discriminate).
Qed.

Lemma process_completed_witness :
  exists url,
    Routes.youtubeUrl Scenario2.watchRequest = Some url /\
    YouTubeService.extractVideoId url = YouTubeService.Str (str "dQw4w9WgXcQ").
Proof.
  assert (H : Routes.process Scenario2.converted Scenario2.noCache
                             Scenario2.watchRequest
              = Routes.Completed false (str "dQw4w9WgXcQ") (str "medium")
                                 (str "https://cdn.example/audio.mp3"))
    by (vm_compute; reflexivity).
  destruct (process_completed _ _ _ H) as (url & H1 & H2 & _).
  exists url. split; [exact H1|exact H2].
Defined.

(* ------------------------------------------------------------------ *)
(** ** [downloadAudio] *)

Section Legacy.

Import Download.

(** The polling loop behind [downloadAudio], with its thirty attempts. *)
Lemma thirty_attempts (net : Z -> YouTubeService.probe) (url : js_string) :
  (YouTubeService.outcome (YouTubeService.waitForConversion net url 30) = Ok url /\
   exists attempt, (1 <= attempt <= 30)%Z /\
                   isReady (probeReply net attempt) = true)
  \/
  (YouTubeService.outcome (YouTubeService.waitForConversion net url 30)
   = Throw YouTubeService.exhausted /\
   forall j, (1 <= j <= 30)%Z -> isReady (probeReply net j) = false).
Proof.
  unfold YouTubeService.waitForConversion.
  destruct (poll_outcome net url 30 (Z.to_nat 30) 1 0 [])
    as [(Ho & Hp & Hr & _)|(Ho & _ & Hb)].
  - left. split; [exact Ho|]. eexists. split; [|exact Hr]. lia.
  - right. split; [exact Ho|]. intros j Hj. apply Hb. lia.
Qed.

End Legacy.

(** X23.  What [downloadAudio] returns is the download URL of the upstream
    reply, unchanged and not empty, with the video id of the requested URL
    and a title that is not empty; and when the reply said [CONVERTING],
    one of at most thirty probes of that URL answered [200] before the
    function returned. *)
Theorem downloadAudio_returns_upstream_url (svc : Download.service)
        (youtubeUrl quality : js_string) (d : Download.download)
        (Hok : Download.downloadAudio svc youtubeUrl quality = Ok d) :
  exists data url,
    Download.post svc youtubeUrl = Download.Fulfilled (Some data) /\
    Download.downloadUrl data = Some url /\ url <> [] /\
    Download.finalDownloadUrl d = url /\
    YouTubeService.extractVideoId youtubeUrl
    = YouTubeService.Str (Download.videoId d) /\
    Download.quality d = quality /\
    Download.downloadTitle d <> [] /\
    (Download.status data = Some (str "CONVERTING") ->
     exists attempt, (1 <= attempt <= 30)%Z /\
                     isReady (probeReply (Download.head svc url) attempt) = true).
Proof.
  unfold Download.downloadAudio in Hok.
  destruct (negb (truthy (Download.rapidApiKey svc))); [discriminate|].
  destruct (YouTubeService.extractVideoId youtubeUrl) as [| |[|c rest]] eqn:Eid;
    try discriminate.
  destruct (negb (Download.isWellFormed youtubeUrl)); [discriminate|].
  destruct (Download.post svc youtubeUrl)
    as [[data|]|statusCode bodyMessage message|code message] eqn:Epost;
    try discriminate.
  2:{ destruct (match code with Some _ => _ | None => _ end); discriminate. }
  destruct (truthy (Download.error data)); [discriminate|].
  unfold Download.parseDownloadResponse in Hok.
  cbn [Download.dataDownloadUrl Download.dataStatus Download.dataTitle
       Download.dataId] in Hok.
  destruct (Download.downloadUrl data) as [[|u url]|] eqn:Eurl;
    cbn [truthy negb YouTubeService.valueOf] in Hok; try discriminate.
  exists data, (u :: url). split; [reflexivity|]. split; [exact Eurl|].
  split; [discriminate|].
  assert (Htitle : Conversion.orText (Download.title data) (str "Unknown Title")
                   <> []).
  { unfold Conversion.orText.
    destruct (Download.title data) as [[|x l]|]; cbn; discriminate. }
  destruct (Download.status data) as [st|] eqn:Est.
  - destruct (js_string_eqb st (str "CONVERTING")) eqn:Econv.
    + destruct (thirty_attempts (Download.head svc (u :: url)) (u :: url))
        as [(Ho & Hready)|(Ho & _)]; rewrite Ho in Hok; [|discriminate].
      injection Hok as <-. cbn. repeat split; auto.
    + injection Hok as <-. cbn. repeat split; auto.
      intros [= ->]. now rewrite js_string_eqb_refl in Econv.
  - injection Hok as <-. cbn. repeat split; auto. discriminate.
Qed.

Lemma downloadAudio_returns_upstream_url_witness :
  exists d,
    Download.downloadAudio Scenario2.converting Scenario2.watchUrl (str "high")
    = Ok d /\
    Download.finalDownloadUrl d = str "https://cdn.example/a.mp3".
Proof.
  assert (H : exists d,
             Download.downloadAudio Scenario2.converting Scenario2.watchUrl
                                    (str "high") = Ok d)
    by (vm_compute; eexists; reflexivity).
  destruct H as (d & H). exists d. split; [exact H|].
  destruct (@downloadAudio_returns_upstream_url Scenario2.converting
              Scenario2.watchUrl (str "high") d H)
    as (data & url & Hpost & Hurl & _ & Hfinal & _).
  rewrite Hfinal. injection Hpost as <-. injection Hurl as <-. reflexivity.
Defined.

(** X24.  When the upstream reply says [CONVERTING], [downloadAudio] polls
    the download URL: it returns that URL if one of the thirty probes
    answers [200], and otherwise throws the conversion time-out of
    [waitForConversion], which its own handler passes on unchanged. *)
Theorem downloadAudio_waits_for_conversion (svc : Download.service)
        (youtubeUrl quality videoId url : js_string) (data : Download.api_data)
        (Hkey : truthy (Download.rapidApiKey svc) = true)
        (Hid : YouTubeService.extractVideoId youtubeUrl = YouTubeService.Str videoId)
        (Hwf : Download.isWellFormed youtubeUrl = true)
        (Hpost : Download.post svc youtubeUrl = Download.Fulfilled (Some data))
        (Herr : truthy (Download.error data) = false)
        (Hurl : Download.downloadUrl data = Some url)
        (Hne : url <> [])
        (Hconv : Download.status data = Some (str "CONVERTING")) :
  ((exists attempt, (1 <= attempt <= 30)%Z /\
                    isReady (probeReply (Download.head svc url) attempt) = true) /\
   exists d, Download.downloadAudio svc youtubeUrl quality = Ok d /\
             Download.finalDownloadUrl d = url /\
             Download.conversionId d = Download.id data)
  \/
  ((forall j, (1 <= j <= 30)%Z ->
              isReady (probeReply (Download.head svc url) j) = false) /\
   Download.downloadAudio svc youtubeUrl quality = Throw YouTubeService.exhausted).
Proof.
  unfold Download.downloadAudio. rewrite Hkey, Hid.
  destruct (@extractVideoId_nonempty _ _ Hid) as (_ & Hlen).
  destruct videoId as [|c rest]; [discriminate|].
  cbn [negb]. rewrite Hwf, Hpost, Herr. cbn [negb].
  unfold Download.parseDownloadResponse.
  cbn [Download.dataDownloadUrl Download.dataStatus Download.dataTitle
       Download.dataId].
  rewrite Hurl, Hconv, js_string_eqb_refl.
  destruct url as [|u url]; [contradiction|].
  cbn [truthy negb YouTubeService.valueOf].
  destruct (thirty_attempts (Download.head svc (u :: url)) (u :: url))
    as [(Ho & Hready)|(Ho & Hnone)]; rewrite Ho.
  - left. split; [exact Hready|]. eexists. split; [reflexivity|]. now cbn.
  - right. now split.
Qed.

Lemma downloadAudio_waits_for_conversion_witness :
  exists d,
    Download.downloadAudio Scenario2.converting Scenario2.watchUrl (str "high")
    = Ok d /\
    Download.conversionId d = Some (str "job-1").
Proof.
  assert (Hid : YouTubeService.extractVideoId Scenario2.watchUrl
                = YouTubeService.Str (str "dQw4w9WgXcQ"))
    by (vm_compute; reflexivity).
  assert (Hwf : Download.isWellFormed Scenario2.watchUrl = true)
    by (vm_compute; reflexivity).
  destruct (@downloadAudio_waits_for_conversion Scenario2.converting
              Scenario2.watchUrl (str "high") (str "dQw4w9WgXcQ")
              (str "https://cdn.example/a.mp3")
              (Download.mkApi None (Some (str "job-1"))
                              (Some (str "https://cdn.example/a.mp3"))
                              (Some (str "CONVERTING")) None)
              eq_refl Hid Hwf eq_refl eq_refl eq_refl ltac:(discriminate) eq_refl)
    as [(_ & d & Hd & _ & Hc)|(Hnone & _)].
  - exists d. split; [exact Hd|exact Hc].
  - specialize (Hnone 3%Z ltac:(lia)). vm_compute in Hnone. discriminate.
Defined.

(* ------------------------------------------------------------------ *)
(** ** The bytes that the sampler reads *)

Section Stride.

Import Sampler.
Local Open Scope Z_scope.

Lemma sampleChunk_ext (a b : Buffer) (endByte : Z) :
  buflen a = buflen b ->
  forall fuel j sum count,
    (forall k, 0 <= k -> j + 20 * k < endByte -> j + 20 * k < buflen a - 1 ->
               byteAt a (j + 20 * k) = byteAt b (j + 20 * k)) ->
    sampleChunk fuel a j endByte sum count
    = sampleChunk fuel b j endByte sum count.
Proof.
  intros Hlen. induction fuel as [|fuel IH]; intros j sum count Hsame;
    [reflexivity|].
  cbn [sampleChunk]. rewrite <- Hlen.
  destruct (Z.ltb_spec j endByte) as [Hj|]; [|reflexivity].
  assert (Hnext : forall k, 0 <= k -> j + 20 + 20 * k < endByte ->
                            j + 20 + 20 * k < buflen a - 1 ->
                            byteAt a (j + 20 + 20 * k) = byteAt b (j + 20 + 20 * k)).
  { intros k Hk H1 H2.
    replace (j + 20 + 20 * k) with (j + 20 * (k + 1)) in * by lia.
    apply Hsame; lia. }
  destruct (Z.ltb_spec j (buflen a - 1)) as [Hin|].
  - specialize (Hsame 0 ltac:(lia)). rewrite Z.mul_0_r, Z.add_0_r in Hsame.
    rewrite <- (Hsame Hj Hin). now apply IH.
  - now apply IH.
Qed.

End Stride.

(** X25.  The sampler reads the buffer sparsely: of every chunk only each
    twentieth byte from the start of the chunk, and never the last byte of
    the buffer.  Two buffers of the same length that agree at those
    positions get the same peaks, whatever their other bytes are. *)
Theorem only_sampled_bytes_matter (a b : Buffer) (targetPeaks : Z)
        (Hlen : buflen a = buflen b)
        (Hsame : forall j, sampledAt a targetPeaks j -> byteAt a j = byteAt b j) :
  Sampler.extractRealAmplitudes a targetPeaks
  = Sampler.extractRealAmplitudes b targetPeaks.
Proof.
  unfold Sampler.extractRealAmplitudes. f_equal.
  unfold Sampler.rawAmplitudes. rewrite <- Hlen.
  apply map_ext_in. intros i Hi. apply upto_In in Hi.
  unfold Sampler.chunkPeak. rewrite <- Hlen.
  set (chunkSize := Math_floor (IZR (buflen a) / IZR targetPeaks)).
  rewrite (@sampleChunk_ext a b
             (Z.min (i * chunkSize + chunkSize) (buflen a)) Hlen
             (Z.to_nat (Z.min (i * chunkSize + chunkSize) (buflen a)
                        - i * chunkSize))
             (i * chunkSize)%Z 0%Z 0%Z); [reflexivity|].
  intros k Hk H1 H2. apply Hsame. exists i, k.
  fold chunkSize. repeat split; lia.
Qed.

Lemma only_sampled_bytes_matter_witness :
  Sampler.extractRealAmplitudes [x01; x02; x03] 1
  = Sampler.extractRealAmplitudes [x01; xff; x09] 1.
Proof.
  apply only_sampled_bytes_matter; [reflexivity|].
  intros j (i & k & Hi & Hk & Hj & _ & Hlast).
  change (buflen [x01; x02; x03]) with 3%Z in Hlast.
  assert (i = 0%Z) by lia. subst i.
  assert (k = 0%Z) by lia. subst k.
  rewrite Z.mul_0_l in Hj. subst j. reflexivity.
Defined.
